(** * ai-pr-reviewer: the diff and review-reconciliation engine of [src/review.ts]

    A shallow embedding of the pure core of [review.ts]: [splitPatch],
    [patchStartEndLine], [parsePatch], the packing loops of [doReview],
    [parseReview] with its inner [storeReview], [_sanitizeCodeBlock] and
    [getHighestReviewedCommitId], then of what surrounds it: [doSummary],
    the choice of the files to review and the tail of [doReview] in
    [review.ts], [SimpleInputs] of [simple-inputs.ts], and the review of
    one patch by [SimpleReview]; followed by the properties proved about
    them.

    Conventions of the embedding.
    - A JavaScript string is the list of its UTF-16 code units ([str]).
    - A JavaScript number that holds a line number or a token count is an
      exact integer of [Z]: the embedding does not model the rounding of
      doubles above 2^53.
    - A regular expression of the source is a matcher written by hand, one
      definition per sub-pattern, in the order the backtracking engine tries
      them.  Every quantifier of these patterns is followed by a character
      outside the class it repeats, so the greedy choice is the only one that
      can succeed and the matchers never need to backtrack into a quantifier.
    - [console]/[core] logging and the [debug] flag have no effect on results
      and are left out. *)

From Stdlib Require Import Strings.String Strings.Ascii Numbers.DecimalString.
From Stdlib Require Import ZArith NArith Arith List Bool Lia.
From Equations Require Import Equations.
From Equations.Prop Require Import Logic.
Import ListNotations.

(* ===================================================================== *)
(** ** JavaScript strings *)
(* ===================================================================== *)

Module JS.

(** A UTF-16 code unit, and a string. *)
Abbreviation char := N (only parsing).
Abbreviation str := (list N) (only parsing).

(** An ASCII literal of the source as a [str]. *)
Definition lit (s : string) : str :=
  List.map N_of_ascii (list_ascii_of_string s).

Definition nl : char := 10%N.
Definition space : char := 32%N.
Definition backtick : char := 96%N.

Definition char_eqb (a b : char) : bool := N.eqb a b.

Fixpoint str_eqb (a b : str) : bool :=
  match a, b with
  | [], [] => true
  | x :: a', y :: b' => char_eqb x y && str_eqb a' b'
  | _, _ => false
  end.

(** [\d] without the [u] flag: the ten ASCII digits. *)
Definition is_digit (c : char) : bool := (48 <=? c)%N && (c <=? 57)%N.

(** ECMAScript LineTerminator: LF, CR, LS, PS.  With the [m] flag, [^]
    matches after one of these and [.] never matches one. *)
Definition is_line_terminator (c : char) : bool :=
  (c =? 10)%N || (c =? 13)%N || (c =? 8232)%N || (c =? 8233)%N.

(** [\s], and what [String.prototype.trim] removes: ECMAScript WhiteSpace
    (TAB, VT, FF, SP, NBSP, ZWNBSP and the Unicode space separators) and
    LineTerminator. *)
Definition is_space (c : char) : bool :=
  ((9 <=? c)%N && (c <=? 13)%N)
  || (c =? 32)%N || (c =? 160)%N || (c =? 5760)%N
  || ((8192 <=? c)%N && (c <=? 8202)%N)
  || (c =? 8232)%N || (c =? 8233)%N || (c =? 8239)%N
  || (c =? 8287)%N || (c =? 12288)%N || (c =? 65279)%N.

(** The longest prefix of [s] whose characters satisfy [p], and the rest:
    a greedy [p*]. *)
Fixpoint span (p : char -> bool) (s : str) : str * str :=
  match s with
  | [] => ([], [])
  | c :: s' =>
      if p c then let (a, b) := span p s' in (c :: a, b) else ([], s)
  end.

Fixpoint dropWhile (p : char -> bool) (s : str) : str :=
  match s with
  | [] => []
  | c :: s' => if p c then dropWhile p s' else s
  end.

(** [s.trim()] *)
Definition trim (s : str) : str :=
  rev (dropWhile is_space (rev (dropWhile is_space s))).

(** [s.startsWith(p)], returning what follows the prefix. *)
Fixpoint strip_prefix (p s : str) : option str :=
  match p, s with
  | [], _ => Some s
  | _ :: _, [] => None
  | x :: p', y :: s' => if char_eqb x y then strip_prefix p' s' else None
  end.

Definition startsWith (s p : str) : bool :=
  match strip_prefix p s with Some _ => true | None => false end.

(** [s.split('\n')]: never empty, [''] for the empty string. *)
Fixpoint split_nl (s : str) : list str :=
  match s with
  | [] => [[]]
  | c :: s' =>
      if char_eqb c nl then [] :: split_nl s'
      else match split_nl s' with
           | [] => [[c]]
           | l :: ls => (c :: l) :: ls
           end
  end.

(** [a.join('\n')] *)
Fixpoint join_nl (ls : list str) : str :=
  match ls with
  | [] => []
  | [l] => l
  | l :: ls' => l ++ nl :: join_nl ls'
  end.

(** [s.substring(a, b)] and [s.slice(a, b)] for [0 <= a <= b]; [s.slice(a)]
    and [s.substring(a)] are [skipn a s]. *)
Definition substring (s : str) (a b : nat) : str := firstn (b - a) (skipn a s).

(** [s.indexOf(pat, from)] as the first index at or after [from] where
    [pat] occurs; [None] stands for [-1].  [find_from i s] searches [s],
    whose first character has index [i] in the whole string. *)
Fixpoint find_from (pat : str) (i : nat) (s : str) : option nat :=
  if startsWith s pat then Some i
  else match s with
       | [] => None
       | _ :: s' => find_from pat (S i) s'
       end.

Definition indexOf (s pat : str) (from : nat) : option nat :=
  (* the start position is clamped to the length *)
  let from := Nat.min from (length s) in
  find_from pat from (skipn from s).

(** [parseInt(d, 10)] on a run of decimal digits. *)
Definition digit_val (c : char) : Z := Z.of_N c - 48.

Definition parseInt (d : str) : Z :=
  fold_left (fun acc c => 10 * acc + digit_val c)%Z d 0%Z.

(** A number in a template literal: decimal, with a sign when negative. *)
Definition numToString (z : Z) : str :=
  lit (NilZero.string_of_int (Z.to_int z)).

End JS.

Import JS.

(** The option monad, for matchers that consume a string piece by piece. *)
Definition obind {A B} (o : option A) (f : A -> option B) : option B :=
  match o with Some a => f a | None => None end.

Notation "'let*' p ':=' e 'in' k" := (obind e (fun p => k))
  (at level 10, p pattern, e at level 200, k at level 200).

(** What a call does: it returns, or it throws. *)
Inductive jsError :=
| TypeError           (* reading an index of [undefined] *)
| HostError.          (* a failed request to the host *)

Inductive outcome (A : Type) :=
| Returns (a : A)
| Throws (e : jsError).
Arguments Returns {A} a.
Arguments Throws {A} e.

Definition bind {A B} (o : outcome A) (f : A -> outcome B) : outcome B :=
  match o with Returns a => f a | Throws e => Throws e end.

(** [(\d+)]: a non-empty greedy run of digits, and what follows it. *)
Definition digits1 (s : str) : option (str * str) :=
  match span is_digit s with
  | ([], _) => None
  | (d, r) => Some (d, r)
  end.

(** A literal piece of a pattern. *)
Definition expect (l : string) (s : str) : option str := strip_prefix (lit l) s.

(** Lengths of what the matchers consume: the termination measures of the
    loops below. *)
Lemma strip_prefix_length (p s r : str) :
  strip_prefix p s = Some r -> length s = length p + length r.
Proof.
  revert s; induction p as [|x p IH]; intros s; simpl.
  - intros [= ->]; reflexivity.
  - destruct s as [|y s]; [discriminate|].
    destruct (char_eqb x y); [|discriminate].
    intros H; apply IH in H; simpl; lia.
Qed.

Lemma expect_length (l : string) (s r : str) :
  expect l s = Some r -> length s = String.length l + length r.
Proof.
  unfold expect, lit. intros H; apply strip_prefix_length in H.
  rewrite length_map in H.
  replace (length (list_ascii_of_string l)) with (String.length l) in H;
    [exact H|].
  clear; induction l; simpl; congruence.
Qed.

Lemma dropWhile_length (p : char -> bool) (s : str) :
  length (dropWhile p s) <= length s.
Proof.
  induction s as [|c s IH]; simpl; [lia|]. destruct (p c); simpl; lia.
Qed.

Lemma span_length (p : char -> bool) (s a b : str) :
  span p s = (a, b) -> length s = length a + length b.
Proof.
  revert a b; induction s as [|c s IH]; simpl; intros a b.
  - intros [= <- <-]; reflexivity.
  - destruct (p c).
    + destruct (span p s) as [a' b'] eqn:E. intros [= <- <-].
      simpl. rewrite (IH a' b' eq_refl). reflexivity.
    + intros [= <- <-]; reflexivity.
Qed.

Lemma digits1_length (s d r : str) :
  digits1 s = Some (d, r) -> length s = length d + length r /\ 0 < length d.
Proof.
  unfold digits1. destruct (span is_digit s) as [a b] eqn:E.
  apply span_length in E. destruct a; [discriminate|].
  intros [= <- <-]. simpl in *. lia.
Qed.

(** Steps through a matcher written with [let*]: one hypothesis per piece
    that matched, as an equation between lengths. *)
Ltac matcher_lengths H :=
  repeat match type of H with
  | obind (expect ?l ?x) _ = _ =>
      let E := fresh "E" in
      destruct (expect l x) eqn:E; simpl in H; [|discriminate];
      apply expect_length in E
  | obind (digits1 ?x) _ = _ =>
      let E := fresh "E" in
      destruct (digits1 x) as [[? ?]|] eqn:E; simpl in H; [|discriminate];
      apply digits1_length in E
  end.

(* ===================================================================== *)
(** ** HunkSplitter and HunkAnnotator: [splitPatch], [patchStartEndLine],
       [parsePatch] *)
(* ===================================================================== *)

Module Diff.

(** [^@@ -(\d+),(\d+) \+(\d+),(\d+) @@] tried at the start of [s]: the four
    captures and what follows the match. *)
Definition hunk_header (s : str) : option (str * str * str * str * str) :=
  let* s := expect "@@ -" s in
  let* (d1, s) := digits1 s in
  let* s := expect "," s in
  let* (d2, s) := digits1 s in
  let* s := expect " +" s in
  let* (d3, s) := digits1 s in
  let* s := expect "," s in
  let* (d4, s) := digits1 s in
  let* s := expect " @@" s in
  Some (d1, d2, d3, d4, s).

(** [.*]: up to the end of the line. *)
Definition rest_of_line (s : str) : str :=
  fst (span (fun c => negb (is_line_terminator c)) s).

(** The search of [pattern.exec] for
    [/(^@@ -(\d+),(\d+) \+(\d+),(\d+) @@).*$/gm] in [s], whose first
    character has index [i]; [bol] tells whether [^] holds at [i].  The
    result is [match.index] and the index after the match, the next
    [lastIndex].  After the greedy [.*] the position is the end of the text
    or a line terminator, where [$] holds. *)
Fixpoint exec_from (bol : bool) (i : nat) (s : str) : option (nat * nat) :=
  match (if bol then hunk_header s else None) with
  | Some (_, rest) =>
      Some (i, i + (length s - length rest) + length (rest_of_line rest))
  | None =>
      match s with
      | [] => None
      | c :: s' => exec_from (is_line_terminator c) (S i) s'
      end
  end.

(** With the [m] flag [^] holds at index 0 and after a line terminator. *)
Definition line_start (patch : str) (i : nat) : bool :=
  match i with
  | 0 => true
  | S k => match nth_error patch k with
           | Some c => is_line_terminator c
           | None => false
           end
  end.

(** [pattern.exec(patch)] with the regex's [lastIndex]. *)
Definition exec (patch : str) (lastIndex : nat) : option (nat * nat) :=
  if length patch <? lastIndex then None
  else exec_from (line_start patch lastIndex) lastIndex
         (skipn lastIndex patch).

Lemma hunk_header_length (s r : str) (caps : str * str * str * str) :
  hunk_header s = Some (caps, r) -> length r < length s.
Proof.
  unfold hunk_header. intros H. matcher_lengths H.
  injection H as <- <-. simpl in *. lia.
Qed.

Lemma rest_of_line_length (s : str) : length (rest_of_line s) <= length s.
Proof.
  unfold rest_of_line.
  destruct (span (fun c => negb (is_line_terminator c)) s) as [a b] eqn:E.
  apply span_length in E. simpl. lia.
Qed.

Lemma exec_from_bounds (bol : bool) (i : nat) (s : str) (index next : nat) :
  exec_from bol i s = Some (index, next) ->
  i <= index /\ index < next /\ next <= i + length s.
Proof.
  revert bol i; induction s as [|c s IH]; intros bol i; cbn [exec_from].
  - destruct bol; simpl; discriminate.
  - destruct (if bol then hunk_header (c :: s) else None)
      as [[caps r]|] eqn:E.
    + destruct bol; [|discriminate].
      apply hunk_header_length in E.
      pose proof (rest_of_line_length r).
      intros [= Hi Hn]. cbn [length] in *. destruct (length r); lia.
    + intros H; apply IH in H. cbn [length]. lia.
Qed.

Lemma exec_bounds (patch : str) (lastIndex index next : nat) :
  exec patch lastIndex = Some (index, next) ->
  lastIndex <= index /\ index < next /\ next <= length patch.
Proof.
  unfold exec. destruct (Nat.ltb_spec (length patch) lastIndex);
    [discriminate|].
  intros He; apply exec_from_bounds in He. rewrite length_skipn in He. lia.
Qed.

(** The [while ((match = pattern.exec(patch)) !== null)] loop of
    [splitPatch] and the [if (last !== -1)] after it, on the regex's
    [lastIndex] and the variables [last] ([None] is [-1]) and [result]. *)
Equations? split_loop (patch : str) (lastIndex : nat) (last : option nat)
    (result : list str) : list str
  by wf (length patch - lastIndex) lt :=
  split_loop patch lastIndex last result
    with inspect (exec patch lastIndex) := {
    | exist _ None _ :=
        match last with
        | Some l => result ++ [skipn l patch]
        | None => result
        end;
    | exist _ (Some (index, next)) e :=
        split_loop patch next (Some index)
          match last with
          | None => result
          | Some l => result ++ [substring patch l index]
          end }.
Proof.
  apply exec_bounds in e. lia.
Qed.

(** [patch] is [string | null | undefined]. *)
Definition splitPatch (patch : option str) : list str :=
  match patch with
  | None => []
  | Some patch => split_loop patch 0 None []
  end.

(** The first match of [/(^@@ -(\d+),(\d+) \+(\d+),(\d+) @@)/gm] in a fresh
    regex: the four captures. *)
Fixpoint header_search (bol : bool) (s : str)
  : option (str * str * str * str) :=
  match (if bol then hunk_header s else None) with
  | Some (caps, _) => Some caps
  | None =>
      match s with
      | [] => None
      | c :: s' => header_search (is_line_terminator c) s'
      end
  end.

Record LineRange := mkRange { startLine : Z; endLine : Z }.
Record HunkInfo := mkHunkInfo { oldHunk : LineRange; newHunk : LineRange }.

Definition patchStartEndLine (patch : str) : option HunkInfo :=
  match header_search true patch with
  | Some (m2, m3, m4, m5) =>
      let oldBegin := parseInt m2 in
      let oldDiff := parseInt m3 in
      let newBegin := parseInt m4 in
      let newDiff := parseInt m5 in
      Some (mkHunkInfo (mkRange oldBegin (oldBegin + oldDiff - 1))
              (mkRange newBegin (newBegin + newDiff - 1)))
  | None => None
  end.

(** [if (lines[lines.length - 1] === '') lines.pop()] *)
Definition pop_empty (lines : list str) : list str :=
  match rev lines with
  | [] :: r => rev r
  | _ => lines
  end.

(** The variables of the annotation loop of [parsePatch]. *)
Record acc := mkAcc {
  currentLine : Z;
  newLine : Z;
  oldHunkLines : list str;
  newHunkLines : list str
}.

Definition skipStart : Z := 3.
Definition skipEnd : Z := 3.

(** [`${n}: ${text}`] *)
Definition numbered (n : Z) (text : str) : str :=
  numToString n ++ lit ": " ++ text.

(** One round of [for (const line of lines)]; [len] is [lines.length]. *)
Definition annotate_line (removalOnly : bool) (len : Z) (a : acc)
  (line : str) : acc :=
  let currentLine := (currentLine a + 1)%Z in
  if startsWith line (lit "-") then
    mkAcc currentLine (newLine a)
      (oldHunkLines a ++ [skipn 1 line]) (newHunkLines a)
  else if startsWith line (lit "+") then
    mkAcc currentLine (newLine a + 1)
      (oldHunkLines a)
      (newHunkLines a ++ [numbered (newLine a) (skipn 1 line)])
  else
    (* context line *)
    mkAcc currentLine (newLine a + 1)
      (oldHunkLines a ++ [line])
      (newHunkLines a ++
         [if removalOnly
             || ((currentLine >? skipStart)%Z
                 && (currentLine <=? len - skipEnd)%Z)
          then numbered (newLine a) line
          else line]).

(** The lines [parsePatch] walks: the header line is skipped and a last
    empty line removed. *)
Definition body_lines (patch : str) : list str :=
  pop_empty (skipn 1 (split_nl patch)).

Definition annotate (start : Z) (lines : list str) : acc :=
  let removalOnly := negb (existsb (fun line => startsWith line (lit "+")) lines) in
  fold_left (annotate_line removalOnly (Z.of_nat (length lines))) lines
    (mkAcc 0 start [] []).

Record Hunks := mkHunks { oldView : str; newView : str }.

Definition parsePatch (patch : str) : option Hunks :=
  match patchStartEndLine patch with
  | None => None
  | Some hunkInfo =>
      let a := annotate (startLine (newHunk hunkInfo)) (body_lines patch) in
      Some (mkHunks (join_nl (oldHunkLines a)) (join_nl (newHunkLines a)))
  end.

(** The text of one patch as [codeReview] hands it to the packer. *)
Definition hunksStr (hunks : Hunks) : str :=
  [nl] ++ lit "---new_hunk---" ++ [nl] ++ lit "```" ++ [nl]
  ++ newView hunks ++ [nl] ++ lit "```" ++ [nl] ++ [nl]
  ++ lit "---old_hunk---" ++ [nl] ++ lit "```" ++ [nl]
  ++ oldView hunks ++ [nl] ++ lit "```" ++ [nl].

(** The [patches] array [codeReview] builds for one file from
    [file.patch]. *)
Definition file_patches (patch : option str) : list (Z * Z * str) :=
  flat_map
    (fun patch =>
       match patchStartEndLine patch with
       | None => []
       | Some patchLines =>
           match parsePatch patch with
           | None => []
           | Some hunks =>
               [(startLine (newHunk patchLines),
                 endLine (newHunk patchLines), hunksStr hunks)]
           end
       end)
    (splitPatch patch).

End Diff.

(* ===================================================================== *)
(** ** ResponseReconciler: [_sanitizeCodeBlock], [parseReview] *)
(* ===================================================================== *)

Module Review.

(** One attempt of [/ *(\d+): /] at the start of [s]: what follows the
    match. *)
Definition lineNumber_prefix (s : str) : option str :=
  let* (_, s) := digits1 (dropWhile (char_eqb space) s) in
  expect ": " s.

Lemma lineNumber_prefix_shorter (s r : str) :
  lineNumber_prefix s = Some r -> length r < length s.
Proof.
  unfold lineNumber_prefix. intros H.
  pose proof (dropWhile_length (char_eqb space) s) as Hd.
  matcher_lengths H. apply expect_length in H. simpl in *. lia.
Qed.

(** [block.replace(/^ *(\d+): /gm, '')].  [bol] tells whether [^] holds at
    the current position: at the start of the block and after a line
    terminator.  A match ends with a space, so [^] does not hold right
    after it. *)
Equations? replace_lineNumber (bol : bool) (s : str) : str
  by wf (length s) lt :=
  replace_lineNumber bol [] := [];
  replace_lineNumber bol (c :: s')
    with inspect (if bol then lineNumber_prefix (c :: s') else None) := {
    | exist _ (Some rest) e := replace_lineNumber false rest;
    | exist _ None e := c :: replace_lineNumber (is_line_terminator c) s' }.
Proof.
  destruct bol; [|discriminate].
  apply lineNumber_prefix_shorter in e. exact e.
Qed.

Lemma find_from_bounds (pat : str) (s : str) (i j : nat) :
  find_from pat i s = Some j -> i <= j /\ j + length pat <= i + length s.
Proof.
  revert i; induction s as [|c s IH]; intros i; simpl.
  - unfold startsWith. destruct (strip_prefix pat []) eqn:E; [|discriminate].
    intros [= <-]. apply strip_prefix_length in E. simpl in E. lia.
  - unfold startsWith. destruct (strip_prefix pat (c :: s)) eqn:E.
    + intros [= <-]. apply strip_prefix_length in E. simpl in E. lia.
    + intros H; apply IH in H. lia.
Qed.

Lemma indexOf_bounds (s pat : str) (from i : nat) :
  indexOf s pat from = Some i ->
  Nat.min from (length s) <= i /\ i + length pat <= length s.
Proof.
  unfold indexOf. intros H. apply find_from_bounds in H.
  rewrite length_skipn in H. lia.
Qed.

Definition codeBlockEnd : str := lit "```".

(** The [while (codeBlockStartIndex !== -1)] loop of [_sanitizeCodeBlock],
    on its two variables [comment] and [codeBlockStartIndex] ([None] is
    [-1]).  Each round moves the start index past a closing fence, which
    bounds the number of rounds. *)
Equations? sanitize_loop (codeBlockStart comment : str)
    (codeBlockStartIndex : option nat) : str
  by wf (match codeBlockStartIndex with
         | Some i => S (length comment - i)
         | None => 0
         end) lt :=
  sanitize_loop codeBlockStart comment None := comment;
  sanitize_loop codeBlockStart comment (Some startIndex)
    with inspect (indexOf comment codeBlockEnd
                    (startIndex + length codeBlockStart)) := {
    | exist _ None _ := comment (* break *);
    | exist _ (Some codeBlockEndIndex) e :=
        let codeBlock :=
          substring comment (startIndex + length codeBlockStart)
            codeBlockEndIndex in
        let sanitizedBlock := replace_lineNumber true codeBlock in
        let comment' :=
          firstn (startIndex + length codeBlockStart) comment
          ++ sanitizedBlock ++ skipn codeBlockEndIndex comment in
        sanitize_loop codeBlockStart comment'
          (indexOf comment' codeBlockStart
             (startIndex + length codeBlockStart + length sanitizedBlock
              + length codeBlockEnd)) }.
Proof.
  apply indexOf_bounds in e. change (length codeBlockEnd) with 3 in *.
  match goal with
  | |- context [indexOf ?c ?p ?f] => destruct (indexOf c p f) as [j|] eqn:E
  end; [|lia].
  apply indexOf_bounds in E.
  assert (L : length comment' =
              Nat.min (startIndex + length codeBlockStart) (length comment)
              + (length sanitizedBlock
                 + (length comment - codeBlockEndIndex))).
  { unfold comment'.
    rewrite !length_app, length_firstn, length_skipn. reflexivity. }
  lia.
Qed.

Definition _sanitizeCodeBlock (comment codeBlockLabel : str) : str :=
  let codeBlockStart := lit "```" ++ codeBlockLabel in
  sanitize_loop codeBlockStart comment (indexOf comment codeBlockStart 0).

Definition _sanitizeResponse (comment : str) : str :=
  let comment := _sanitizeCodeBlock comment (lit "suggestion") in
  _sanitizeCodeBlock comment (lit "diff").

(** *** [parseReview] *)

(** A known patch: [[startLine, endLine, text]], in new-file line numbers. *)
Abbreviation Patch := (Z * Z * list N)%type (only parsing).

Record Review := mkReview {
  startLine : Z;
  endLine : Z;
  comment : str
}.

(** [(\d+)-(\d+):\s*$], the part of [lineNumberRangeRegex] after its first
    group, tried at the start of [s]: the two captures. *)
Definition range_tail (s : str) : option (str * str) :=
  let* (d1, s) := digits1 s in
  let* s := expect "-" s in
  let* (d2, s) := digits1 s in
  let* s := expect ":" s in
  if forallb is_space s then Some (d1, d2) else None.

(** [line.match(/(?:^|\s)(\d+)-(\d+):\s*$/)]: the leftmost match.  At each
    position the engine tries [^], which holds at position 0 only
    ([atStart]; there is no [m] flag), then [\s], then moves on by one
    character. *)
Fixpoint range_search (atStart : bool) (s : str) : option (str * str) :=
  match (if atStart then range_tail s else None) with
  | Some m => Some m
  | None =>
      match s with
      | [] => None
      | c :: s' =>
          match (if is_space c then range_tail s' else None) with
          | Some m => Some m
          | None => range_search false s'
          end
      end
  end.

Definition lineNumberRangeRegex (line : str) : option (str * str) :=
  range_search true line.

Definition commentSeparator : str := lit "---".

(** The variables [parseReview] shares with its inner [storeReview]. *)
Record state := mkState {
  currentStartLine : option Z;
  currentEndLine : option Z;
  currentComment : str;
  reviews : list Review
}.

(** The variables of the [for (const [startLine, endLine] of patches)]
    loop of [storeReview]. *)
Record best := mkBest {
  withinPatch : bool;
  bestPatchStartLine : Z;
  bestPatchEndLine : Z;
  maxIntersection : Z
}.

Definition best0 : best := mkBest false (-1) (-1) 0.

Fixpoint overlap_loop (review : Review) (patches : list Patch) (b : best)
  : best :=
  match patches with
  | [] => b
  | (pStart, pEnd, _) :: rest =>
      let intersectionStart := Z.max (startLine review) pStart in
      let intersectionEnd := Z.min (endLine review) pEnd in
      let intersectionLength :=
        Z.max 0 (intersectionEnd - intersectionStart + 1) in
      let b' :=
        if (intersectionLength >? maxIntersection b)%Z
        then mkBest
               (intersectionLength =? endLine review - startLine review + 1)%Z
               pStart pEnd intersectionLength
        else b in
      if withinPatch b' then b' (* break *) else overlap_loop review rest b'
  end.

Definition originalLines (review : Review) : str :=
  lit "[" ++ numToString (startLine review) ++ lit "-"
  ++ numToString (endLine review) ++ lit "]".

Definition note_greatest_overlap (review : Review) : str :=
  lit "> Note: This review was outside of the patch, so it was mapped to the patch with the greatest overlap. Original lines "
  ++ originalLines review ++ [nl; nl] ++ comment review.

Definition note_no_overlap (review : Review) : str :=
  lit "> Note: This review was outside of the patch, but no patch was found that overlapped with it. Original lines "
  ++ originalLines review ++ [nl; nl] ++ comment review.

(** The validation and remapping of one review, the body of
    [storeReview] under its [if].  [patches[0][0]] on an empty array reads
    index 0 of [undefined] and throws. *)
Definition remap (patches : list Patch) (review : Review) : outcome Review :=
  let b := overlap_loop review patches best0 in
  if withinPatch b then Returns review
  else if negb (bestPatchStartLine b =? -1)%Z
          && negb (bestPatchEndLine b =? -1)%Z
  then Returns (mkReview (bestPatchStartLine b) (bestPatchEndLine b)
                  (note_greatest_overlap review))
  else match patches with
       | [] => Throws TypeError
       | (pStart, pEnd, _) :: _ =>
           Returns (mkReview pStart pEnd (note_no_overlap review))
       end.

Definition storeReview (patches : list Patch) (st : state) : outcome state :=
  match currentStartLine st, currentEndLine st with
  | Some s, Some e =>
      bind (remap patches (mkReview s e (currentComment st)))
        (fun review =>
           Returns (mkState (currentStartLine st) (currentEndLine st)
                      (currentComment st) (reviews st ++ [review])))
  | _, _ => Returns st
  end.

(** One round of the [for (const line of lines)] loop. *)
Definition scan_line (patches : list Patch) (st : state) (line : str)
  : outcome state :=
  match lineNumberRangeRegex line with
  | Some (m1, m2) =>
      bind (storeReview patches st) (fun st =>
      Returns (mkState (Some (parseInt m1)) (Some (parseInt m2)) []
                 (reviews st)))
  | None =>
      if str_eqb (trim line) commentSeparator then
        bind (storeReview patches st) (fun st =>
        Returns (mkState None None [] (reviews st)))
      else
        match currentStartLine st, currentEndLine st with
        | Some _, Some _ =>
            Returns (mkState (currentStartLine st) (currentEndLine st)
                       (currentComment st ++ line ++ [nl]) (reviews st))
        | _, _ => Returns st
        end
  end.

Fixpoint scan_lines (patches : list Patch) (st : state) (lines : list str)
  : outcome state :=
  match lines with
  | [] => Returns st
  | line :: rest =>
      bind (scan_line patches st line) (fun st => scan_lines patches st rest)
  end.

Definition state0 : state := mkState None None [] [].

(** The lines [parseReview] scans: the response trimmed, sanitized and
    split. *)
Definition response_lines (response : str) : list str :=
  split_nl (_sanitizeResponse (trim response)).

Definition parseReview (response : str) (patches : list Patch)
  : outcome (list Review) :=
  let lines := response_lines response in
  bind (scan_lines patches state0 lines) (fun st =>
  bind (storeReview patches st) (fun st =>
  Returns (reviews st))).

End Review.


(* ===================================================================== *)
(** ** RequestPacker: the two packing loops of [doReview] *)
(* ===================================================================== *)

Module Pack.
Section doReview.

(** [getTokenCount] of [tokenizer.ts]: the number of tokens of a text. *)
Variable getTokenCount : str -> N.
(** [options.heavyTokenLimits.requestTokens] *)
Variable requestTokens : Z.
(** [commenter.getCommentChainsWithinRange] for the file under review, by
    line range: the comment chains as one text, or a failed request. *)
Variable getCommentChainsWithinRange : Z -> Z -> outcome (list N).

(** The first loop, on [tokens] and [patchesToPack]. *)
Fixpoint count_loop (tokens : Z) (patchesToPack : nat)
    (patches : list Review.Patch) : Z * nat :=
  match patches with
  | [] => (tokens, patchesToPack)
  | (_, _, patch) :: rest =>
      let patchTokens := Z.of_N (getTokenCount patch) in
      if (tokens + patchTokens >? requestTokens)%Z
      then (tokens, patchesToPack) (* break *)
      else count_loop (tokens + patchTokens) (S patchesToPack) rest
  end.

(** The variables of the second loop; [insPatches] is [ins.patches]. *)
Record packing := mkPacking {
  tokens : Z;
  patchesPacked : nat;
  insPatches : str
}.

(** The text one round appends to [ins.patches]; [commentChain] is empty
    when there is none or when it was dropped. *)
Definition change_section (patch commentChain : str) : str :=
  [nl] ++ patch ++ [nl]
  ++ (if str_eqb commentChain [] then []
      else [nl] ++ lit "---comment_chains---" ++ [nl] ++ lit "```" ++ [nl]
           ++ commentChain ++ [nl] ++ lit "```" ++ [nl])
  ++ [nl] ++ lit "---end_change_section---" ++ [nl].

Fixpoint pack_loop (patchesToPack : nat) (st : packing)
    (patches : list Review.Patch) : packing :=
  match patches with
  | [] => st
  | (startLine, endLine, patch) :: rest =>
      if patchesToPack <=? patchesPacked st then st (* break *)
      else
        let commentChain :=
          match getCommentChainsWithinRange startLine endLine with
          | Returns allChains => allChains
          | Throws _ => []
          end in
        let commentChainTokens := Z.of_N (getTokenCount commentChain) in
        let fits :=
          negb (tokens st + commentChainTokens >? requestTokens)%Z in
        let commentChain := if fits then commentChain else [] in
        pack_loop patchesToPack
          (mkPacking
             (if fits then tokens st + commentChainTokens else tokens st)%Z
             (S (patchesPacked st))
             (insPatches st ++ change_section patch commentChain))
          rest
  end.

(** Both loops; [promptTokens] is
    [getTokenCount(prompts.renderReviewFileDiff(ins))] and [insPatches0]
    the [patches] field of the cloned inputs. *)
Definition pack (promptTokens : Z) (insPatches0 : str)
    (patches : list Review.Patch) : packing :=
  let (tokens, patchesToPack) := count_loop promptTokens 0 patches in
  pack_loop patchesToPack (mkPacking tokens 0 insPatches0) patches.

End doReview.
End Pack.

(* ===================================================================== *)
(** ** IncrementalRangeTracker: [getHighestReviewedCommitId] *)
(* ===================================================================== *)

Module Range.

(** The methods of [Commenter] that [getHighestReviewedCommitId] calls;
    [commenter.ts] is not among the sources. *)
Record Commenter := mkCommenter {
  getAllCommitIds : list (list N);
  getReviewedCommitIds : str -> list (list N);
  commenter_getHighestReviewedCommitId :
    list (list N) -> list (list N) -> list N
}.

Definition getHighestReviewedCommitId (commenter : Commenter)
    (existingCommitIdsBlock : str) (head_sha base_sha : str) : str :=
  let allCommitIds := getAllCommitIds commenter in
  let highestReviewedCommitId :=
    if negb (str_eqb existingCommitIdsBlock [])
    then commenter_getHighestReviewedCommitId commenter allCommitIds
           (getReviewedCommitIds commenter existingCommitIdsBlock)
    else [] in
  if str_eqb highestReviewedCommitId []
     || str_eqb highestReviewedCommitId head_sha
  then base_sha
  else highestReviewedCommitId.

(** Modelled from the spec: [Commenter.getHighestReviewedCommitId] of
    [commenter.ts], which is not among the sources.  The previously
    reviewed ids are intersected with the branch's commit ids, keeping the
    branch's chronological order, and the most recent match is taken; the
    empty string, which the caller tests for, stands for no match. *)
Definition most_recent_match (commitIds reviewedCommitIds : list (list N))
  : str :=
  match rev (filter (fun id => existsb (str_eqb id) reviewedCommitIds)
               commitIds) with
  | id :: _ => id
  | [] => []
  end.

(** A commenter over a host that reports [commitIds] for the branch and
    whose summary comment decodes with [decode]. *)
Definition spec_commenter (commitIds : list (list N))
    (decode : str -> list (list N)) : Commenter :=
  mkCommenter commitIds decode most_recent_match.

End Range.

(* ===================================================================== *)
(** ** Triage markers: the verdict a bot writes as [[TRIAGE]: ...] *)
(* ===================================================================== *)

Module Triage.

(** An alternation of literals [(a|b|...)] tried at the start of [s], in
    the order written: the text captured and what follows it. *)
Fixpoint first_alt (alts : list string) (s : str) : option (str * str) :=
  match alts with
  | [] => None
  | a :: rest =>
      match expect a s with
      | Some r => Some (lit a, r)
      | None => first_alt rest s
      end
  end.

(** [\[TRIAGE\]:\s*(a|b)] tried at the start of [s]: the capture and what
    follows the match.  Every alternative begins with a letter, so the
    greedy [\s*] is the only choice that can succeed. *)
Definition triage_here (alts : list string) (s : str)
  : option (str * str) :=
  let* s := expect "[TRIAGE]:" s in
  first_alt alts (dropWhile is_space s).

(** [text.match(regex)] for such a pattern without flags: the leftmost
    match, as the text before it, the capture and the text after it. *)
Fixpoint triage_match (alts : list string) (s : str)
  : option (str * str * str) :=
  match triage_here alts s with
  | Some (capture, post) => Some ([], capture, post)
  | None =>
      match s with
      | [] => None
      | c :: s' =>
          match triage_match alts s' with
          | Some (pre, capture, post) => Some (c :: pre, capture, post)
          | None => None
          end
      end
  end.

(** [/\[TRIAGE\]:\s*(NEEDS_REVIEW|APPROVED)/] *)
Definition triageRegex : list string := ["NEEDS_REVIEW"; "APPROVED"]%string.

End Triage.

(* ===================================================================== *)
(** ** [doSummary] and the choice of the files to review *)
(* ===================================================================== *)

Module Summary.

(** [[filename, summary, needsReview]] *)
Abbreviation SummaryResult := (list N * list N * bool)%type (only parsing).

Section doSummary.

(** [getTokenCount] of [tokenizer.ts]. *)
Variable getTokenCount : str -> N.
(** [options.lightTokenLimits.requestTokens] and
    [options.reviewSimpleChanges]. *)
Variable requestTokens : Z.
Variable reviewSimpleChanges : bool.
(** The templates [summarizeFileDiff] and [triageFileDiff] of [Prompts]. *)
Variables summarizeFileDiff triageFileDiff : str.
(** [ins.render(content)] for the inputs cloned with [filename] and
    [fileDiff] set; [inputs.ts] is not among the sources. *)
Variable render : str -> str -> str -> str.
(** [lightBot.chat(prompt, {})]: the text of the answer, or a failure. *)
Variable chat : str -> outcome str.

(** [prompts.renderSummarizeFileDiff(ins, reviewSimpleChanges)] *)
Definition renderSummarizeFileDiff (filename fileDiff : str) : str :=
  let prompt :=
    summarizeFileDiff
    ++ (if negb reviewSimpleChanges then triageFileDiff else []) in
  render filename fileDiff prompt.

Definition doSummary (filename fileDiff : str) : option SummaryResult :=
  if length fileDiff =? 0 then None
  else
    let summarizePrompt := renderSummarizeFileDiff filename fileDiff in
    let tokens := Z.of_N (getTokenCount summarizePrompt) in
    if (tokens >? requestTokens)%Z then None
    else
      match chat summarizePrompt with
      | Throws _ => None
      | Returns summarizeResp =>
          if str_eqb summarizeResp [] then None
          else if negb reviewSimpleChanges then
            match Triage.triage_match Triage.triageRegex summarizeResp with
            | Some (before, triage, after) =>
                let needsReview := str_eqb triage (lit "NEEDS_REVIEW") in
                (* the marker is replaced by '' and the summary trimmed *)
                let summary := trim (before ++ after) in
                Some (filename, summary, needsReview)
            | None => Some (filename, summarizeResp, true)
            end
          else Some (filename, summarizeResp, true)
      end.

End doSummary.

(** [[filename, fileContent, fileDiff, patches]] *)
Abbreviation FilesAndChanges :=
  (list N * list N * list N * list (Z * Z * list N))%type (only parsing).

Definition filename_of (file : FilesAndChanges) : str :=
  fst (fst (fst file)).
(** The second element, [fileContent]: the content of the file at the
    base of the pull request, empty when it could not be read, as for a
    new file. *)
Definition fileContent_of (file : FilesAndChanges) : str :=
  snd (fst (fst file)).

(** The loops of [codeReview] that start the summaries and the reviews:
    [summaryPromises] (or [reviewPromises]) as the files they are for, and
    [skippedFiles].  [options.maxFiles <= 0] lifts the cap. *)
Fixpoint cap_loop (maxFiles : Z) (promises : list FilesAndChanges)
    (skippedFiles : list str) (files : list FilesAndChanges)
  : list FilesAndChanges * list str :=
  match files with
  | [] => (promises, skippedFiles)
  | file :: rest =>
      if (maxFiles <=? 0)%Z || (Z.of_nat (length promises) <? maxFiles)%Z
      then cap_loop maxFiles (promises ++ [file]) skippedFiles rest
      else cap_loop maxFiles promises (skippedFiles ++ [filename_of file])
             rest
  end.

(** [summaries.find(([summaryFilename]) => summaryFilename === filename)
    ?.[2] ?? true] *)
Definition needsReview (summaries : list SummaryResult) (filename : str)
  : bool :=
  match find (fun s => str_eqb (fst (fst s)) filename) summaries with
  | Some (_, _, needs) => needs
  | None => true
  end.

Definition filesAndChangesReview (summaries : list SummaryResult)
    (filesAndChanges : list FilesAndChanges) : list FilesAndChanges :=
  filter (fun file => needsReview summaries (filename_of file))
    filesAndChanges.

(** [reviewsSkipped] as it is built before the reviews run. *)
Definition reviewsSkipped (summaries : list SummaryResult)
    (filesAndChanges : list FilesAndChanges) : list str :=
  map filename_of
    (filter
       (fun file =>
          negb (existsb
                  (fun review =>
                     str_eqb (filename_of review) (filename_of file))
                  (filesAndChangesReview summaries filesAndChanges)))
       filesAndChanges).

(** The summaries [codeReview] keeps, for a [doSummary] that answers by
    file name and the text it is handed: those of the files within the cap
    that are not [null], and the files skipped by the cap.  The loop takes
    each file apart as [[filename, fileDiff]], the first two elements of
    [[filename, fileContent, fileDiff, patches]]: what it hands to
    [doSummary] under the name [fileDiff] is the content of the file. *)
Definition summarize (doSummary : str -> str -> option SummaryResult)
    (maxFiles : Z) (filesAndChanges : list FilesAndChanges)
  : list SummaryResult * list str :=
  let (summaryPromises, skippedFiles) :=
    cap_loop maxFiles [] [] filesAndChanges in
  (flat_map
     (fun file =>
        match doSummary (filename_of file) (fileContent_of file) with
        | Some summary => [summary]
        | None => []
        end)
     summaryPromises,
   skippedFiles).

(** The files a review is started for, and all the files skipped by the
    cap, in the summaries and in the reviews, when [codeReview] gets as far
    as the reviews: [options.disableReview] is off and none of the
    requests made in between throws. *)
Definition reviewed (doSummary : str -> str -> option SummaryResult)
    (maxFiles : Z) (filesAndChanges : list FilesAndChanges)
  : list FilesAndChanges * list str :=
  let (summaries, skippedFiles) :=
    summarize doSummary maxFiles filesAndChanges in
  cap_loop maxFiles [] skippedFiles
    (filesAndChangesReview summaries filesAndChanges).

End Summary.

(* ===================================================================== *)
(** ** [SimpleInputs] of [simple-inputs.ts] and the prompts rendered from
       it *)
(* ===================================================================== *)

Module Inputs.

Definition dollar : char := 36%N.

(** [GetSubstitution] for a search by string: there are no captures, so
    [$$] stands for a dollar sign, [$&] for the text matched, [$`] and
    [$'] for the text before and after it, and every other character,
    a dollar sign before anything else included, stands for itself. *)
Fixpoint getSubstitution (matched preceding following template : str)
  : str :=
  match template with
  | [] => []
  | c :: t =>
      if char_eqb c dollar then
        match t with
        | [] => [c]
        | c2 :: t2 =>
            if char_eqb c2 dollar then
              dollar :: getSubstitution matched preceding following t2
            else if char_eqb c2 96 then
              preceding ++ getSubstitution matched preceding following t2
            else if char_eqb c2 38 then
              matched ++ getSubstitution matched preceding following t2
            else if char_eqb c2 39 then
              following ++ getSubstitution matched preceding following t2
            else c :: getSubstitution matched preceding following t
        end
      else c :: getSubstitution matched preceding following t
  end.

(** [s.replace(pattern, replacement)] for a string [pattern]: the first
    occurrence only. *)
Definition replace (s pattern replacement : str) : str :=
  match indexOf s pattern 0 with
  | None => s
  | Some pos =>
      let preceding := firstn pos s in
      let following := skipn (pos + length pattern) s in
      preceding
      ++ getSubstitution pattern preceding following replacement
      ++ following
  end.

Record SimpleInputs := mkSimpleInputs {
  systemMessage : str;
  title : str;
  filename : str;
  patch : str;
  review : str
}.

(** [new SimpleInputs()] *)
Definition default : SimpleInputs :=
  mkSimpleInputs [] (lit "no title provided") [] [] [].

Definition clone (this : SimpleInputs) : SimpleInputs :=
  mkSimpleInputs (systemMessage this) (title this) (filename this)
    (patch this) (review this).

(** [if (value) content = content.replace(placeholder, value)] *)
Definition render_field (content : str) (placeholder : string)
    (value : str) : str :=
  if negb (length value =? 0) then replace content (lit placeholder) value
  else content.

Definition render (this : SimpleInputs) (content : str) : str :=
  if length content =? 0 then []
  else
    let content := render_field content "$system_message"
                     (systemMessage this) in
    let content := render_field content "$title" (title this) in
    let content := render_field content "$filename" (filename this) in
    let content := render_field content "$patch" (patch this) in
    let content := render_field content "$review" (review this) in
    content.

(** The templates of [Prompts] that are rendered from a [SimpleInputs]. *)
Record Prompts := mkPrompts {
  triagePatchDiff : str;
  reviewPatchDiff : str;
  checkReviewValidity : str
}.

Definition renderTriagePatchDiff (this : Prompts) (inputs : SimpleInputs)
  : str := render inputs (triagePatchDiff this).
Definition renderReviewPatchDiff (this : Prompts) (inputs : SimpleInputs)
  : str := render inputs (reviewPatchDiff this).
Definition renderCheckReviewValidity (this : Prompts)
    (inputs : SimpleInputs) : str :=
  render inputs (checkReviewValidity this).

End Inputs.

(* ===================================================================== *)
(** ** [SimpleReview]: the review of one patch *)
(* ===================================================================== *)

Module Simple.

Import Inputs.

(** [/\[TRIAGE\]:\s*(VALID|INVALID)/] *)
Definition validityRegex : list string := ["VALID"; "INVALID"]%string.

Definition parseCheckIsNeedToReviewResponse (response : str) : bool :=
  if length response =? 0 then false
  else
    match Triage.triage_match Triage.triageRegex response with
    | None => false
    | Some (_, triage, _) => str_eqb triage (lit "NEEDS_REVIEW")
    end.

Definition parseCheckReviewValidityResponse (response : str) : bool :=
  if length response =? 0 then false
  else
    match Triage.triage_match validityRegex response with
    | None => false
    | Some (_, triage, _) => str_eqb triage (lit "VALID")
    end.

(** [parseReview] of [SimpleReview] is that of [review.ts] but for the two
    notes: their template literals go on over indented lines, so the empty
    line of a note holds two spaces and two more stand in front of the
    comment. *)
Definition note_greatest_overlap (review : Review.Review) : str :=
  lit "> Note: This review was outside of the patch, so it was mapped to the patch with the greatest overlap. Original lines "
  ++ Review.originalLines review ++ [nl] ++ lit "  " ++ [nl] ++ lit "  "
  ++ Review.comment review.

Definition note_no_overlap (review : Review.Review) : str :=
  lit "> Note: This review was outside of the patch, but no patch was found that overlapped with it. Original lines "
  ++ Review.originalLines review ++ [nl] ++ lit "  " ++ [nl] ++ lit "  "
  ++ Review.comment review.

(** The body of [storeReview] under its [if]; the search for the unit is
    the loop of [review.ts]. *)
Definition remap (patches : list Review.Patch) (review : Review.Review)
  : outcome Review.Review :=
  let b := Review.overlap_loop review patches Review.best0 in
  if Review.withinPatch b then Returns review
  else if negb (Review.bestPatchStartLine b =? -1)%Z
          && negb (Review.bestPatchEndLine b =? -1)%Z
  then Returns (Review.mkReview (Review.bestPatchStartLine b)
                  (Review.bestPatchEndLine b)
                  (note_greatest_overlap review))
  else match patches with
       | [] => Throws TypeError
       | (pStart, pEnd, _) :: _ =>
           Returns (Review.mkReview pStart pEnd (note_no_overlap review))
       end.

Definition storeReview (patches : list Review.Patch) (st : Review.state)
  : outcome Review.state :=
  match Review.currentStartLine st, Review.currentEndLine st with
  | Some s, Some e =>
      bind (remap patches (Review.mkReview s e (Review.currentComment st)))
        (fun review =>
           Returns (Review.mkState (Review.currentStartLine st)
                      (Review.currentEndLine st) (Review.currentComment st)
                      (Review.reviews st ++ [review])))
  | _, _ => Returns st
  end.

(** One round of the [for (const line of lines)] loop. *)
Definition scan_line (patches : list Review.Patch) (st : Review.state)
    (line : str) : outcome Review.state :=
  match Review.lineNumberRangeRegex line with
  | Some (m1, m2) =>
      bind (storeReview patches st) (fun st =>
      Returns (Review.mkState (Some (parseInt m1)) (Some (parseInt m2)) []
                 (Review.reviews st)))
  | None =>
      if str_eqb (trim line) Review.commentSeparator then
        bind (storeReview patches st) (fun st =>
        Returns (Review.mkState None None [] (Review.reviews st)))
      else
        match Review.currentStartLine st, Review.currentEndLine st with
        | Some _, Some _ =>
            Returns (Review.mkState (Review.currentStartLine st)
                       (Review.currentEndLine st)
                       (Review.currentComment st ++ line ++ [nl])
                       (Review.reviews st))
        | _, _ => Returns st
        end
  end.

Fixpoint scan_lines (patches : list Review.Patch) (st : Review.state)
    (lines : list str) : outcome Review.state :=
  match lines with
  | [] => Returns st
  | line :: rest =>
      bind (scan_line patches st line) (fun st => scan_lines patches st rest)
  end.

(** [sanitizeResponse] and [sanitizeCodeBlock] of [SimpleReview] are those
    of [review.ts], word for word. *)
Definition parseReview (response : str) (patches : list Review.Patch)
  : outcome (list Review.Review) :=
  let lines := split_nl (Review._sanitizeResponse (trim response)) in
  bind (scan_lines patches Review.state0 lines) (fun st =>
  bind (storeReview patches st) (fun st =>
  Returns (Review.reviews st))).

Section review.

Variable prompts : Prompts.
(** [lightBot.chat] and [heavyBot.chat]: the text of the answer, or a
    failure. *)
Variables lightBot heavyBot : str -> outcome str.

Definition checkIsNeedToReview (ins : SimpleInputs) : bool :=
  match lightBot (renderTriagePatchDiff prompts ins) with
  | Returns checkResponse => parseCheckIsNeedToReviewResponse checkResponse
  | Throws _ => false
  end.

(** [reviews[0]] of an empty array is [undefined]. *)
Definition executeReview (ins : SimpleInputs) (patch : Z * Z * list N)
  : option Review.Review :=
  match heavyBot (renderReviewPatchDiff prompts ins) with
  | Returns reviewResponse =>
      match parseReview reviewResponse [patch] with
      | Returns reviews => hd_error reviews
      | Throws _ => None
      end
  | Throws _ => None
  end.

Definition checkReviewValidity (ins : SimpleInputs) : bool :=
  match lightBot (renderCheckReviewValidity prompts ins) with
  | Returns checkResponse => parseCheckReviewValidityResponse checkResponse
  | Throws _ => false
  end.

(** What [review] hands to the commenter for one patch, if anything: the
    arguments of [bufferReviewComment], whose failure is caught and
    logged. *)
Definition review (inputs : SimpleInputs) (patch : Z * Z * list N)
  : option (str * Z * Z * str) :=
  let ins :=
    let c := clone inputs in
    mkSimpleInputs (systemMessage c) (title c) (filename c)
      (snd patch) (Inputs.review c) in
  if negb (checkIsNeedToReview ins) then None
  else
    match executeReview ins patch with
    | None => None
    | Some reviewResult =>
        if negb (checkReviewValidity ins) then None
        else
          Some (filename ins, Review.startLine reviewResult,
                Review.endLine reviewResult, Review.comment reviewResult)
    end.

End review.

End Simple.


(* ===================================================================== *)
(** ** doReview: the request for a file and the comments handed on *)
(* ===================================================================== *)

Module Post.

(** [SKIP_KEYWORDS]; a keyword outside ASCII is given by its UTF-16 code
    units, under the text it stands for. *)
Definition SKIP_KEYWORDS : list str := [
  lit "LGTM";
  lit "looks good to me";
  (* 問題ありません。 *)
  [21839; 38988; 12354; 12426; 12414; 12379; 12435; 12290]%N;
  (* 問題はありません。 *)
  [21839; 38988; 12399; 12354; 12426; 12414; 12379; 12435; 12290]%N;
  (* 問題は見受けられません。 *)
  [21839; 38988; 12399; 35211; 21463; 12369; 12425; 12428; 12414;
   12379; 12435; 12290]%N;
  (* 変更も適切です。 *)
  [22793; 26356; 12418; 36969; 20999; 12391; 12377; 12290]%N;
  (* 変更は適切です。 *)
  [22793; 26356; 12399; 36969; 20999; 12391; 12377; 12290]%N;
  (* 適切な変更です。 *)
  [36969; 20999; 12394; 22793; 26356; 12391; 12377; 12290]%N;
  (* この変更は推奨されます。 *)
  [12371; 12398; 22793; 26356; 12399; 25512; 22888; 12373; 12428;
   12414; 12377; 12290]%N;
  (* 良い変更です。 *)
  [33391; 12356; 22793; 26356; 12391; 12377; 12290]%N;
  (* 必要な修正です。 *)
  [24517; 35201; 12394; 20462; 27491; 12391; 12377; 12290]%N;
  (* 必要な変更です。 *)
  [24517; 35201; 12394; 22793; 26356; 12391; 12377; 12290]%N;
  (* 改善です。 *)
  [25913; 21892; 12391; 12377; 12290]%N;
  (* コードの可読性を向上させます。 *)
  [12467; 12540; 12489; 12398; 21487; 35501; 24615; 12434; 21521;
   19978; 12373; 12379; 12414; 12377; 12290]%N;
  (* 機能が強化されます。 *)
  [27231; 33021; 12364; 24375; 21270; 12373; 12428; 12414; 12377;
   12290]%N;
  (* 確認してください。 *)
  [30906; 35469; 12375; 12390; 12367; 12384; 12373; 12356; 12290]%N;
  (* 使用されていないようです。 *)
  [20351; 29992; 12373; 12428; 12390; 12356; 12394; 12356; 12424;
   12358; 12391; 12377; 12290]%N;
  (* コメントアウト *)
  [12467; 12513; 12531; 12488; 12450; 12454; 12488]%N;
  (* 具体的な実装がありません。 *)
  [20855; 20307; 30340; 12394; 23455; 35013; 12364; 12354; 12426;
   12414; 12379; 12435; 12290]%N;
  (* 実装がまだ完了していないようです。 *)
  [23455; 35013; 12364; 12414; 12384; 23436; 20102; 12375; 12390;
   12356; 12394; 12356; 12424; 12358; 12391; 12377; 12290]%N;
  (* 不要なインポート *)
  [19981; 35201; 12394; 12452; 12531; 12509; 12540; 12488]%N;
  (* コメントがないようです。 *)
  [12467; 12513; 12531; 12488; 12364; 12394; 12356; 12424; 12358;
   12391; 12377; 12290]%N;
  (* 説明がありません。 *)
  [35500; 26126; 12364; 12354; 12426; 12414; 12379; 12435; 12290]%N;
  (* 説明が不足しています。 *)
  [35500; 26126; 12364; 19981; 36275; 12375; 12390; 12356; 12414;
   12377; 12290]%N;
  (* 説明されていません。 *)
  [35500; 26126; 12373; 12428; 12390; 12356; 12414; 12379; 12435;
   12290]%N;
  (* 説明が必要です。 *)
  [35500; 26126; 12364; 24517; 35201; 12391; 12377; 12290]%N
].

(** [s.includes(pat)] *)
Definition includes (s pat : str) : bool :=
  match indexOf s pat 0 with
  | Some _ => true
  | None => false
  end.

(** [doReview] runs with [pullRequest] set: [codeReview] has read its
    fields before.  What a run leaves behind: the calls of
    [commenter.bufferReviewComment] it made, in order, each with its
    file name, range and comment, and the two lists of [codeReview] it
    pushes to. *)
Record log := mkLog {
  buffered : list (str * Z * Z * str);
  reviewsFailed : list str;
  reviewsSkipped : list str
}.

Section doReview.

(** [getTokenCount] of [tokenizer.ts] *)
Variable getTokenCount : str -> N.
(** [options.heavyTokenLimits.requestTokens] *)
Variable requestTokens : Z.
(** [options.reviewCommentLGTM] *)
Variable reviewCommentLGTM : bool.
(** [prompts.renderReviewFileDiff(ins)] for the copy of the inputs, by its
    [filename] and its [patches]. *)
Variable renderReviewFileDiff : str -> str -> str.
(** The [patches] field of the inputs that are copied. *)
Variable inputsPatches : str.
(** [commenter.getCommentChainsWithinRange], by file name and range. *)
Variable getCommentChainsWithinRange : str -> Z -> Z -> outcome (list N).
(** [heavyBot.chat(prompt, {})]: the response, or a failed request. *)
Variable chat : str -> outcome str.
(** [commenter.bufferReviewComment] *)
Variable bufferReviewComment : str -> Z -> Z -> str -> outcome unit.
(** The text of a caught error in a template literal. *)
Variable errorText : jsError -> str.

(** The check for LGTM: the comment is passed over. *)
Definition skipped (review : Review.Review) : bool :=
  negb reviewCommentLGTM
  && existsb (fun keyword => includes (Review.comment review) keyword)
       SKIP_KEYWORDS.

(** The loop over the parsed reviews. *)
Fixpoint post_loop (filename : str) (reviews : list Review.Review)
    (lg : log) : log :=
  match reviews with
  | [] => lg
  | review :: rest =>
      if skipped review then post_loop filename rest lg (* continue *)
      else
        let call := (filename, Review.startLine review,
                     Review.endLine review, Review.comment review) in
        match bufferReviewComment filename (Review.startLine review)
                (Review.endLine review) (Review.comment review) with
        | Returns _ =>
            post_loop filename rest
              (mkLog (buffered lg ++ [call]) (reviewsFailed lg)
                 (reviewsSkipped lg))
        | Throws e =>
            post_loop filename rest
              (mkLog (buffered lg ++ [call])
                 (reviewsFailed lg
                  ++ [filename ++ lit " comment failed (" ++ errorText e
                      ++ lit ")"])
                 (reviewsSkipped lg))
        end
  end.

Definition failed (lg : log) (entry : str) : log :=
  mkLog (buffered lg) (reviewsFailed lg ++ [entry]) (reviewsSkipped lg).

Definition doReview (filename : str) (patches : list Review.Patch)
    (lg : log) : log :=
  let packed :=
    Pack.pack getTokenCount requestTokens
      (getCommentChainsWithinRange filename)
      (Z.of_N (getTokenCount (renderReviewFileDiff filename inputsPatches)))
      inputsPatches patches in
  if 0 <? Pack.patchesPacked packed then
    match chat (renderReviewFileDiff filename (Pack.insPatches packed)) with
    | Returns response =>
        if str_eqb response [] then
          failed lg (filename ++ lit " (no response)")
        else
          match Review.parseReview response patches with
          | Returns reviews => post_loop filename reviews lg
          | Throws e =>
              failed lg (filename ++ lit " (" ++ errorText e ++ lit ")")
          end
    | Throws e => failed lg (filename ++ lit " (" ++ errorText e ++ lit ")")
    end
  else
    mkLog (buffered lg) (reviewsFailed lg)
      (reviewsSkipped lg ++ [filename ++ lit " (diff too large)"]).

End doReview.
End Post.

(* ===================================================================== *)
(** * Vocabulary of the stated properties *)
(* ===================================================================== *)

(** A non-empty run of decimal digits, and a run of whitespace. *)
Definition digits (d : list N) : Prop :=
  d <> [] /\ forallb is_digit d = true.

Definition all_space (ws : list N) : Prop := forallb is_space ws = true.

Module DiffSpec.

Import Diff.

Definition is_some {A} (o : option A) : bool :=
  match o with Some _ => true | None => false end.

(** The text [@@ -a,b +c,d @@] of a hunk header, from its four numbers
    as written. *)
Definition header_text (a b c d : str) : str :=
  lit "@@ -" ++ a ++ lit "," ++ b ++ lit " +" ++ c ++ lit "," ++ d
  ++ lit " @@".

(** A hunk-header line is a line that begins with the header pattern.
    [header_at patch i] tells whether such a line starts at index [i]:
    [i] is the start of a line and the pattern matches there. *)
Definition header_at (patch : str) (i : nat) : bool :=
  line_start patch i && is_some (hunk_header (skipn i patch)).

(** The start indices of the hunk-header lines of [patch], in order. *)
Definition header_positions (patch : str) : list nat :=
  filter (header_at patch) (seq 0 (length patch)).

(** The same indices found by one pass over the text [s], whose first
    character has index [i]; [bol] tells whether a line starts there. *)
Fixpoint scan_headers (bol : bool) (i : nat) (s : str) : list nat :=
  match s with
  | [] => []
  | c :: s' =>
      (if bol && is_some (hunk_header s) then [i] else [])
      ++ scan_headers (is_line_terminator c) (S i) s'
  end.

(** [patch] cut at the indices [cuts]: one piece per index, from it up to
    the next one, the last piece up to the end of the text. *)
Fixpoint pieces (patch : str) (cuts : list nat) : list str :=
  match cuts with
  | [] => []
  | a :: rest =>
      match rest with
      | [] => [skipn a patch]
      | b :: _ => substring patch a b :: pieces patch rest
      end
  end.

(** No line terminator in [s]: [s] lies within one line. *)
Definition one_line (s : str) : Prop :=
  forallb (fun c => negb (is_line_terminator c)) s = true.

(** The three kinds of body line, as [parsePatch] tells them apart: a
    removed line starts with [-], an added line with [+], any other line
    is a context line. *)
Definition is_removed (line : str) : bool := startsWith line (lit "-").
Definition is_added (line : str) : bool := startsWith line (lit "+").

(** The body lines that belong to the new file (context and added), and
    those that belong to the old file (context and removed). *)
Definition new_lines (lines : list str) : list str :=
  filter (fun l => negb (is_removed l)) lines.
Definition old_lines (lines : list str) : list str :=
  filter (fun l => negb (is_added l)) lines.



(** The text an old-file line has in [oldView]. *)
Definition old_text (line : str) : str :=
  if is_removed line then skipn 1 line else line.

(** The text of a new-file line as it stands in the diff, without the
    [+] of an added line. *)
Definition new_text (line : str) : str :=
  if is_added line then skipn 1 line else line.










(** The cut still open in [splitPatch]: its variable [last]. *)
Definition cuts_of (last : option nat) : list nat :=
  match last with Some l => [l] | None => [] end.

(** A diff with two header lines in a row. *)
Definition two_headers : list N :=
  join_nl (map lit ["diff"; "@@ -1,1 +1,1 @@"; "@@ -9,1 +9,1 @@"]%string).

(** A hunk of nine body lines with one added line in the middle: the
    fourth line is a context line past the skip window. *)
Definition sample_patch : list N :=
  join_nl (map lit ["@@ -1,8 +1,9 @@"; " a"; " b"; " c"; " d"; "+e"; " f";
                    " g"; " h"; " i"]%string).



End DiffSpec.


Module PackSpec.
Section Cost.

(** The token counter of the packer. *)
Variable getTokenCount : list N -> N.

(** The cost of a unit: the token count of its text. *)
Definition cost (p : Review.Patch) : Z := Z.of_N (getTokenCount (snd p)).

(** The cumulative cost of a sequence of units. *)
Definition total (ps : list Review.Patch) : Z :=
  fold_right (fun p acc => cost p + acc)%Z 0%Z ps.

(** The prefix of length [k] stays within [budget]. *)
Definition within (budget : Z) (ps : list Review.Patch) (k : nat) : Prop :=
  (total (firstn k ps) <= budget)%Z.

(** The delimiter that ends a unit in the request. *)
Definition end_of_unit : list N :=
  [nl] ++ lit "---end_change_section---" ++ [nl].

(** The block that shows a comment chain; nothing for the empty chain. *)
Definition chain_block (chain : list N) : list N :=
  match chain with
  | [] => []
  | _ => [nl] ++ lit "---comment_chains---" ++ [nl] ++ lit "```" ++ [nl]
         ++ chain ++ [nl] ++ lit "```" ++ [nl]
  end.

(** A unit as it stands in the request: its text, whole, on lines of its
    own, then the comment chain kept for it, then the delimiter. *)
Definition packed_unit (p : Review.Patch) (chain : list N) : list N :=
  [nl] ++ snd p ++ [nl] ++ chain_block chain ++ end_of_unit.

(** The text of the units [ps], one after the other in their order;
    [chains] gives the comment chain kept for each (empty for none). *)
Definition sections (ps : list Review.Patch) (chains : list (list N))
  : list N :=
  concat (map (fun pc => packed_unit (fst pc) (snd pc)) (combine ps chains)).

End Cost.

(** The chain kept for a unit: none, or the one the commenter gave for
    the range of the unit. *)
Definition kept_chain
    (getCommentChainsWithinRange : Z -> Z -> outcome (list N))
    (p : Review.Patch) (chain : list N) : Prop :=
  chain = []
  \/ getCommentChainsWithinRange (fst (fst p)) (snd (fst p)) = Returns chain.

(** A token counter that counts one token per character, and three units
    of 4, 5 and 3 tokens: against a budget of 10 the first two fit. *)
Definition char_count (s : list N) : N := N.of_nat (length s).

Definition three_units : list Review.Patch :=
  [(1, 4, lit "aaaa"); (10, 14, lit "bbbbb"); (20, 22, lit "ccc")]%Z.

End PackSpec.


Module ReviewSpec.

Import Review.

Definition pStart (p : Patch) : Z := fst (fst p).
Definition pEnd (p : Patch) : Z := snd (fst p).

(** The number of lines the range [s..e] shares with the unit [p]. *)
Definition overlap (s e : Z) (p : Patch) : Z :=
  Z.max 0 (Z.min e (pEnd p) - Z.max s (pStart p) + 1).

(** The range [s..e] lies within the range of the unit [p]. *)
Definition inside (s e : Z) (p : Patch) : Prop :=
  (pStart p <= s /\ e <= pEnd p)%Z.

(** The range of the unit [p] is [s..e]. *)
Definition has_range (s e : Z) (p : Patch) : Prop :=
  pStart p = s /\ pEnd p = e.

(** A unit as [codeReview] builds it: its start line is a number read from
    a hunk header, so it is not negative. *)
Definition known_unit (p : Patch) : Prop := (0 <= pStart p)%Z.

(** The range of the comment [r] is the range of a unit of [patches], or
    it lies within the range of one. *)
Definition anchored (patches : list Patch) (r : Review) : Prop :=
  exists p, In p patches
            /\ (has_range (startLine r) (endLine r) p
                \/ ((startLine r <= endLine r)%Z
                    /\ inside (startLine r) (endLine r) p)).

(** The comment [r] is anchored in the unit [p]: its range is the range of
    [p], or it holds a line and lies within the range of [p]. *)
Definition anchored_in (p : Patch) (r : Review) : Prop :=
  has_range (startLine r) (endLine r) p
  \/ ((startLine r <= endLine r)%Z /\ inside (startLine r) (endLine r) p).

(** The units of one file as the format of a diff has them: every range
    holds a line, and no two units share a line. *)
Definition separate (patches : list Patch) : Prop :=
  Forall (fun p => (pStart p <= pEnd p)%Z) patches
  /\ forall i j p q,
       nth_error patches i = Some p -> nth_error patches j = Some q ->
       i <> j -> overlap (pStart p) (pEnd p) q = 0%Z.

(** The scan is collecting a comment: both range variables are set. *)
Definition collecting (st : state) : Prop :=
  currentStartLine st <> None /\ currentEndLine st <> None.


(** The text [start-end:] of a range, from its two numbers as written. *)
Definition range_text (d1 d2 : list N) : list N :=
  d1 ++ lit "-" ++ d2 ++ lit ":".

(** A line that is nothing but a range: optional leading whitespace, the
    range with its colon, and the end of the line. *)
Definition bare_range_line (line : list N) (s e : Z) : Prop :=
  exists ws d1 d2,
    line = ws ++ range_text d1 d2
    /\ all_space ws /\ digits d1 /\ digits d2
    /\ s = parseInt d1 /\ e = parseInt d2.

(** A line that ends with a range: the range stands at the start of the
    line or right after a whitespace character, behind any text, and only
    whitespace follows its colon. *)
Definition range_line (line : list N) (s e : Z) : Prop :=
  exists pre d1 d2 ws,
    line = pre ++ range_text d1 d2 ++ ws
    /\ (pre = [] \/ exists pre' c, pre = pre' ++ [c] /\ is_space c = true)
    /\ digits d1 /\ digits d2 /\ all_space ws
    /\ s = parseInt d1 /\ e = parseInt d2.

(** A line that is the separator [---] between whitespace. *)
Definition separator_line (line : list N) : Prop :=
  exists ws1 ws2,
    line = ws1 ++ lit "---" ++ ws2 /\ all_space ws1 /\ all_space ws2.

(** A line the scan takes as the opening of a comment. *)
Definition opens_range (line : list N) : Prop :=
  lineNumberRangeRegex line <> None.

(** The diff and the response of the end-to-end example: one unit spanning
    the new lines 1 to 4, one comment on the lines 2 to 3. *)
Definition example_diff : list N :=
  join_nl (map lit ["@@ -1,3 +1,4 @@"; " def f():"; "-    return 1";
                    "+    return 2"; "+    # note"; ""]%string).

Definition example_response : list N :=
  join_nl (map lit ["2-3:"; "Looks fine"; "---"]%string).

(** Two units of one file, on the lines 1 to 4 and 10 to 12. *)
Definition two_units : list Patch :=
  [(1, 4, lit "first"); (10, 12, lit "second")]%Z.

End ReviewSpec.


Module SanitizeSpec.

Import Review.

(** The closing fence, and the opening fence of a block with [label]. *)
Definition fence : list N := lit "```".
Definition opener (label : list N) : list N := fence ++ label.

(** [pat] occurs in [s] at index [i]. *)
Definition occurs_at (pat s : list N) (i : nat) : Prop :=
  exists r, skipn i s = pat ++ r.

(** [out] is [text] with the line numbers stripped inside the fenced blocks
    that are opened with [label] and closed, and nowhere else.  The blocks
    are found from left to right: the first opener, the first fence after
    it, then on in what follows that fence. *)
Inductive sanitized (label : list N) : list N -> list N -> Prop :=
| san_no_opener (text : list N) :
    indexOf text (opener label) 0 = None ->
    sanitized label text text
| san_not_closed (text : list N) (i : nat) :
    indexOf text (opener label) 0 = Some i ->
    indexOf text fence (i + length (opener label)) = None ->
    sanitized label text text
| san_closed (pre block rest out : list N) :
    let text := pre ++ opener label ++ block ++ fence ++ rest in
    indexOf text (opener label) 0 = Some (length pre) ->
    indexOf text fence (length pre + length (opener label))
    = Some (length (pre ++ opener label ++ block)) ->
    sanitized label rest out ->
    sanitized label text
      (pre ++ opener label ++ replace_lineNumber true block ++ fence ++ out).

(** A closed suggestion block followed by a diff block that is never
    closed: the diff block comes back as it was. *)
Definition two_blocks : list N :=
  join_nl (map lit ["```suggestion"; "1: a"; "```"; "```diff"; "2: b"]%string).

End SanitizeSpec.


Module RangeSpec.

Import Range.

(** The branch commits that were reviewed before, in the order of the
    branch. *)
Definition reviewed_commits (commitIds reviewedCommitIds : list (list N))
  : list (list N) :=
  filter (fun id => existsb (str_eqb id) reviewedCommitIds) commitIds.

(** A commenter whose block of reviewed commits holds one commit id per
    line, over a host that reports [commitIds] for the branch. *)
Definition line_commenter (commitIds : list (list N)) : Commenter :=
  spec_commenter commitIds split_nl.

End RangeSpec.

(* ===================================================================== *)
(** * Vocabulary of the further properties *)
(* ===================================================================== *)

Module HunkSpec.

Import Diff DiffSpec.

(** The new-file range [c .. c+d-1] that the header line at index [i] of
    [patch] states. *)
Definition header_range (patch : list N) (i : nat) : option (Z * Z) :=
  match hunk_header (skipn i patch) with
  | Some (_, _, c, d, _) => Some (parseInt c, (parseInt c + parseInt d - 1)%Z)
  | None => None
  end.

(** The unit [codeReview] builds from one raw hunk. *)
Definition unit_of (hunk : list N) : option Review.Patch :=
  match patchStartEndLine hunk, parsePatch hunk with
  | Some patchLines, Some hunks =>
      Some (startLine (newHunk patchLines), endLine (newHunk patchLines),
            hunksStr hunks)
  | _, _ => None
  end.

(** One side of a header line as git writes it: the start line, and the
    count unless it is left out. *)
Definition side (start : list N) (count : option (list N)) : list N :=
  start ++ match count with Some k => lit "," ++ k | None => [] end.

(** The header line [@@ -a[,b] +c[,d] @@]. *)
Definition header_line (a : list N) (b : option (list N)) (c : list N)
    (d : option (list N)) : list N :=
  lit "@@ -" ++ side a b ++ lit " +" ++ side c d ++ lit " @@".

(** A one-line change as git writes it, both counts left out. *)
Definition one_line_change : list N :=
  join_nl (map lit ["@@ -1 +1 @@"; "-a"; "+b"]%string).


End HunkSpec.


Module StripSpec.

Import Diff.

(** The lines [lines] as the new view numbers them from [start] on: each
    behind its own line number. *)
Fixpoint numbered_from (start : Z) (lines : list (list N))
  : list (list N) :=
  match lines with
  | [] => []
  | l :: ls => numbered start l :: numbered_from (start + 1) ls
  end.

(** The number of newline characters of a text: one less than the number
    of its lines. *)
Definition newlines (s : list N) : nat := length (filter (char_eqb nl) s).

(** A reply with a suggestion block whose two lines carry line numbers. *)
Definition numbered_suggestion : list N :=
  join_nl (map lit ["Use this:"; "```suggestion"; "12: a"; "13: b"; "```";
                    "thanks"]%string).

End StripSpec.


Module ParseSpec.

Import Review ReviewSpec.

(** Whether the scan takes [line] as the opening of a comment. *)
Definition opens (line : list N) : bool :=
  DiffSpec.is_some (lineNumberRangeRegex line).

(** The comments still to flush: one while a comment is open. *)
Definition pending (st : state) : nat :=
  match currentStartLine st, currentEndLine st with
  | Some _, Some _ => 1
  | _, _ => 0
  end.

(** A line of a comment body: it neither opens a comment nor separates
    two. *)
Definition plain_line (line : list N) : Prop :=
  lineNumberRangeRegex line = None /\ trim line <> commentSeparator.

(** A comment as the reply format has it: the line of the range, the lines
    of the body, the separator. *)
Definition written (item : list N * list N * list (list N))
  : list (list N) :=
  let '(d1, d2, body) := item in
  range_text d1 d2 :: body ++ [commentSeparator].

(** The text the scan collects from the lines of a body: each line with a
    newline behind it. *)
Definition collected (body : list (list N)) : list N :=
  concat (map (fun line => line ++ [nl]) body).

(** The candidate comment the scan flushes for a written comment. *)
Definition candidate (item : list N * list N * list (list N)) : Review :=
  let '(d1, d2, body) := item in
  mkReview (parseInt d1) (parseInt d2) (collected body).

(** The candidates validated one after the other, as the flushes of a scan
    do: the first one that throws ends the parse. *)
Fixpoint remap_all (patches : list Patch) (candidates : list Review)
  : outcome (list Review) :=
  match candidates with
  | [] => Returns []
  | c :: rest =>
      bind (remap patches c) (fun r =>
      bind (remap_all patches rest) (fun rs => Returns (r :: rs)))
  end.

(** A well-formed written comment: two numbers, and body lines that are
    plain and hold no newline. *)
Definition well_written (item : list N * list N * list (list N)) : Prop :=
  let '(d1, d2, body) := item in
  digits d1 /\ digits d2
  /\ Forall (fun line => plain_line line /\ ~ In nl line) body.

(** A reply of two comments, the second one on lines outside the unit. *)
Definition two_comments : list (list N * list N * list (list N)) :=
  [(lit "2", lit "3", [lit "Looks fine"]);
   (lit "8", lit "9", [lit "Check this"; lit "again"])].

End ParseSpec.


Module OverlapSpec.

Import Review ReviewSpec.


End OverlapSpec.


Module TriageSpec.

(** The text [[TRIAGE]:], whitespace [ws] and the verdict stand in
    [response] between [before] and [after]; the verdict is one of those
    the pattern knows. *)
Definition marker (verdicts : list string) (response before ws verdict
    after : list N) : Prop :=
  In verdict (map lit verdicts)
  /\ all_space ws
  /\ response = before ++ lit "[TRIAGE]:" ++ ws ++ verdict ++ after.

(** The leftmost marker of [response]: no marker starts earlier. *)
Definition first_marker (verdicts : list string) (response before ws
    verdict after : list N) : Prop :=
  marker verdicts response before ws verdict after
  /\ forall before' ws' verdict' after',
       marker verdicts response before' ws' verdict' after' ->
       length before <= length before'.

(** The verdicts of a pattern exclude each other and begin with a
    character that is no whitespace. *)
Definition exclusive (verdicts : list string) : Prop :=
  forall v, In v verdicts ->
    (forall after,
       Triage.first_alt verdicts (lit v ++ after) = Some (lit v, after))
    /\ exists c t, lit v = c :: t /\ is_space c = false.

(** A bot that approves the change in the second line of its answer. *)
Definition approving (prompt : list N) : outcome (list N) :=
  Returns (lit "Renames a variable." ++ [nl] ++ lit "[TRIAGE]: APPROVED").

End TriageSpec.


Module SimpleSpec.

Import Inputs.

(** The inputs [review] renders its prompts from: a copy of the shared
    inputs that holds the text of the patch. *)
Definition with_patch (inputs : SimpleInputs) (text : list N)
  : SimpleInputs :=
  mkSimpleInputs (systemMessage inputs) (title inputs) (filename inputs)
    text (review inputs).

(** A light bot that asks for a review and finds the comment valid, and a
    heavy bot that comments on the lines 8 to 9. *)
Definition light (prompt : list N) : outcome (list N) :=
  Returns (lit "[TRIAGE]: NEEDS_REVIEW" ++ [nl] ++ lit "[TRIAGE]: VALID").

Definition heavy_outside (prompt : list N) : outcome (list N) :=
  Returns (join_nl (map lit ["8-9:"; "fix"; "---"]%string)).

End SimpleSpec.


Module SelectSpec.

Import Summary.

(** Three files. *)
Definition three_files : list (list N * list N * list N * list (Z * Z * list N)) :=
  [(lit "a.ts", [], lit "diff a", []);
   (lit "b.ts", [], lit "diff b", []);
   (lit "c.ts", [], lit "diff c", [])].

(** Three files with their content at the base and their diff; [new.ts]
    is a new file. *)
Definition changed_files
  : list (list N * list N * list N * list (Z * Z * list N)) :=
  [(lit "old.ts", lit "let a", lit "diff a", []);
   (lit "new.ts", [], lit "diff b", []);
   (lit "late.ts", lit "let c", lit "diff c", [])].

(** A [doSummary] that returns [null] for an empty text and otherwise
    finds that the file needs no review. *)
Definition approve_shown (filename text : list N)
  : option (list N * list N * bool) :=
  match text with
  | [] => None
  | _ => Some (filename, lit "summary", false)
  end.

End SelectSpec.


Module RenderSpec.

Import Inputs.

(** The placeholders [render] knows, each with the value it stands for. *)
Definition fields (ins : SimpleInputs) : list (string * list N) :=
  [("$system_message", systemMessage ins); ("$title", title ins);
   ("$filename", filename ins); ("$patch", patch ins);
   ("$review", review ins)]%string.

(** A text without a dollar sign. *)
Definition no_dollar (s : list N) : Prop := ~ In dollar s.

End RenderSpec.

Module PostSpec.

Import Review ReviewSpec SanitizeSpec Post.

(** One of the skip keywords occurs in the comment. *)
Definition has_skip_keyword (c : list N) : Prop :=
  exists keyword i, In keyword SKIP_KEYWORDS /\ occurs_at keyword c i.

(** The call that hands the comment [r] of the file on. *)
Definition call (filename : list N) (r : Review)
  : list N * Z * Z * list N :=
  (filename, startLine r, endLine r, comment r).

(** What a call for [r] adds to the failed reviews: an entry when the call
    throws, nothing otherwise. *)
Definition failure
    (bufferReviewComment : list N -> Z -> Z -> list N -> outcome unit)
    (errorText : jsError -> list N) (filename : list N) (r : Review)
  : list (list N) :=
  match bufferReviewComment filename (startLine r) (endLine r) (comment r)
  with
  | Returns _ => []
  | Throws e =>
      [filename ++ lit " comment failed (" ++ errorText e ++ lit ")"]
  end.

(** A log with nothing in it. *)
Definition log0 : log := mkLog [] [] [].

(** A reply of three comments, the first of which only approves, and a
    commenter that fails on the comments that start at line 3. *)
Definition three_comments : list N :=
  join_nl (map lit ["1-2:"; "LGTM"; "---"; "3-4:"; "Check this"; "---";
                    "2-3:"; "Rename it"; "---"]%string).

Definition failing_at_3 (filename : list N) (s e : Z) (c : list N)
  : outcome unit :=
  if (s =? 3)%Z then Throws HostError else Returns tt.

End PostSpec.

(* ===================================================================== *)
(** * Properties *)
(* ===================================================================== *)

(** ** What the matchers accept *)

Lemma strip_prefix_spec (p s r : str) :
  strip_prefix p s = Some r <-> s = p ++ r.
Proof.
  revert s; induction p as [|x p IH]; intros s; simpl.
  - split; [intros [= ->]; reflexivity | intros ->; reflexivity].
  - destruct s as [|y s]; [split; discriminate|].
    unfold char_eqb. destruct (N.eqb_spec x y) as [->|Hne].
    + rewrite IH. split; [intros ->; reflexivity | intros [= ->]; reflexivity].
    + split; [discriminate | intros [= -> _]; contradiction].
Qed.

Lemma expect_spec (l : string) (s r : str) :
  expect l s = Some r <-> s = lit l ++ r.
Proof. apply strip_prefix_spec. Qed.

Lemma expect_app (l : string) (r : str) : expect l (lit l ++ r) = Some r.
Proof. apply expect_spec. reflexivity. Qed.

Lemma span_spec (p : N -> bool) (s a b : str) :
  span p s = (a, b) ->
  s = a ++ b /\ forallb p a = true /\ (forall c b', b = c :: b' -> p c = false).
Proof.
  revert a b; induction s as [|c s IH]; simpl; intros a b.
  - intros [= <- <-]. repeat split. discriminate.
  - destruct (p c) eqn:Pc.
    + destruct (span p s) as [a' b'] eqn:E. intros [= <- <-].
      destruct (IH a' b' eq_refl) as (-> & Ha & Hb).
      split; [reflexivity|]. split; [|exact Hb].
      cbn [forallb]. rewrite Pc, Ha. reflexivity.
    + intros [= <- <-]. repeat split. intros c' b' [= <- _]. exact Pc.
Qed.

Lemma span_app (p : N -> bool) (a b : str) :
  forallb p a = true -> (forall c b', b = c :: b' -> p c = false) ->
  span p (a ++ b) = (a, b).
Proof.
  intros Ha Hb. induction a as [|x a IH]; simpl in *.
  - destruct b as [|c b']; [reflexivity|]. simpl.
    rewrite (Hb c b' eq_refl). reflexivity.
  - apply andb_true_iff in Ha as [-> Ha]. rewrite (IH Ha). reflexivity.
Qed.

Lemma digits1_spec (s d r : str) :
  digits1 s = Some (d, r) ->
  s = d ++ r /\ d <> [] /\ forallb is_digit d = true
  /\ (forall c r', r = c :: r' -> is_digit c = false).
Proof.
  unfold digits1. destruct (span is_digit s) as [a b] eqn:E.
  apply span_spec in E as (-> & Ha & Hb).
  destruct a as [|x a]; [discriminate|].
  intros [= <- <-]. repeat split; try assumption. discriminate.
Qed.

Lemma digits1_app (d r : str) :
  d <> [] -> forallb is_digit d = true ->
  (forall c r', r = c :: r' -> is_digit c = false) ->
  digits1 (d ++ r) = Some (d, r).
Proof.
  intros Hne Hd Hr. unfold digits1. rewrite (span_app _ _ _ Hd Hr).
  destruct d; [contradiction | reflexivity].
Qed.

Lemma digit_not_terminator (c : N) :
  is_digit c = true -> is_line_terminator c = false.
Proof.
  unfold is_digit, is_line_terminator. intros H.
  apply andb_true_iff in H as [H1 H2].
  apply N.leb_le in H1, H2.
  repeat rewrite orb_false_iff. repeat split; apply N.eqb_neq; lia.
Qed.

Lemma digit_is_not_space (c : N) : is_digit c = true -> is_space c = false.
Proof.
  unfold is_digit, is_space. intros H.
  apply andb_true_iff in H as [H1 H2].
  apply N.leb_le in H1, H2.
  repeat rewrite orb_false_iff.
  repeat split;
    try (apply N.eqb_neq; lia);
    apply andb_false_iff; (left; apply N.leb_gt; lia)
                          || (right; apply N.leb_gt; lia).
Qed.

Lemma forallb_digits_one_line (d : str) :
  forallb is_digit d = true ->
  forallb (fun c => negb (is_line_terminator c)) d = true.
Proof.
  intros H. rewrite forallb_forall in *. intros c Hc.
  rewrite (digit_not_terminator _ (H c Hc)). reflexivity.
Qed.

(** Steps through a matcher written with [let*]: each piece that matched
    becomes an equation that splits the text. *)
Ltac matcher_pieces H :=
  repeat match type of H with
  | obind (expect ?l ?x) _ = _ =>
      let E := fresh "E" in
      destruct (expect l x) eqn:E; simpl in H; [|discriminate];
      apply expect_spec in E
  | obind (digits1 ?x) _ = _ =>
      let E := fresh "E" in
      destruct (digits1 x) as [[? ?]|] eqn:E; simpl in H; [|discriminate];
      apply digits1_spec in E; destruct E as (? & ? & ? & ?)
  end.

(* ===================================================================== *)
(** ** HunkSplitter *)
(* ===================================================================== *)

Module DiffFacts.

Import Diff DiffSpec.

Lemma hunk_header_spec (s r a b c d : list N) :
  hunk_header s = Some (a, b, c, d, r) <->
  s = header_text a b c d ++ r
  /\ digits a /\ digits b /\ digits c /\ digits d.
Proof.
  unfold hunk_header, header_text, digits. split.
  - intros H. matcher_pieces H. injection H as <- <- <- <- <-. subst.
    repeat rewrite <- app_assoc. repeat split; assumption.
  - intros (-> & (Na & Da) & (Nb & Db) & (Nc & Dc) & (Nd & Dd)).
    repeat rewrite <- app_assoc.
    repeat (rewrite expect_app; cbn [obind];
            rewrite digits1_app
              by (assumption || (simpl; intros ? ? [= <- _]; reflexivity));
            cbn [obind]).
    rewrite expect_app. reflexivity.
Qed.

Lemma header_text_one_line (a b c d : list N) :
  digits a -> digits b -> digits c -> digits d ->
  one_line (header_text a b c d) /\ header_text a b c d <> [].
Proof.
  intros [_ Da] [_ Db] [_ Dc] [_ Dd]. split; [|discriminate].
  unfold one_line, header_text. rewrite !forallb_app.
  rewrite (forallb_digits_one_line _ Da), (forallb_digits_one_line _ Db),
    (forallb_digits_one_line _ Dc), (forallb_digits_one_line _ Dd).
  reflexivity.
Qed.

(** A header match is a non-empty prefix of the text that stays within
    one line. *)
Lemma hunk_header_prefix (s r : list N)
    (caps : list N * list N * list N * list N) :
  hunk_header s = Some (caps, r) ->
  exists hdr, s = hdr ++ r /\ hdr <> [] /\ one_line hdr.
Proof.
  destruct caps as [[[a b] c] d]. intros H.
  apply hunk_header_spec in H as (-> & Ha & Hb & Hc & Hd).
  destruct (header_text_one_line _ _ _ _ Ha Hb Hc Hd).
  eexists; repeat split; eassumption.
Qed.

Lemma line_start_app (pre s : list N) (c : N) :
  line_start ((pre ++ [c]) ++ s) (length (pre ++ [c])) = is_line_terminator c.
Proof.
  rewrite length_app, Nat.add_comm. cbn [length Nat.add line_start].
  rewrite <- app_assoc, nth_error_app2, Nat.sub_diag by lia. reflexivity.
Qed.

Lemma header_positions_from (s pre : list N) :
  filter (header_at (pre ++ s)) (seq (length pre) (length s))
  = scan_headers (line_start (pre ++ s) (length pre)) (length pre) s.
Proof.
  revert pre; induction s as [|c s IH]; intros pre; [reflexivity|].
  cbn [length seq filter scan_headers].
  specialize (IH (pre ++ [c])).
  rewrite line_start_app, <- app_assoc in IH. cbn [app] in IH.
  rewrite length_app, Nat.add_comm in IH. cbn [length Nat.add] in IH.
  rewrite <- IH. unfold header_at at 1.
  rewrite skipn_app, skipn_all, Nat.sub_diag. cbn [skipn app].
  destruct (line_start (pre ++ c :: s) (length pre)
            && is_some (hunk_header (c :: s))); reflexivity.
Qed.

Lemma header_positions_scan (patch : list N) :
  header_positions patch = scan_headers true 0 patch.
Proof. exact (header_positions_from patch []). Qed.

(** Within a line no header line starts. *)
Lemma scan_headers_one_line (m : list N) (s : list N) (i : nat) :
  one_line m ->
  scan_headers false i (m ++ s) = scan_headers false (i + length m) s.
Proof.
  unfold one_line. revert i; induction m as [|c m IH]; intros i Hm.
  - simpl. rewrite Nat.add_0_r. reflexivity.
  - cbn [forallb] in Hm. apply andb_true_iff in Hm as [Hc Hm].
    apply negb_true_iff in Hc.
    cbn [app scan_headers andb]. rewrite Hc, (IH (S i) Hm).
    cbn [length app]. f_equal. lia.
Qed.

(** At the end of a line no header line starts, whatever [bol]. *)
Lemma scan_headers_at_eol (b : bool) (i : nat) (s : list N) :
  (forall c s', s = c :: s' -> is_line_terminator c = true) ->
  scan_headers b i s = scan_headers false i s.
Proof.
  destruct s as [|c s']; [reflexivity|]. intros H.
  specialize (H c s' eq_refl). cbn [scan_headers].
  destruct (hunk_header (c :: s')) as [[[[[a b'] c'] d] r]|] eqn:E.
  - apply hunk_header_spec in E as [E _]. injection E as -> _.
    discriminate.
  - rewrite andb_false_r. reflexivity.
Qed.

Lemma rest_of_line_spec (s : list N) :
  exists r, s = rest_of_line s ++ r /\ one_line (rest_of_line s)
            /\ (forall c r', r = c :: r' -> is_line_terminator c = true).
Proof.
  unfold rest_of_line, one_line.
  destruct (span (fun c => negb (is_line_terminator c)) s) as [a b] eqn:E.
  apply span_spec in E as (-> & Ha & Hb). exists b. cbn [fst].
  repeat split; [exact Ha|].
  intros c r' ->. apply negb_false_iff. exact (Hb c r' eq_refl).
Qed.

Lemma exec_from_None_scan (s : list N) (bol : bool) (i : nat) :
  exec_from bol i s = None -> scan_headers bol i s = [].
Proof.
  revert bol i; induction s as [|c s IH]; intros bol i; [reflexivity|].
  cbn [exec_from scan_headers].
  destruct bol; cbn [andb].
  - destruct (hunk_header (c :: s)) as [[caps r]|]; [discriminate|].
    intros H. cbn [is_some]. apply (IH _ _ H).
  - intros H. apply (IH _ _ H).
Qed.

(** A successful [exec]: the match starts at the first header line at or
    after the start of the search, and the search resumes at the end of
    that line. *)
Lemma exec_from_Some_scan (s : list N) (bol : bool) (i index next : nat) :
  exec_from bol i s = Some (index, next) ->
  forall b, scan_headers bol i s
            = index :: scan_headers b next (skipn (next - i) s).
Proof.
  revert bol i index next; induction s as [|c s IH];
    intros bol i index next.
  - destruct bol; discriminate.
  - cbn [exec_from scan_headers].
    destruct (if bol then hunk_header (c :: s) else None)
      as [[caps r]|] eqn:E.
    + destruct bol; [|discriminate]. rewrite E. cbn [andb is_some app].
      intros H b.
      assert (Hi : i = index) by congruence.
      assert (Hn : i + (length (c :: s) - length r)
                   + length (rest_of_line r) = next) by congruence.
      clear H. subst index.
      apply hunk_header_prefix in E as (hdr & E & Hne & Hhdr).
      destruct hdr as [|h hdr]; [contradiction|].
      injection E as <- ->.
      destruct (rest_of_line_spec r) as (r' & Er & Hl & Hr').
      remember (rest_of_line r) as rol eqn:Hrol. clear Hrol. subst r.
      unfold one_line in Hhdr. cbn [forallb] in Hhdr.
      apply andb_true_iff in Hhdr as [Hh Hhdr].
      apply negb_true_iff in Hh. rewrite Hh. f_equal.
      assert (Hnext : next = S i + length hdr + length rol).
      { cbn [length] in Hn. rewrite !length_app in Hn. lia. }
      rewrite scan_headers_one_line by exact Hhdr.
      rewrite scan_headers_one_line by exact Hl.
      replace (next - i) with (S (length (hdr ++ rol)))
        by (rewrite length_app; lia).
      cbn [skipn]. rewrite app_assoc, skipn_app, skipn_all, Nat.sub_diag.
      cbn [skipn app].
      rewrite (scan_headers_at_eol b _ _ Hr').
      f_equal. lia.
    + intros H b.
      assert (Hb : (if bol && is_some (hunk_header (c :: s))
                    then [i] else []) = []).
      { destruct bol; [|reflexivity]. rewrite E. reflexivity. }
      rewrite Hb. cbn [app]. rewrite (IH _ _ _ _ H b).
      apply exec_from_bounds in H.
      replace (next - i) with (S (next - S i)) by lia. reflexivity.
Qed.

Lemma split_loop_spec (patch : list N) (n : nat) :
  forall k last result,
    length patch - k < n -> k <= length patch ->
    split_loop patch k last result
    = result ++ pieces patch
                  (cuts_of last
                   ++ scan_headers (line_start patch k) k (skipn k patch)).
Proof.
  induction n as [|n IH]; intros k last result Hn Hk; [lia|].
  simp split_loop.
  destruct (inspect (exec patch k)) as [[[index next]|] e];
    simp split_loop.
  - pose proof (exec_bounds _ _ _ _ e) as Hb.
    unfold exec in e. destruct (Nat.ltb_spec (length patch) k); [lia|].
    rewrite (exec_from_Some_scan _ _ _ _ _ e (line_start patch next)).
    rewrite skipn_skipn.
    replace (next - k + k) with next by lia.
    rewrite <- split_loop_equation_1, IH by lia.
    destruct last as [l|]; cbn [cuts_of app pieces].
    + rewrite <- app_assoc. reflexivity.
    + reflexivity.
  - unfold exec in e. destruct (Nat.ltb_spec (length patch) k); [lia|].
    rewrite (exec_from_None_scan _ _ _ e), app_nil_r.
    destruct last; cbn [cuts_of pieces]; [|rewrite app_nil_r]; reflexivity.
Qed.

Lemma splitPatch_pieces (patch : list N) :
  splitPatch (Some patch) = pieces patch (header_positions patch).
Proof.
  unfold splitPatch. rewrite header_positions_scan.
  apply (split_loop_spec patch (S (length patch))); lia.
Qed.

Lemma pieces_length (patch : list N) (cuts : list nat) :
  length (pieces patch cuts) = length cuts.
Proof.
  induction cuts as [|a [|b rest] IH]; try reflexivity.
  cbn [pieces length] in *. rewrite IH. reflexivity.
Qed.

Lemma pieces_from (patch : list N) (front : list nat) (i : nat)
    (rest : list nat) :
  exists hunks,
    pieces patch (front ++ i :: rest) = hunks ++ pieces patch (i :: rest).
Proof.
  induction front as [|a front (hunks & IH)].
  - exists []. reflexivity.
  - cbn [app pieces]. destruct (front ++ i :: rest) as [|b more] eqn:E.
    + destruct front; discriminate.
    + exists (substring patch a b :: hunks). rewrite IH. reflexivity.
Qed.

Lemma split_nl_one_line (h : list N) : one_line h -> split_nl h = [h].
Proof.
  unfold one_line. induction h as [|c h IH]; [reflexivity|].
  cbn [forallb split_nl]. intros H. apply andb_true_iff in H as [Hc Hh].
  rewrite (IH Hh). unfold char_eqb, nl.
  destruct (N.eqb_spec c 10) as [->|_]; [discriminate|reflexivity].
Qed.

(** Behind the first character of a line no line starts before its end. *)
Lemma one_line_not_line_start (pre h post : list N) (j : nat) :
  one_line h -> length pre < j ->
  line_start (pre ++ h ++ post) j = true -> length pre + length h < j.
Proof.
  unfold one_line. intros Hh Hj Hs.
  destruct j as [|k]; [lia|]. cbn [line_start] in Hs.
  destruct (nth_error (pre ++ h ++ post) k) as [c|] eqn:E; [|discriminate].
  destruct (Nat.lt_ge_cases k (length pre + length h)) as [Hk|Hk]; [|lia].
  exfalso. rewrite nth_error_app2, nth_error_app1 in E by lia.
  apply nth_error_In in E. rewrite forallb_forall in Hh.
  apply Hh in E. rewrite Hs in E. discriminate.
Qed.

Lemma filter_none {A} (f : A -> bool) (l : list A) :
  (forall x, In x l -> f x = false) -> filter f l = [].
Proof.
  induction l as [|x l IH]; [reflexivity|]. intros H. cbn [filter].
  rewrite (H x (or_introl eq_refl)). apply IH.
  intros y Hy. apply H. right. exact Hy.
Qed.

Lemma header_at_lt (patch : list N) (i : nat) :
  header_at patch i = true -> i < length patch.
Proof.
  unfold header_at. intros H. apply andb_true_iff in H as [_ H].
  destruct (Nat.lt_ge_cases i (length patch)) as [Hi|Hi]; [exact Hi|].
  rewrite skipn_all2 in H by exact Hi. discriminate.
Qed.

(** The header positions around one of them. *)
Lemma header_positions_at (patch : list N) (i : nat) :
  header_at patch i = true ->
  header_positions patch
  = filter (header_at patch) (seq 0 i)
    ++ i :: filter (header_at patch) (seq (S i) (length patch - S i)).
Proof.
  intros Hat. pose proof (header_at_lt patch i Hat) as Hi.
  unfold header_positions.
  replace (length patch) with (i + S (length patch - S i)) at 1 by lia.
  rewrite seq_app, filter_app. cbn [Nat.add seq filter]. rewrite Hat.
  reflexivity.
Qed.

(** A header line that nothing follows but, at most, the newline that ends
    it: the last header position. *)
Lemma header_positions_last (pre h post : list N) :
  header_at (pre ++ h ++ post) (length pre) = true -> one_line h ->
  length post <= 1 ->
  exists cuts, header_positions (pre ++ h ++ post) = cuts ++ [length pre].
Proof.
  intros Hat Hh Hpost. rewrite (header_positions_at _ _ Hat).
  eexists. f_equal. f_equal. apply filter_none.
  intros j Hj. apply in_seq in Hj. rewrite !length_app in Hj.
  unfold header_at. apply not_true_iff_false. intros Hs.
  apply andb_true_iff in Hs as [Hs _].
  apply one_line_not_line_start in Hs; [lia | exact Hh | lia].
Qed.

(** A header line right before another one: two header positions in a
    row. *)
Lemma header_positions_next (pre h post : list N) :
  header_at (pre ++ h ++ post) (length pre) = true -> one_line h ->
  header_at (pre ++ h ++ post) (length pre + length h + 1) = true ->
  exists front rest,
    header_positions (pre ++ h ++ post)
    = front ++ length pre :: (length pre + length h + 1) :: rest.
Proof.
  intros Hat Hh Hnext. rewrite (header_positions_at _ _ Hat).
  pose proof (header_at_lt _ _ Hnext) as Hlt.
  set (patch := pre ++ h ++ post) in *.
  eexists _, (filter (header_at patch)
                (seq (S (length pre + length h + 1))
                   (length patch - S (length pre + length h + 1)))).
  f_equal. f_equal.
  replace (length patch - S (length pre))
    with (length h + S (length patch - S (length pre + length h + 1)))
    by lia.
  rewrite seq_app, filter_app.
  replace (S (length pre) + length h) with (length pre + length h + 1)
    by lia.
  cbn [seq filter]. rewrite Hnext.
  rewrite filter_none; [reflexivity|].
  intros j Hj. apply in_seq in Hj.
  unfold header_at. apply not_true_iff_false. intros Hs.
  apply andb_true_iff in Hs as [Hs _]. unfold patch in Hs.
  apply one_line_not_line_start in Hs; [lia | exact Hh | lia].
Qed.

Lemma body_lines_header_only (h : list N) (post : list N) :
  one_line h -> post = [] \/ (exists post', post = nl :: post') ->
  body_lines (h ++ firstn 1 post) = [].
Proof.
  intros Hh [->|(post' & ->)]; unfold body_lines; cbn [firstn].
  - rewrite app_nil_r, (split_nl_one_line _ Hh). reflexivity.
  - assert (E : split_nl (h ++ [nl]) = [h; []]).
    { clear -Hh. unfold one_line in Hh.
      induction h as [|c h IH]; [reflexivity|].
      cbn [forallb] in Hh. apply andb_true_iff in Hh as [Hc Hh].
      cbn [app split_nl]. rewrite (IH Hh). unfold char_eqb, nl.
      destruct (N.eqb_spec c 10) as [->|_]; [discriminate|reflexivity]. }
    rewrite E. reflexivity.
Qed.

(** C8.  [splitPatch] returns one raw hunk per hunk-header line of the
    diff text: the text cut at the starts of those lines, from the first
    of them on.  A text without a header line, and no text at all, give
    the empty array.  A header line with no body line behind it, because
    the text ends with it or the next line is a header line again, still
    gives a hunk: the header line alone, with the newline that ends it if
    there is one, and with no body line for [parsePatch] to walk.  The
    function is total: no input makes it throw. *)
Theorem splitPatch_one_hunk_per_header_line (patch : list N) :
  splitPatch None = []
  /\ splitPatch (Some patch) = pieces patch (header_positions patch)
  /\ length (splitPatch (Some patch)) = length (header_positions patch)
  /\ (header_positions patch = [] -> splitPatch (Some patch) = [])
  /\ (forall pre h post,
        patch = pre ++ h ++ post ->
        header_at patch (length pre) = true -> one_line h ->
        post = [] \/ post = [nl]
        \/ (exists post',
              post = nl :: post'
              /\ header_at patch (length pre + length h + 1) = true) ->
        In (h ++ firstn 1 post) (splitPatch (Some patch))
        /\ body_lines (h ++ firstn 1 post) = []).
Proof.
  split; [reflexivity|]. split; [apply splitPatch_pieces|].
  split; [rewrite splitPatch_pieces; apply pieces_length|].
  split; [intros E; rewrite splitPatch_pieces, E; reflexivity|].
  intros pre h post -> Hat Hh Hpost.
  split.
  2:{ apply body_lines_header_only; [exact Hh|].
      destruct Hpost as [->|[->|(post' & -> & _)]];
        [left; reflexivity | right; eexists; reflexivity
        | right; eexists; reflexivity]. }
  rewrite splitPatch_pieces.
  assert (Hskip : skipn (length pre) (pre ++ h ++ post) = h ++ post)
    by (rewrite skipn_app, skipn_all, Nat.sub_diag; reflexivity).
  destruct Hpost as [Hp|[Hp|(post' & Hp & Hnext)]].
  - destruct (header_positions_last pre h post Hat Hh) as (cuts & E);
      [subst post; cbn; lia|].
    destruct (pieces_from (pre ++ h ++ post) cuts (length pre) [])
      as (hunks & Ep).
    rewrite E, Ep. apply in_or_app. right. cbn [pieces]. left.
    rewrite Hskip. subst post. reflexivity.
  - destruct (header_positions_last pre h post Hat Hh) as (cuts & E);
      [subst post; cbn; lia|].
    destruct (pieces_from (pre ++ h ++ post) cuts (length pre) [])
      as (hunks & Ep).
    rewrite E, Ep. apply in_or_app. right. cbn [pieces]. left.
    rewrite Hskip. subst post. reflexivity.
  - destruct (header_positions_next pre h post Hat Hh Hnext)
      as (front & rest & E).
    destruct (pieces_from (pre ++ h ++ post) front (length pre)
                ((length pre + length h + 1) :: rest)) as (hunks & Ep).
    rewrite E, Ep. apply in_or_app. right. cbn [pieces]. left.
    unfold substring. rewrite Hskip. subst post.
    replace (length pre + length h + 1 - length pre) with (length h + 1)
      by lia.
    rewrite firstn_app, firstn_all2 by lia.
    replace (length h + 1 - length h) with 1 by lia. reflexivity.
Qed.

(** Two header lines in a row: each gives a hunk without a body line. *)
Lemma splitPatch_one_hunk_per_header_line_witness :
  In (lit "@@ -1,1 +1,1 @@" ++ [nl]) (splitPatch (Some two_headers))
  /\ body_lines (lit "@@ -1,1 +1,1 @@" ++ [nl]) = []
  /\ In (lit "@@ -9,1 +9,1 @@") (splitPatch (Some two_headers))
  /\ body_lines (lit "@@ -9,1 +9,1 @@") = [].
Proof.
  destruct (splitPatch_one_hunk_per_header_line two_headers)
    as (_ & _ & _ & _ & H).
  destruct (H (lit "diff" ++ [nl]) (lit "@@ -1,1 +1,1 @@")
              ([nl] ++ lit "@@ -9,1 +9,1 @@")) as [H1 H2];
    [reflexivity | reflexivity | reflexivity
    | right; right; eexists; split; reflexivity |].
  destruct (H (lit "diff" ++ [nl] ++ lit "@@ -1,1 +1,1 @@" ++ [nl])
              (lit "@@ -9,1 +9,1 @@") []) as [H3 H4];
    [reflexivity | reflexivity | reflexivity | left; reflexivity |].
  rewrite app_nil_r in H3, H4.
  repeat split; assumption.
Defined.

End DiffFacts.

(* ===================================================================== *)
(** ** HunkAnnotator *)
(* ===================================================================== *)

Module AnnotateFacts.

Import Diff DiffSpec DiffFacts.

Lemma startsWith_char (line : list N) (x : N) :
  startsWith line [x] = true <-> exists t, line = x :: t.
Proof.
  destruct line as [|c t]; cbn.
  - split; [discriminate | intros (t & E); discriminate].
  - unfold startsWith. cbn. unfold char_eqb.
    destruct (N.eqb_spec x c) as [->|Hne].
    + split; [exists t; reflexivity | reflexivity].
    + split; [discriminate | intros (t' & [= <- _]); contradiction].
Qed.

Lemma removed_not_added (line : list N) :
  is_removed line = true -> is_added line = false.
Proof.
  unfold is_removed, is_added. intros H.
  apply (startsWith_char line 45) in H as (t & ->). reflexivity.
Qed.

Section Loop.

Variables (removalOnly : bool) (len : Z).

Let step := annotate_line removalOnly len.

(** What one line adds to the two arrays. *)
Lemma annotate_line_new (a : acc) (line : list N) :
  newHunkLines (step a line)
  = newHunkLines a
    ++ (if is_removed line then []
        else if is_added line then [numbered (newLine a) (skipn 1 line)]
        else [if removalOnly
                 || ((currentLine a + 1 >? skipStart)%Z
                     && (currentLine a + 1 <=? len - skipEnd)%Z)
              then numbered (newLine a) line else line]).
Proof.
  unfold step, annotate_line, is_removed, is_added.
  destruct (startsWith line (lit "-")); cbn [newHunkLines];
    [rewrite app_nil_r; reflexivity|].
  destruct (startsWith line (lit "+")); reflexivity.
Qed.

Lemma annotate_line_old (a : acc) (line : list N) :
  oldHunkLines (step a line)
  = oldHunkLines a ++ (if is_added line then [] else [old_text line]).
Proof.
  unfold step, annotate_line, old_text, is_removed, is_added.
  pose proof (removed_not_added line) as Hra.
  unfold is_removed, is_added in Hra.
  destruct (startsWith line (lit "-")) eqn:E1; cbn [oldHunkLines].
  - rewrite (Hra eq_refl). reflexivity.
  - destruct (startsWith line (lit "+")); cbn [oldHunkLines];
      [rewrite app_nil_r|]; reflexivity.
Qed.

Lemma annotate_line_counters (a : acc) (line : list N) :
  currentLine (step a line) = (currentLine a + 1)%Z
  /\ newLine (step a line)
     = (newLine a + (if is_removed line then 0 else 1))%Z.
Proof.
  unfold step, annotate_line, is_removed.
  destruct (startsWith line (lit "-")); cbn [currentLine newLine];
    [split; lia|].
  destruct (startsWith line (lit "+")); cbn [currentLine newLine];
    split; lia.
Qed.

(** The state of the loop after the lines [pre]. *)
Lemma fold_counters (pre : list (list N)) (a : acc) :
  let a' := fold_left step pre a in
  currentLine a' = (currentLine a + Z.of_nat (length pre))%Z
  /\ newLine a' = (newLine a + Z.of_nat (length (new_lines pre)))%Z
  /\ length (newHunkLines a')
     = length (newHunkLines a) + length (new_lines pre)
  /\ length (oldHunkLines a')
     = length (oldHunkLines a) + length (old_lines pre)
  /\ oldHunkLines a'
     = oldHunkLines a ++ map old_text (old_lines pre).
Proof.
  revert a; induction pre as [|line pre IH]; intros a; cbn zeta.
  - cbn. rewrite !Z.add_0_r, !Nat.add_0_r, app_nil_r. repeat split.
  - cbn [fold_left]. specialize (IH (step a line)). cbn zeta in IH.
    destruct IH as (Hc & Hn & Hl & Ho & Hold).
    destruct (annotate_line_counters a line) as [Hc1 Hn1].
    rewrite Hc, Hn, Hl, Ho, Hold, Hc1, Hn1.
    rewrite annotate_line_new, annotate_line_old, !length_app.
    unfold new_lines, old_lines. cbn [filter length].
    destruct (is_removed line), (is_added line);
      cbn [negb length map app]; rewrite <- ?app_assoc;
      repeat split; cbn [app length]; lia.
Qed.

(** The loop only appends. *)
Lemma fold_new_prefix (post : list (list N)) (a : acc) :
  exists more, newHunkLines (fold_left step post a)
               = newHunkLines a ++ more.
Proof.
  revert a; induction post as [|line post IH]; intros a.
  - exists []. cbn. rewrite app_nil_r. reflexivity.
  - cbn [fold_left]. destruct (IH (step a line)) as (more & ->).
    rewrite annotate_line_new, <- app_assoc. eexists; reflexivity.
Qed.

End Loop.



Lemma parsePatch_annotate (patch : list N) (info : HunkInfo) :
  patchStartEndLine patch = Some info ->
  parsePatch patch
  = Some (let a := annotate (startLine (newHunk info)) (body_lines patch) in
          mkHunks (join_nl (oldHunkLines a)) (join_nl (newHunkLines a))).
Proof. unfold parsePatch. intros ->. reflexivity. Qed.

(** The entry of the new view for a new-file line, found at the index
    that counts the new-file lines before it. *)
Lemma new_entry_at (start : Z) (pre post : list (list N)) (line : list N) :
  is_removed line = false ->
  let lines := pre ++ line :: post in
  let k := length (new_lines pre) in
  nth_error (newHunkLines (annotate start lines)) k
  = Some (if is_added line
          then numbered (start + Z.of_nat k) (skipn 1 line)
          else if negb (existsb (fun l => startsWith l (lit "+")) lines)
                  || ((Z.of_nat (length pre) + 1 >? skipStart)%Z
                      && (Z.of_nat (length pre) + 1
                          <=? Z.of_nat (length lines) - skipEnd)%Z)
               then numbered (start + Z.of_nat k) line
               else line).
Proof.
  intros Hrem lines k. unfold annotate.
  set (ro := negb (existsb (fun l => startsWith l (lit "+")) lines)).
  set (len := Z.of_nat (length lines)).
  set (step := annotate_line ro len).
  set (a0 := mkAcc 0 start [] []).
  unfold lines at 1. rewrite fold_left_app. cbn [fold_left].
  set (a1 := fold_left step pre a0).
  destruct (fold_counters ro len pre a0) as (Hc & Hn & Hl & _).
  fold step a1 in Hc, Hn, Hl.
  cbn [a0 currentLine newLine newHunkLines length] in Hc, Hn, Hl.
  destruct (fold_new_prefix ro len post (step a1 line)) as (more & Hmore).
  fold step in Hmore. rewrite Hmore.
  unfold step at 1. rewrite annotate_line_new.
  rewrite Hrem, Hc, Hn, <- app_assoc, nth_error_app2 by (fold k; lia).
  fold k. rewrite Hl, Nat.sub_diag.
  destruct (is_added line); reflexivity.
Qed.


(** *** Lines of a well-formed hunk *)

Lemma split_nl_cons (s : list N) : exists l ls, split_nl s = l :: ls.
Proof.
  induction s as [|c s (l & ls & IH)]; cbn [split_nl].
  - eexists _, _; reflexivity.
  - destruct (char_eqb c nl); [eexists _, _; reflexivity|].
    rewrite IH. eexists _, _; reflexivity.
Qed.

Lemma split_nl_app (l s : list N) :
  ~ In nl l -> split_nl (l ++ nl :: s) = l :: split_nl s.
Proof.
  induction l as [|c l IH]; intros Hl; cbn [app split_nl].
  - reflexivity.
  - unfold char_eqb. destruct (N.eqb_spec c nl) as [->|_].
    + exfalso. apply Hl. left. reflexivity.
    + rewrite IH; [reflexivity|]. intros H. apply Hl. right. exact H.
Qed.

Lemma split_nl_line (l : list N) : ~ In nl l -> split_nl l = [l].
Proof.
  induction l as [|c l IH]; intros Hl; cbn [split_nl]; [reflexivity|].
  unfold char_eqb. destruct (N.eqb_spec c nl) as [->|_].
  - exfalso. apply Hl. left. reflexivity.
  - rewrite IH; [reflexivity|]. intros H. apply Hl. right. exact H.
Qed.

Lemma split_nl_join (ls : list (list N)) (fin : list N) :
  Forall (fun l => ~ In nl l) ls -> ls <> [] ->
  split_nl (join_nl ls ++ nl :: fin) = ls ++ split_nl fin
  /\ split_nl (join_nl ls) = ls.
Proof.
  induction ls as [|l ls IH]; intros Hall Hne; [contradiction|].
  inversion Hall as [|? ? Hl Hls]; subst.
  destruct ls as [|l' ls'].
  - cbn [join_nl app]. split; [apply split_nl_app | apply split_nl_line];
      exact Hl.
  - destruct (IH Hls ltac:(discriminate)) as [IH1 IH2].
    change (join_nl (l :: l' :: ls')) with (l ++ nl :: join_nl (l' :: ls')).
    rewrite <- app_assoc. cbn [app].
    rewrite (split_nl_app l _ Hl), IH1.
    rewrite (split_nl_app l _ Hl), IH2. split; reflexivity.
Qed.




Lemma header_search_here (s r : list N)
    (caps : list N * list N * list N * list N) :
  hunk_header s = Some (caps, r) -> header_search true s = Some caps.
Proof.
  intros H. destruct s; [discriminate H|].
  cbn [header_search]. rewrite H. reflexivity.
Qed.



Lemma nth_error_filter_split {A} (f : A -> bool) (l : list A) (k : nat)
    (x : A) :
  nth_error (filter f l) k = Some x ->
  exists pre post, l = pre ++ x :: post /\ length (filter f pre) = k
                   /\ f x = true.
Proof.
  revert k; induction l as [|y l IH]; intros k; cbn [filter].
  - destruct k; discriminate.
  - destruct (f y) eqn:Fy.
    + destruct k as [|k]; cbn [nth_error].
      * intros [= ->]. exists [], l. repeat split. exact Fy.
      * intros H. destruct (IH _ H) as (pre & post & -> & Hk & Fx).
        exists (y :: pre), post. cbn [filter]. rewrite Fy.
        cbn [length app]. repeat split; [lia | exact Fx].
    + intros H. destruct (IH _ H) as (pre & post & -> & Hk & Fx).
      exists (y :: pre), post. cbn [filter]. rewrite Fy.
      repeat split; assumption.
Qed.







(** *** The units of a file *)

Lemma parseInt_nonneg (d : list N) :
  forallb is_digit d = true -> (0 <= parseInt d)%Z.
Proof.
  unfold parseInt. intros H.
  assert (G : forall acc, (0 <= acc)%Z ->
                (0 <= fold_left (fun a c => 10 * a + digit_val c) d acc)%Z).
  { induction d as [|c d IH]; intros acc Hacc; [exact Hacc|].
    cbn [forallb fold_left] in *. apply andb_true_iff in H as [Hc Hd].
    apply IH; [exact Hd|].
    unfold is_digit in Hc. apply andb_true_iff in Hc as [H1 _].
    apply N.leb_le in H1. unfold digit_val. lia. }
  apply G. lia.
Qed.

Lemma header_search_digits (s : list N) (bol : bool) (a b c d : list N) :
  header_search bol s = Some (a, b, c, d) ->
  digits a /\ digits b /\ digits c /\ digits d.
Proof.
  revert bol; induction s as [|x s IH]; intros bol; cbn [header_search].
  - destruct bol; cbn; discriminate.
  - destruct (if bol then hunk_header (x :: s) else None)
      as [[caps r]|] eqn:E.
    + destruct bol; [|discriminate]. intros [= ->].
      apply hunk_header_spec in E. apply E.
    + apply IH.
Qed.

(** The range [patchStartEndLine] reads from a header starts at a line
    number that is not negative and holds as many lines as the header
    says, none when that count is 0. *)
Lemma patchStartEndLine_range (patch : list N) (info : HunkInfo) :
  patchStartEndLine patch = Some info ->
  (0 <= startLine (newHunk info)
   /\ startLine (newHunk info) - 1 <= endLine (newHunk info))%Z.
Proof.
  unfold patchStartEndLine.
  destruct (header_search true patch) as [[[[a b] c] d]|] eqn:E;
    [|discriminate].
  apply header_search_digits in E as (_ & _ & [_ Hc] & [_ Hd]).
  intros [= <-]. cbn [newHunk startLine endLine].
  pose proof (parseInt_nonneg c Hc). pose proof (parseInt_nonneg d Hd). lia.
Qed.

(** Every unit [codeReview] builds from a diff is a known unit. *)
Lemma file_patches_known (patch : option (list N)) :
  Forall ReviewSpec.known_unit (file_patches patch).
Proof.
  apply Forall_forall. intros p Hp. unfold file_patches in Hp.
  apply in_flat_map in Hp as (hunk & _ & Hp).
  destruct (patchStartEndLine hunk) as [info|] eqn:E; [|contradiction].
  destruct (parsePatch hunk); [|contradiction].
  destruct Hp as [<-|[]]. unfold ReviewSpec.known_unit, ReviewSpec.pStart.
  cbn [fst]. apply (patchStartEndLine_range hunk info E).
Qed.

End AnnotateFacts.


(* ===================================================================== *)
(** ** RequestPacker *)
(* ===================================================================== *)

Module PackFacts.

Import Pack PackSpec.

Section Packing.

Variable getTokenCount : list N -> N.
Variable requestTokens : Z.
Variable getCommentChainsWithinRange : Z -> Z -> outcome (list N).

Local Abbreviation cost := (PackSpec.cost getTokenCount).
Local Abbreviation total := (PackSpec.total getTokenCount).
Local Abbreviation kept_chain :=
  (PackSpec.kept_chain getCommentChainsWithinRange).

Lemma total_cons (p : Review.Patch) (ps : list Review.Patch) :
  total (p :: ps) = (Z.of_N (getTokenCount (snd p)) + total ps)%Z.
Proof. reflexivity. Qed.

Lemma total_nonneg (ps : list Review.Patch) : (0 <= total ps)%Z.
Proof.
  induction ps as [|p ps IH]; [cbn; lia|]. rewrite total_cons. lia.
Qed.

Lemma total_firstn_mono (ps : list Review.Patch) (j k : nat) :
  j <= k -> (total (firstn j ps) <= total (firstn k ps))%Z.
Proof.
  revert j k; induction ps as [|p ps IH]; intros j k Hjk.
  - rewrite !firstn_nil. lia.
  - destruct j as [|j]; [cbn [firstn]; apply total_nonneg|].
    destruct k as [|k]; [lia|]. cbn [firstn]. rewrite !total_cons.
    specialize (IH j k ltac:(lia)). lia.
Qed.

(** The first loop counts the longest prefix that fits; [t] is the running
    total on entry and [k] the count so far. *)
Lemma count_loop_spec (ps : list Review.Patch) (t : Z) (k : nat) :
  exists m,
    count_loop getTokenCount requestTokens t k ps
    = ((t + total (firstn m ps))%Z, k + m)
    /\ m <= length ps
    /\ (forall j, 0 < j <= m -> (t + total (firstn j ps) <= requestTokens)%Z)
    /\ (m < length ps ->
        (t + total (firstn (S m) ps) > requestTokens)%Z).
Proof.
  revert t k; induction ps as [|[[s e] patch] ps IH]; intros t k.
  - exists 0. cbn. rewrite Z.add_0_r, Nat.add_0_r.
    repeat split; intros; lia.
  - cbn [count_loop].
    destruct (t + Z.of_N (getTokenCount patch) >? requestTokens)%Z eqn:E.
    + exists 0. cbn [firstn length]. rewrite total_cons.
      cbn [firstn snd PackSpec.total fold_right].
      rewrite Z.add_0_r, Nat.add_0_r.
      repeat split; try lia.
    + destruct (IH (t + Z.of_N (getTokenCount patch))%Z (S k))
        as (m & Hc & Hm & Hin & Hout).
      exists (S m). rewrite Hc. cbn [length].
      rewrite !firstn_cons, !total_cons. cbn [snd].
      repeat split.
      * f_equal; lia.
      * lia.
      * intros [|j] Hj; [lia|]. rewrite firstn_cons, total_cons. cbn [snd].
        destruct j as [|j]; [cbn; lia|].
        specialize (Hin (S j) ltac:(lia)). lia.
      * intros Hlt. specialize (Hout ltac:(lia)). lia.
Qed.

(** A change section is the unit as the request is to hold it. *)
Lemma change_section_packed (p : Review.Patch) (chain : list N) :
  change_section (snd p) chain = packed_unit p chain.
Proof. destruct chain; reflexivity. Qed.

(** The second loop takes the first [n - j] units as whole sections. *)
Lemma pack_loop_spec (n : nat) (ps : list Review.Patch) (st : packing) :
  patchesPacked st <= n ->
  let r := pack_loop getTokenCount requestTokens getCommentChainsWithinRange
             n st ps in
  let m := Nat.min (n - patchesPacked st) (length ps) in
  patchesPacked r = patchesPacked st + m
  /\ exists chains,
       length chains = m
       /\ Forall2 kept_chain (firstn m ps) chains
       /\ insPatches r = insPatches st ++ sections (firstn m ps) chains.
Proof.
  revert st; induction ps as [|[[s e] patch] ps IH]; intros st Hst; cbn zeta.
  - rewrite Nat.min_0_r, Nat.add_0_r. split; [reflexivity|].
    exists []. cbn. rewrite app_nil_r. repeat split. constructor.
  - cbn [pack_loop length].
    destruct (Nat.leb_spec n (patchesPacked st)) as [Hle|Hlt].
    + replace (n - patchesPacked st) with 0 by lia. cbn [Nat.min].
      rewrite Nat.add_0_r. split; [reflexivity|].
      exists []. cbn. rewrite app_nil_r. repeat split. constructor.
    + match goal with
      | |- context [pack_loop _ _ _ n ?st' ps] =>
          destruct (IH st') as (Hp & chains & Hlen & Hkept & Hins);
          [cbn [patchesPacked]; lia|]
      end.
      cbn [patchesPacked insPatches] in Hp, Hlen, Hkept, Hins.
      replace (Nat.min (n - patchesPacked st) (S (length ps)))
        with (S (Nat.min (n - S (patchesPacked st)) (length ps))) by lia.
      split; [rewrite Hp; lia|].
      eexists (_ :: chains).
      split; [cbn [length]; rewrite Hlen; reflexivity|].
      refine ((fun H => conj (proj2 H) (proj1 H)) _). split.
      * rewrite Hins, <- app_assoc. cbn [firstn sections combine map concat].
        rewrite <- (change_section_packed (s, e, patch)). reflexivity.
      * cbn [firstn]. constructor; [|exact Hkept].
        unfold kept_chain. cbn [fst snd].
        destruct (getCommentChainsWithinRange s e) as [allChains|err];
          match goal with
          | |- context [if ?fits then _ else _] => destruct fits
          end; auto.
Qed.

Lemma cost_le_total (ps : list Review.Patch) (p : Review.Patch) :
  In p ps -> (cost p <= total ps)%Z.
Proof.
  induction ps as [|q ps IH]; [contradiction|]. rewrite total_cons.
  intros [->|Hin].
  - pose proof (total_nonneg ps). unfold PackSpec.cost. lia.
  - specialize (IH Hin). lia.
Qed.

Lemma total_firstn_S (ps : list Review.Patch) (n : nat) (p : Review.Patch) :
  nth_error ps n = Some p ->
  total (firstn (S n) ps) = (total (firstn n ps) + cost p)%Z.
Proof.
  revert n; induction ps as [|q ps IH]; intros [|n]; try discriminate.
  - intros [= ->]. cbn. unfold PackSpec.cost. lia.
  - cbn [nth_error]. intros H. rewrite !firstn_cons, !total_cons.
    rewrite (IH _ H). lia.
Qed.

(** C5.  With no tokens spent before the units, [doReview] packs exactly
    the longest prefix of the units whose cumulative token cost stays within
    the budget: every non-empty prefix up to the packed count fits, every
    longer prefix does not, the count stops right before the first unit
    that would push the running total over the budget, and no packed unit
    costs more than the budget by itself.  The text handed to the model
    is the text it had before, followed by the packed units and nothing
    else, in their original order: each unit's text whole, between two
    newlines, then the block of the comment chain kept for it, which is
    none or the one the commenter gave for the range of the unit, then
    the delimiter that ends the unit. *)
Theorem pack_longest_prefix (insPatches0 : list N)
    (patches : list Review.Patch) :
  let r := pack getTokenCount requestTokens getCommentChainsWithinRange
             0 insPatches0 patches in
  let n := patchesPacked r in
  n <= length patches
  /\ (forall k, 0 < k <= n -> within getTokenCount requestTokens patches k)
  /\ (forall k, n < k <= length patches ->
                ~ within getTokenCount requestTokens patches k)
  /\ (forall p, nth_error patches n = Some p ->
                (total (firstn n patches) + cost p > requestTokens)%Z)
  /\ (forall p, In p (firstn n patches) -> (cost p <= requestTokens)%Z)
  /\ exists chains,
       length chains = n
       /\ Forall2 kept_chain (firstn n patches) chains
       /\ insPatches r = insPatches0 ++ sections (firstn n patches) chains.
Proof.
  cbn zeta. unfold pack.
  destruct (count_loop_spec patches 0 0) as (m & Hc & Hm & Hin & Hout).
  rewrite Hc. cbn [Nat.add].
  destruct (pack_loop_spec m patches
              (mkPacking (0 + total (firstn m patches)) 0 insPatches0)
              ltac:(cbn; lia)) as (Hp & chains & Hlen & Hkept & Hins).
  cbn [patchesPacked insPatches Nat.add] in Hp, Hlen, Hkept, Hins.
  rewrite Nat.sub_0_r, Nat.min_l in Hp, Hlen, Hkept, Hins by exact Hm.
  rewrite Hp.
  assert (Hk : forall k, 0 < k <= m ->
                         within getTokenCount requestTokens patches k).
  { intros k Hk0. unfold within. specialize (Hin k Hk0). lia. }
  split; [exact Hm|]. split; [exact Hk|].
  split.
  { intros k Hk0 Hw. unfold within in Hw.
    pose proof (total_firstn_mono patches (S m) k ltac:(lia)).
    specialize (Hout ltac:(lia)). lia. }
  split.
  { intros p Hp'. rewrite <- (total_firstn_S _ _ _ Hp').
    assert (m < length patches)
      by (apply nth_error_Some; rewrite Hp'; discriminate).
    specialize (Hout ltac:(lia)). lia. }
  split.
  { intros p Hp'. destruct m as [|m']; [contradiction|].
    apply cost_le_total in Hp'.
    specialize (Hk (S m') ltac:(lia)). unfold within in Hk. lia. }
  exists chains. split; [exact Hlen|]. split; [exact Hkept | exact Hins].
Qed.

End Packing.

(** Of three units of 4, 5 and 3 tokens, a budget of 10 takes the first
    two: their texts stand in the request, whole and in order, and the
    third does not. *)
Lemma pack_longest_prefix_witness :
  patchesPacked
    (pack char_count 10 (fun _ _ => Returns []) 0 [] three_units) = 2
  /\ ~ within char_count 10 three_units 3
  /\ insPatches
       (pack char_count 10 (fun _ _ => Returns []) 0 [] three_units)
     = join_nl (map lit [""; "aaaa"; ""; "---end_change_section---";
                         ""; "bbbbb"; ""; "---end_change_section---";
                         ""]%string).
Proof.
  destruct (pack_longest_prefix char_count 10 (fun _ _ => Returns []) []
              three_units)
    as (_ & _ & Hlong & _ & _ & chains & Hlen & Hkept & Hins).
  split; [reflexivity|].
  split; [apply Hlong; vm_compute; split; constructor|].
  rewrite Hins. cbn [app].
  change (patchesPacked
            (pack char_count 10 (fun _ _ => Returns []) 0 [] three_units))
    with 2 in Hkept.
  cbn [firstn three_units] in Hkept.
  inversion Hkept as [|p1 c1 ps1 cs1 H1 Hrest]; subst.
  inversion Hrest as [|p2 c2 ps2 cs2 H2 Hnil]; subst.
  inversion Hnil; subst.
  assert (E1 : c1 = []) by (destruct H1 as [E|E]; congruence).
  assert (E2 : c2 = []) by (destruct H2 as [E|E]; congruence).
  subst c1 c2. reflexivity.
Defined.

End PackFacts.


(* ===================================================================== *)
(** ** ResponseReconciler: validation and remapping of one comment *)
(* ===================================================================== *)

Module RemapFacts.

Import Review ReviewSpec.

Section Candidate.

(** The candidate comment under validation. *)
Variable review : Review.

Let s := startLine review.
Let e := endLine review.
Let len := (e - s + 1)%Z.

Lemma overlap_le_len (p : Patch) :
  (0 < overlap s e p -> overlap s e p <= len)%Z.
Proof. unfold overlap, len. lia. Qed.

Lemma inside_overlap (p : Patch) :
  (s <= e)%Z -> inside s e p -> (0 < overlap s e p /\ overlap s e p = len)%Z.
Proof. unfold inside, overlap, len. lia. Qed.

Lemma overlap_inside (p : Patch) :
  (0 < overlap s e p)%Z -> overlap s e p = len ->
  (s <= e)%Z /\ inside s e p.
Proof. unfold inside, overlap, len. lia. Qed.

(** The state of the loop of [storeReview] after the units [seen], none of
    which holds the candidate. *)
Record searching (seen : list Patch) (b : best) : Prop := {
  srch_within : withinPatch b = false;
  srch_nonneg : (0 <= maxIntersection b)%Z;
  srch_max : forall q, In q seen -> (overlap s e q <= maxIntersection b)%Z;
  srch_none :
    forall q, In q seen -> ~ (0 < overlap s e q /\ overlap s e q = len)%Z;
  srch_best :
    (maxIntersection b = 0%Z
     /\ bestPatchStartLine b = (-1)%Z /\ bestPatchEndLine b = (-1)%Z)
    \/ (0 < maxIntersection b)%Z
       /\ exists p, In p seen /\ overlap s e p = maxIntersection b
                    /\ bestPatchStartLine b = pStart p
                    /\ bestPatchEndLine b = pEnd p
}.

Lemma searching_best0 : searching [] best0.
Proof.
  constructor; cbn; try reflexivity; try lia; try contradiction.
Qed.

(** The loop stops at the first unit that holds the candidate, or runs
    through all units. *)
Lemma overlap_loop_spec (rest seen : list Patch) (b : best) :
  searching seen b ->
  let r := overlap_loop review rest b in
  (withinPatch r = true
   /\ exists p, In p (seen ++ rest)
                /\ (0 < overlap s e p)%Z /\ overlap s e p = len)
  \/ searching (seen ++ rest) r.
Proof.
  revert seen b; induction rest as [|[[ps pe] txt] rest IH];
    intros seen b Hb; cbn zeta.
  - right. rewrite app_nil_r. exact Hb.
  - cbn [overlap_loop]. fold s e.
    change (Z.max 0 (Z.min e pe - Z.max s ps + 1))
      with (overlap s e (ps, pe, txt)).
    set (p := (ps, pe, txt)). set (il := overlap s e p).
    assert (Eapp : seen ++ p :: rest = (seen ++ [p]) ++ rest)
      by (rewrite <- app_assoc; reflexivity).
    destruct Hb as [Hw Hnn Hmax Hnone Hbest].
    destruct (il >? maxIntersection b)%Z eqn:Egt.
    + apply Z.gtb_lt in Egt. cbn [withinPatch].
      fold len. destruct (il =? len)%Z eqn:Elen.
      * apply Z.eqb_eq in Elen. left. cbn [withinPatch]. split; [reflexivity|].
        exists p. split; [apply in_or_app; right; left; reflexivity|].
        fold il. lia.
      * apply Z.eqb_neq in Elen. cbn [withinPatch].
        rewrite Eapp. apply IH. constructor; cbn [withinPatch maxIntersection
                                    bestPatchStartLine bestPatchEndLine].
        -- reflexivity.
        -- lia.
        -- intros q Hq. apply in_app_or in Hq as [Hq|[<-|[]]].
           ++ specialize (Hmax q Hq). lia.
           ++ fold il. lia.
        -- intros q Hq. apply in_app_or in Hq as [Hq|[<-|[]]].
           ++ apply Hnone. exact Hq.
           ++ fold il. lia.
        -- right. split; [lia|]. exists p.
           split; [apply in_or_app; right; left; reflexivity|].
           repeat split.
    + rewrite Z.gtb_ltb, Z.ltb_ge in Egt. rewrite Hw.
      rewrite Eapp. apply IH. constructor.
      * exact Hw.
      * exact Hnn.
      * intros q Hq. apply in_app_or in Hq as [Hq|[<-|[]]].
        -- apply Hmax. exact Hq.
        -- fold il. lia.
      * intros q Hq. apply in_app_or in Hq as [Hq|[<-|[]]].
        -- apply Hnone. exact Hq.
        -- fold il. intros [Hpos Hlen].
           destruct Hbest as [(Hz & _)|(Hpos' & p' & Hp' & Ho & _)]; [lia|].
           apply (Hnone p' Hp'). pose proof (overlap_le_len p'). lia.
      * destruct Hbest as [Hz|(Hpos & p' & Hp' & Hrest)]; [left; exact Hz|].
        right. split; [exact Hpos|]. exists p'.
        split; [apply in_or_app; left; exact Hp' | exact Hrest].
Qed.

(** The three outcomes of [remap] on a non-empty list of known units. *)
Lemma remap_spec (patches : list Patch) :
  patches <> [] -> Forall known_unit patches ->
  ((s <= e)%Z /\ (exists p, In p patches /\ inside s e p)
   /\ remap patches review = Returns review)
  \/ ((forall p, In p patches -> ~ ((s <= e)%Z /\ inside s e p))
      /\ exists p,
           In p patches
           /\ (forall q, In q patches -> overlap s e q <= overlap s e p)%Z
           /\ (0 < overlap s e p < e - s + 1)%Z
           /\ remap patches review
              = Returns (mkReview (pStart p) (pEnd p)
                           (note_greatest_overlap review)))
  \/ ((forall p, In p patches -> overlap s e p = 0%Z)
      /\ exists p rest,
           patches = p :: rest
           /\ remap patches review
              = Returns (mkReview (pStart p) (pEnd p)
                           (note_no_overlap review))).
Proof.
  intros Hne Hknown. unfold remap.
  destruct (overlap_loop_spec patches [] best0 searching_best0)
    as [(Hw & p & Hp & Hpos & Hlen)|Hs]; cbn [app] in *.
  - left. rewrite Hw.
    destruct (overlap_inside p Hpos Hlen) as [Hse Hin].
    split; [exact Hse|]. split; [exists p; split; assumption | reflexivity].
  - destruct Hs as [Hw Hnn Hmax Hnone Hbest].
    rewrite Hw.
    assert (Hnot : forall q, In q patches -> ~ ((s <= e)%Z /\ inside s e q)).
    { intros q Hq [Hse Hin]. apply (Hnone q Hq).
      apply (inside_overlap q Hse Hin). }
    destruct Hbest as [(Hz & -> & ->)|(Hpos & p & Hp & Ho & -> & ->)].
    + right; right. cbn [Z.eqb negb andb]. split.
      * intros q Hq. specialize (Hmax q Hq). unfold overlap in *. lia.
      * destruct patches as [|[[ps pe] txt] rest]; [contradiction|].
        exists (ps, pe, txt), rest. split; reflexivity.
    + right; left. split; [exact Hnot|]. exists p.
      rewrite Forall_forall in Hknown. specialize (Hknown p Hp).
      unfold known_unit in Hknown.
      assert (Hpe : (0 <= pEnd p)%Z) by (unfold overlap in *; lia).
      destruct (Z.eqb_spec (pStart p) (-1)); [lia|].
      destruct (Z.eqb_spec (pEnd p) (-1)); [lia|].
      cbn [negb andb].
      split; [exact Hp|]. split; [intros q Hq; rewrite Ho; apply Hmax, Hq|].
      split; [|reflexivity].
      pose proof (overlap_le_len p ltac:(lia)) as Hle.
      specialize (Hnone p Hp). unfold len in *. lia.
Qed.

End Candidate.







End RemapFacts.


(* ===================================================================== *)
(** ** ResponseReconciler: the scan *)
(* ===================================================================== *)

Module ScanFacts.

Import Review ReviewSpec RemapFacts.

(** With a unit to fall back on, [remap] returns, and what it returns is
    anchored. *)
Lemma remap_anchored (patches : list Patch) (review : Review) :
  patches <> [] ->
  exists r, remap patches review = Returns r /\ anchored patches r.
Proof.
  intros Hne. unfold remap.
  destruct (overlap_loop_spec review patches [] best0
              (searching_best0 review))
    as [(Hw & p & Hp & Hpos & Hlen)|[Hw _ _ _ Hbest]]; cbn [app] in *.
  - rewrite Hw. exists review. split; [reflexivity|].
    destruct (overlap_inside review p Hpos Hlen) as [Hse Hin].
    exists p. split; [exact Hp | right; split; assumption].
  - rewrite Hw.
    destruct (negb (bestPatchStartLine _ =? -1)%Z
              && negb (bestPatchEndLine _ =? -1)%Z) eqn:E.
    + destruct Hbest as [(_ & Hs & _)|(_ & p & Hp & _ & Hs & He)].
      * rewrite Hs in E. discriminate.
      * eexists. split; [reflexivity|]. exists p.
        split; [exact Hp|]. left. split; cbn; congruence.
    + destruct patches as [|[[ps pe] txt] rest]; [contradiction|].
      eexists. split; [reflexivity|]. exists (ps, pe, txt).
      split; [left; reflexivity | left; split; reflexivity].
Qed.

Lemma remap_empty (review : Review) : remap [] review = Throws TypeError.
Proof. reflexivity. Qed.

(** A flush keeps the scan variables and adds at most one anchored
    comment. *)
Lemma storeReview_anchored (patches : list Patch) (st : state) :
  patches <> [] -> Forall (anchored patches) (reviews st) ->
  exists st',
    storeReview patches st = Returns st'
    /\ Forall (anchored patches) (reviews st').
Proof.
  intros Hne Hst. unfold storeReview.
  destruct (currentStartLine st) as [s|]; [|exists st; split; auto].
  destruct (currentEndLine st) as [e|]; [|exists st; split; auto].
  destruct (remap_anchored patches (mkReview s e (currentComment st)) Hne)
    as (r & -> & Hr).
  cbn [bind]. eexists. split; [reflexivity|]. cbn [reviews].
  apply Forall_app. split; [exact Hst | constructor; [exact Hr | constructor]].
Qed.

Lemma scan_line_anchored (patches : list Patch) (st : state) (line : list N) :
  patches <> [] -> Forall (anchored patches) (reviews st) ->
  exists st',
    scan_line patches st line = Returns st'
    /\ Forall (anchored patches) (reviews st').
Proof.
  intros Hne Hst. unfold scan_line.
  destruct (storeReview_anchored patches st Hne Hst) as (st1 & E1 & H1).
  destruct (lineNumberRangeRegex line) as [[m1 m2]|].
  - rewrite E1. cbn [bind]. eexists. split; [reflexivity | exact H1].
  - destruct (str_eqb (trim line) commentSeparator).
    + rewrite E1. cbn [bind]. eexists. split; [reflexivity | exact H1].
    + destruct (currentStartLine st), (currentEndLine st);
        eexists; (split; [reflexivity | exact Hst]).
Qed.

Lemma scan_lines_anchored (patches : list Patch) (lines : list (list N))
    (st : state) :
  patches <> [] -> Forall (anchored patches) (reviews st) ->
  exists st',
    scan_lines patches st lines = Returns st'
    /\ Forall (anchored patches) (reviews st').
Proof.
  intros Hne. revert st; induction lines as [|line lines IH]; intros st Hst.
  - exists st. split; [reflexivity | exact Hst].
  - cbn [scan_lines].
    destruct (scan_line_anchored patches st line Hne Hst) as (st1 & -> & H1).
    cbn [bind]. apply IH. exact H1.
Qed.

(** For a non-empty list of units [parseReview] returns, and every comment
    it returns is anchored. *)
Lemma parseReview_anchored (response : list N) (patches : list Patch) :
  patches <> [] ->
  exists rs,
    parseReview response patches = Returns rs
    /\ Forall (anchored patches) rs.
Proof.
  intros Hne. unfold parseReview.
  destruct (scan_lines_anchored patches (response_lines response) state0 Hne)
    as (st & -> & Hst); [constructor|].
  cbn [bind].
  destruct (storeReview_anchored patches st Hne Hst) as (st' & -> & Hst').
  cbn [bind]. exists (reviews st'). split; [reflexivity | exact Hst'].
Qed.

(** *** Without units *)

(** Once a comment is open, whatever follows ends in a flush, and a flush
    without units throws. *)
Lemma scan_collecting_throws (lines : list (list N)) (st : state) :
  collecting st ->
  bind (scan_lines [] st lines) (storeReview []) = Throws TypeError.
Proof.
  revert st; induction lines as [|line lines IH]; intros st [Hs He].
  - cbn. unfold storeReview.
    destruct (currentStartLine st); [|contradiction].
    destruct (currentEndLine st); [|contradiction]. reflexivity.
  - cbn [scan_lines]. unfold scan_line.
    assert (Hflush : storeReview [] st = Throws TypeError).
    { unfold storeReview.
      destruct (currentStartLine st); [|contradiction].
      destruct (currentEndLine st); [|contradiction]. reflexivity. }
    destruct (lineNumberRangeRegex line) as [[m1 m2]|];
      [rewrite Hflush; reflexivity|].
    destruct (str_eqb (trim line) commentSeparator);
      [rewrite Hflush; reflexivity|].
    destruct (currentStartLine st) eqn:E1; [|contradiction].
    destruct (currentEndLine st) eqn:E2; [|contradiction].
    cbn [bind]. apply IH. split; cbn; discriminate.
Qed.

Lemma scan_opening_throws (lines : list (list N)) (st : state) :
  Exists opens_range lines ->
  bind (scan_lines [] st lines) (storeReview []) = Throws TypeError.
Proof.
  intros H; revert st; induction H as [line lines Hopen|line lines _ IH];
    intros st; cbn [scan_lines].
  - unfold scan_line. unfold opens_range in Hopen.
    destruct (lineNumberRangeRegex line) as [[m1 m2]|]; [|contradiction].
    destruct (storeReview [] st) as [st1|err] eqn:E; cbn [bind].
    + apply scan_collecting_throws. split; cbn; discriminate.
    + unfold storeReview in E.
      destruct (currentStartLine st); [|discriminate].
      destruct (currentEndLine st); [|discriminate].
      cbn in E. injection E as <-. reflexivity.
  - destruct (scan_line [] st line) as [st1|err] eqn:E; cbn [bind].
    + apply IH.
    + unfold scan_line, storeReview in E.
      destruct (lineNumberRangeRegex line) as [[m1 m2]|];
        [|destruct (str_eqb (trim line) commentSeparator)];
        destruct (currentStartLine st), (currentEndLine st);
        cbn in E; try discriminate; injection E as <-; reflexivity.
Qed.

Lemma parseReview_no_units_throws (response : list N) :
  Exists opens_range (response_lines response) ->
  parseReview response [] = Throws TypeError.
Proof.
  intros H. unfold parseReview.
  pose proof (scan_opening_throws (response_lines response) state0 H) as E.
  destruct (scan_lines [] state0 (response_lines response)) as [st|err];
    cbn [bind] in *.
  - destruct (storeReview [] st); [discriminate E|].
    cbn [bind]. injection E as ->. reflexivity.
  - injection E as ->. reflexivity.
Qed.

(** C1 (as amended).  For a non-empty list of units, [parseReview]
    returns, and every comment it returns is anchored in a unit of the
    list: its range equals the range of the unit, or, for a comment that
    was kept as the model stated it, lies within it.  When the ranges of
    the units hold a line each and no two units share a line, as the
    format of a diff has it, the comment is anchored in exactly one
    unit. *)
Theorem parseReview_ranges_anchored (response : list N)
    (patches : list Patch) :
  patches <> [] ->
  exists rs,
    parseReview response patches = Returns rs
    /\ Forall
         (fun r =>
            exists i p,
              nth_error patches i = Some p
              /\ anchored_in p r
              /\ (separate patches ->
                  forall j q,
                    nth_error patches j = Some q -> anchored_in q r ->
                    j = i))
         rs.
Proof.
  intros Hne.
  destruct (parseReview_anchored response patches Hne) as (rs & E & Hrs).
  exists rs. split; [exact E|].
  eapply Forall_impl; [|exact Hrs].
  intros r (p & Hp & Hr).
  apply In_nth_error in Hp as (i & Hi).
  exists i, p. split; [exact Hi|]. split; [exact Hr|].
  intros [Hline Hapart] j q Hj Hq.
  destruct (Nat.eq_dec j i) as [Eji|Hne']; [exact Eji|]. exfalso.
  rewrite Forall_forall in Hline.
  pose proof (Hline p (nth_error_In _ _ Hi)) as Lp.
  pose proof (Hline q (nth_error_In _ _ Hj)) as Lq.
  pose proof (Hapart j i q p Hj Hi Hne') as Hov.
  unfold anchored_in, has_range, inside, overlap in *. lia.
Qed.

(** Two units on the lines 1 to 4 and 10 to 12, and a comment on the
    lines 2 to 3: it is anchored in the first unit and in no other. *)
Lemma parseReview_ranges_anchored_witness :
  exists rs,
    parseReview example_response two_units = Returns rs
    /\ Forall
         (fun r =>
            exists i p,
              nth_error two_units i = Some p
              /\ anchored_in p r
              /\ forall j q,
                   nth_error two_units j = Some q -> anchored_in q r ->
                   j = i)
         rs.
Proof.
  destruct (parseReview_ranges_anchored example_response two_units)
    as (rs & E & H); [discriminate|].
  exists rs. split; [exact E|].
  eapply Forall_impl; [|exact H].
  intros r (i & p & Hi & Ha & Hone).
  exists i, p. split; [exact Hi|]. split; [exact Ha|].
  apply Hone. split.
  - repeat constructor; discriminate.
  - intros [|[|a]] [|[|b]] x y Hx Hy Hab; cbn in Hx, Hy;
      try congruence; try (destruct a; discriminate);
      try (destruct b; discriminate);
      injection Hx as <-; injection Hy as <-; reflexivity.
Defined.

(** C1, as stated, fails on the end-to-end example: the one unit spans the
    lines 1 to 4, and the comment comes back on the lines 2 to 3, the range
    of no unit. *)
Lemma parseReview_range_of_no_unit :
  map (fun p => (pStart p, pEnd p)) (Diff.file_patches (Some example_diff))
  = [(1, 4)%Z]
  /\ parseReview example_response (Diff.file_patches (Some example_diff))
     = Returns [mkReview 2 3 (lit "Looks fine" ++ [nl])]
  /\ ~ exists p, In p (Diff.file_patches (Some example_diff))
                 /\ has_range 2 3 p.
Proof.
  split; [vm_compute; reflexivity|].
  split; [vm_compute; reflexivity|].
  intros (p & Hp & Hs & _).
  assert (E : map pStart (Diff.file_patches (Some example_diff)) = [1%Z])
    by (vm_compute; reflexivity).
  apply (in_map pStart) in Hp. rewrite E, Hs in Hp.
  destruct Hp as [Hp|[]]; discriminate.
Qed.

(** C9.  A flush without units reads index 0 of an empty array and throws;
    so [parseReview] throws on every response in which the scan finds a
    line that opens a comment.  With at least one unit [parseReview]
    returns on every response.  A non-empty list of units is thus both
    needed and enough for [parseReview] to return on every response. *)
Theorem parseReview_needs_units (patches : list Patch) :
  (forall review, remap [] review = Throws TypeError)
  /\ (forall response,
        Exists opens_range (response_lines response) ->
        parseReview response [] = Throws TypeError)
  /\ (patches <> [] ->
      forall response, exists rs, parseReview response patches = Returns rs)
  /\ ((forall response, exists rs, parseReview response patches = Returns rs)
      -> patches <> []).
Proof.
  split; [exact remap_empty|].
  split; [exact parseReview_no_units_throws|].
  split.
  - intros Hne response.
    destruct (parseReview_anchored response patches Hne) as (rs & E & _).
    exists rs. exact E.
  - intros H ->. destruct (H (lit "1-1:")) as (rs & E).
    vm_compute in E. discriminate.
Qed.

Lemma parseReview_needs_units_witness :
  parseReview example_response [] = Throws TypeError
  /\ exists rs, parseReview example_response [(1, 4, [])%Z] = Returns rs.
Proof.
  destruct (parseReview_needs_units [(1, 4, [])%Z]) as (_ & Hthrow & Hret & _).
  split.
  - apply Hthrow. apply Exists_cons_hd. vm_compute. discriminate.
  - apply Hret. discriminate.
Defined.

End ScanFacts.


(* ===================================================================== *)
(** ** ResponseReconciler: the lines of the scan *)
(* ===================================================================== *)

Module LineFacts.

Import Review ReviewSpec.

Lemma str_eqb_spec (a b : list N) : str_eqb a b = true <-> a = b.
Proof.
  revert b; induction a as [|x a IH]; intros [|y b]; cbn;
    try (split; [discriminate | discriminate]); [split; reflexivity|].
  unfold char_eqb. rewrite andb_true_iff, N.eqb_eq, IH.
  split; [intros [-> ->]; reflexivity | intros [= -> ->]; split; reflexivity].
Qed.

Lemma range_tail_spec (s d1 d2 : list N) :
  range_tail s = Some (d1, d2) <->
  exists ws, s = range_text d1 d2 ++ ws
             /\ digits d1 /\ digits d2 /\ all_space ws.
Proof.
  unfold range_tail, range_text, digits, all_space. split.
  - intros H. matcher_pieces H.
    match type of H with
    | (if forallb is_space ?w then _ else _) = _ =>
        destruct (forallb is_space w) eqn:Ews; [|discriminate]; exists w
    end.
    injection H as <- <-. subst. repeat rewrite <- app_assoc.
    repeat split; assumption.
  - intros (ws & -> & (N1 & D1) & (N2 & D2) & Hws).
    repeat rewrite <- app_assoc.
    rewrite digits1_app
      by (assumption || (simpl; intros ? ? [= <- _]; reflexivity)).
    cbn [obind]. rewrite expect_app. cbn [obind].
    rewrite digits1_app
      by (assumption || (simpl; intros ? ? [= <- _]; reflexivity)).
    cbn [obind]. rewrite expect_app. cbn [obind]. rewrite Hws. reflexivity.
Qed.

(** No character of a range is whitespace. *)
Lemma range_text_no_space (d1 d2 : list N) :
  digits d1 -> digits d2 ->
  forall c, In c (range_text d1 d2) -> is_space c = false.
Proof.
  intros [_ D1] [_ D2] c Hc. unfold range_text in Hc.
  rewrite forallb_forall in D1, D2.
  repeat (apply in_app_or in Hc as [Hc|Hc]);
    try (apply digit_is_not_space; auto; fail);
    cbn in Hc; destruct Hc as [<-|[]]; reflexivity.
Qed.

Lemma range_text_head (d1 d2 : list N) :
  digits d1 ->
  exists c t, range_text d1 d2 = c :: t /\ is_space c = false.
Proof.
  intros [N1 D1]. destruct d1 as [|c d1]; [contradiction|].
  exists c, (d1 ++ lit "-" ++ d2 ++ lit ":"). split; [reflexivity|].
  cbn [forallb] in D1. apply andb_true_iff in D1 as [D1 _].
  apply digit_is_not_space. exact D1.
Qed.

(** Where a whitespace character is followed by another character that is
    not, no range with only whitespace behind it can start before. *)
Lemma range_tail_before_space (x y : list N) (c y0 : N) :
  is_space c = true -> is_space y0 = false ->
  range_tail (x ++ c :: y0 :: y) = None.
Proof.
  intros Hc Hy0. destruct (range_tail _) as [[d1 d2]|] eqn:E; [|reflexivity].
  exfalso. apply range_tail_spec in E as (ws & E & Hd1 & Hd2 & Hws).
  pose proof (range_text_no_space d1 d2 Hd1 Hd2) as Hns.
  unfold all_space in Hws. rewrite forallb_forall in Hws.
  symmetry in E. apply app_eq_app in E as (l & [[E1 E2]|[E1 E2]]).
  - destruct l as [|c' l].
    + cbn in E2. rewrite app_nil_r in E1. subst ws.
      assert (is_space y0 = true) by (apply Hws; right; left; reflexivity).
      congruence.
    + injection E2 as <- E2.
      assert (is_space c = false)
        by (apply Hns; rewrite E1; apply in_or_app; right; left; reflexivity).
      congruence.
  - assert (is_space y0 = true)
      by (apply Hws; rewrite E2; apply in_or_app; right; right; left;
          reflexivity).
    congruence.
Qed.

Lemma range_search_sound (s : list N) (b : bool) (d1 d2 : list N) :
  range_search b s = Some (d1, d2) ->
  exists pre ws,
    s = pre ++ range_text d1 d2 ++ ws
    /\ ((pre = [] /\ b = true)
        \/ exists pre' c, pre = pre' ++ [c] /\ is_space c = true)
    /\ digits d1 /\ digits d2 /\ all_space ws.
Proof.
  revert b; induction s as [|c s IH]; intros b; cbn [range_search].
  - destruct b; cbn; discriminate.
  - destruct (if b then range_tail (c :: s) else None) as [m|] eqn:E1.
    + destruct b; [|discriminate]. intros [= ->].
      apply range_tail_spec in E1 as (ws & E & H).
      exists [], ws. split; [exact E|]. split; [left; split; reflexivity|].
      exact H.
    + destruct (if is_space c then range_tail s else None) as [m|] eqn:E2.
      * destruct (is_space c) eqn:Hc; [|discriminate]. intros [= ->].
        apply range_tail_spec in E2 as (ws & E & H).
        exists [c], ws. split; [cbn; f_equal; exact E|].
        split; [right; exists [], c; split; [reflexivity | exact Hc]|].
        exact H.
      * intros H. apply IH in H as (pre & ws & E & Hpre & H).
        exists (c :: pre), ws. split; [cbn; f_equal; exact E|].
        split; [|exact H]. right.
        destruct Hpre as [[-> Hb]|(pre' & c' & -> & Hc')]; [discriminate|].
        exists (c :: pre'), c'. split; [reflexivity | exact Hc'].
Qed.

Lemma range_search_complete (pre : list N) (d1 d2 ws : list N) (b : bool) :
  (pre = [] /\ b = true)
  \/ (exists pre' c, pre = pre' ++ [c] /\ is_space c = true) ->
  digits d1 -> digits d2 -> all_space ws ->
  range_search b (pre ++ range_text d1 d2 ++ ws) = Some (d1, d2).
Proof.
  intros Hpre Hd1 Hd2 Hws.
  assert (Htail : range_tail (range_text d1 d2 ++ ws) = Some (d1, d2)).
  { apply range_tail_spec. exists ws. repeat split; try assumption;
      try apply Hd1; apply Hd2. }
  destruct (range_text_head d1 d2 Hd1) as (h & t & Eh & Hh).
  revert b Hpre; induction pre as [|c pre IH]; intros b Hpre.
  - destruct Hpre as [[_ ->]|(pre' & c & E & _)];
      [|destruct pre'; discriminate].
    cbn [app]. rewrite Eh in Htail |- *. cbn [app] in Htail |- *.
    cbn [range_search]. rewrite Htail. reflexivity.
  - destruct Hpre as [[E _]|(pre' & c' & E & Hc')]; [discriminate|].
    cbn [app range_search].
    assert (E1 : range_tail (c :: pre ++ range_text d1 d2 ++ ws) = None).
    { change (c :: pre ++ range_text d1 d2 ++ ws)
        with ((c :: pre) ++ range_text d1 d2 ++ ws).
      rewrite E, Eh, <- app_assoc. cbn [app].
      apply range_tail_before_space; assumption. }
    rewrite E1. replace (if b then None else None)
      with (@None (list N * list N)) by (destruct b; reflexivity).
    destruct pre as [|c1 pre1].
    + destruct pre' as [|? [|? ?]]; try discriminate.
      injection E as ->. rewrite Hc'. cbn [app]. rewrite Htail. reflexivity.
    + assert (Hpre1 : exists pre'' c'', c1 :: pre1 = pre'' ++ [c'']
                                        /\ is_space c'' = true).
      { destruct pre' as [|x pre'']; [discriminate|].
        injection E as -> E. exists pre'', c'. split; assumption. }
      assert (E2 : range_tail ((c1 :: pre1) ++ range_text d1 d2 ++ ws)
                   = None).
      { destruct Hpre1 as (pre'' & c'' & -> & Hc'').
        rewrite Eh, <- app_assoc. cbn [app].
        apply range_tail_before_space; assumption. }
      rewrite E2. replace (if is_space c then None else None)
        with (@None (list N * list N)) by (destruct (is_space c); reflexivity).
      apply IH. right. exact Hpre1.
Qed.

(** The lines [lineNumberRangeRegex] matches are the lines that end with a
    range, and its captures are the two numbers of that range. *)
Lemma lineNumberRangeRegex_spec (line d1 d2 : list N) :
  lineNumberRangeRegex line = Some (d1, d2) <->
  exists pre ws,
    line = pre ++ range_text d1 d2 ++ ws
    /\ (pre = [] \/ exists pre' c, pre = pre' ++ [c] /\ is_space c = true)
    /\ digits d1 /\ digits d2 /\ all_space ws.
Proof.
  unfold lineNumberRangeRegex. split.
  - intros H. apply range_search_sound in H
      as (pre & ws & E & Hpre & H).
    exists pre, ws. split; [exact E|]. split; [|exact H].
    destruct Hpre as [[-> _]|Hpre]; [left; reflexivity | right; exact Hpre].
  - intros (pre & ws & -> & Hpre & Hd1 & Hd2 & Hws).
    apply range_search_complete; try assumption.
    destruct Hpre as [->|Hpre]; [left; split; reflexivity | right; exact Hpre].
Qed.

Lemma dropWhile_spec (p : N -> bool) (s : list N) :
  exists a, s = a ++ dropWhile p s /\ forallb p a = true.
Proof.
  induction s as [|c s (a & E & Ha)]; [exists []; split; reflexivity|].
  cbn [dropWhile]. destruct (p c) eqn:Pc.
  - exists (c :: a). cbn [app forallb]. rewrite Pc, Ha. split; [|reflexivity].
    f_equal. exact E.
  - exists []. split; reflexivity.
Qed.

Lemma dropWhile_app (p : N -> bool) (a : list N) (c : N) (t : list N) :
  forallb p a = true -> p c = false -> dropWhile p (a ++ c :: t) = c :: t.
Proof.
  intros Ha Hc. induction a as [|x a IH]; cbn [app dropWhile].
  - rewrite Hc. reflexivity.
  - cbn [forallb] in Ha. apply andb_true_iff in Ha as [-> Ha]. exact (IH Ha).
Qed.

Lemma forallb_rev (p : N -> bool) (l : list N) :
  forallb p l = true -> forallb p (rev l) = true.
Proof.
  rewrite !forallb_forall. intros H x Hx. apply H, in_rev. exact Hx.
Qed.

(** The lines [line.trim() === '---'] accepts. *)
Lemma trim_separator (line : list N) :
  trim line = commentSeparator <-> separator_line line.
Proof.
  unfold trim, separator_line, all_space, commentSeparator. split.
  - intros H.
    destruct (dropWhile_spec is_space line) as (ws1 & E1 & H1).
    destruct (dropWhile_spec is_space (rev (dropWhile is_space line)))
      as (w & E2 & H2).
    apply (f_equal (@rev N)) in H. rewrite rev_involutive in H.
    rewrite H in E2. apply (f_equal (@rev N)) in E2.
    rewrite rev_involutive, rev_app_distr in E2.
    exists ws1, (rev w). rewrite E1 at 1. rewrite E2.
    repeat split; [exact H1 | apply forallb_rev; exact H2].
  - intros (ws1 & ws2 & -> & H1 & H2).
    change (lit "---" ++ ws2) with (45%N :: lit "--" ++ ws2).
    rewrite (dropWhile_app is_space ws1 45 (lit "--" ++ ws2) H1 eq_refl).
    change (45%N :: lit "--" ++ ws2) with (lit "---" ++ ws2).
    rewrite rev_app_distr.
    change (rev (lit "---")) with (45%N :: lit "--").
    rewrite (dropWhile_app is_space (rev ws2) 45 (lit "--")
               (forallb_rev _ _ H2) eq_refl).
    reflexivity.
Qed.

(** A separator line holds no digit, so it opens no comment. *)
Lemma separator_not_range (line : list N) :
  separator_line line -> lineNumberRangeRegex line = None.
Proof.
  intros (ws1 & ws2 & -> & H1 & H2).
  destruct (lineNumberRangeRegex _) as [[d1 d2]|] eqn:E; [|reflexivity].
  exfalso. apply lineNumberRangeRegex_spec in E
    as (pre & ws & E & _ & [N1 D1] & _).
  destruct d1 as [|c d1]; [contradiction|].
  cbn [forallb] in D1. apply andb_true_iff in D1 as [Dc _].
  assert (Hin : In c (ws1 ++ lit "---" ++ ws2)).
  { rewrite E. apply in_or_app. right. left. reflexivity. }
  unfold all_space in *. rewrite forallb_forall in H1, H2.
  apply digit_is_not_space in Dc as Hs.
  apply in_app_or in Hin as [Hin|Hin];
    [apply H1 in Hin; congruence|].
  apply in_app_or in Hin as [Hin|Hin];
    [|apply H2 in Hin; congruence].
  cbn in Hin. destruct Hin as [<-|[<-|[<-|[]]]]; discriminate.
Qed.

(** C6 (as amended).  The scan of [parseReview] is the machine with the
    states Idle and Collecting.  Exactly the lines that end with a range
    [start-end:], the range standing at the start of the line or after a
    whitespace character and only whitespace following the colon, flush
    the comment in progress, if any, and open a new one at [start] and
    [end].  Exactly the lines that are the separator [---] between
    optional whitespace flush and return to Idle.  Any other line is
    appended with its newline to the body when Collecting and dropped when
    Idle.  After the last line comes a final flush. *)
Theorem scan_line_machine (patches : list Patch) (st : state)
    (line : list N) :
  (forall s e,
     range_line line s e ->
     scan_line patches st line
     = bind (storeReview patches st)
         (fun st' => Returns (mkState (Some s) (Some e) [] (reviews st'))))
  /\ (separator_line line ->
      scan_line patches st line
      = bind (storeReview patches st)
          (fun st' => Returns (mkState None None [] (reviews st'))))
  /\ ((forall s e, ~ range_line line s e) -> ~ separator_line line ->
      (collecting st ->
       scan_line patches st line
       = Returns (mkState (currentStartLine st) (currentEndLine st)
                    (currentComment st ++ line ++ [nl]) (reviews st)))
      /\ (~ collecting st -> scan_line patches st line = Returns st))
  /\ (~ collecting st -> storeReview patches st = Returns st)
  /\ (forall response,
        parseReview response patches
        = bind (scan_lines patches state0 (response_lines response))
            (fun st => bind (storeReview patches st)
                         (fun st => Returns (reviews st)))).
Proof.
  split; [|split; [|split; [|split]]].
  - intros s e (pre & d1 & d2 & ws & E & Hpre & Hd1 & Hd2 & Hws & -> & ->).
    unfold scan_line.
    rewrite (proj2 (lineNumberRangeRegex_spec line d1 d2));
      [reflexivity|].
    exists pre, ws. repeat split; try assumption; try apply Hd1; apply Hd2.
  - intros Hsep. unfold scan_line.
    rewrite (separator_not_range line Hsep).
    rewrite (proj2 (str_eqb_spec _ _) (proj2 (trim_separator line) Hsep)).
    reflexivity.
  - intros Hnr Hns. unfold scan_line.
    destruct (lineNumberRangeRegex line) as [[d1 d2]|] eqn:E.
    { exfalso. apply lineNumberRangeRegex_spec in E
        as (pre & ws & E & Hpre & Hd1 & Hd2 & Hws).
      apply (Hnr (parseInt d1) (parseInt d2)).
      exists pre, d1, d2, ws. repeat split; try assumption;
        try apply Hd1; apply Hd2. }
    destruct (str_eqb (trim line) commentSeparator) eqn:Et.
    { exfalso. apply Hns, trim_separator, str_eqb_spec. exact Et. }
    unfold collecting. split.
    + intros [Hs He].
      destruct (currentStartLine st); [|contradiction].
      destruct (currentEndLine st); [|contradiction]. reflexivity.
    + intros Hc.
      destruct (currentStartLine st), (currentEndLine st); try reflexivity.
      exfalso. apply Hc. split; discriminate.
  - unfold collecting, storeReview. intros Hc.
    destruct (currentStartLine st), (currentEndLine st); try reflexivity.
    exfalso. apply Hc. split; discriminate.
  - reflexivity.
Qed.

Lemma scan_line_machine_witness :
  scan_line [(1, 4, [])%Z] state0 (lit "see 2-3: ")
  = Returns (mkState (Some 2%Z) (Some 3%Z) [] [])
  /\ scan_line [(1, 4, [])%Z] (mkState (Some 2%Z) (Some 3%Z) [] [])
       (lit " --- ")
     = Returns (mkState None None [] [mkReview 2 3 []]).
Proof.
  destruct (scan_line_machine [(1, 4, [])%Z] state0 (lit "see 2-3: "))
    as (Hopen & _).
  destruct (scan_line_machine [(1, 4, [])%Z]
              (mkState (Some 2%Z) (Some 3%Z) [] []) (lit " --- "))
    as (_ & Hsep & _).
  split.
  - rewrite (Hopen 2%Z 3%Z); [reflexivity|].
    exists (lit "see "), (lit "2"), (lit "3"), (lit " ").
    repeat split; try discriminate.
    right. exists (lit "see"), space. split; reflexivity.
  - rewrite Hsep; [reflexivity|].
    exists (lit " "), (lit " "). repeat split.
Defined.

(** C6, as stated, fails on two lines.  [see 2-3:] is not a range behind
    optional whitespace, yet it opens a comment on the lines 2 to 3; and
    [ --- ], which is not equal to the separator, is not appended to the
    comment in progress but flushes it and returns to Idle. *)
Lemma scan_line_opens_after_text :
  (forall s e, ~ bare_range_line (lit "see 2-3:") s e)
  /\ scan_line [(1, 4, [])%Z] state0 (lit "see 2-3:")
     = Returns (mkState (Some 2%Z) (Some 3%Z) [] [])
  /\ lit " --- " <> lit "---"
  /\ scan_line [(1, 4, [])%Z] (mkState (Some 2%Z) (Some 3%Z) [] [])
       (lit " --- ")
     = Returns (mkState None None [] [mkReview 2 3 []]).
Proof.
  split; [|split; [reflexivity | split; [discriminate | reflexivity]]].
  intros s e (ws & d1 & d2 & E & Hws & [N1 D1] & _).
  unfold all_space, range_text in *.
  destruct ws as [|c ws].
  - destruct d1 as [|c d1]; [contradiction|].
    injection E as <- _. discriminate.
  - injection E as <- _. discriminate.
Qed.

End LineFacts.


(* ===================================================================== *)
(** ** ResponseReconciler: the sanitizer *)
(* ===================================================================== *)

Module SanitizeFacts.

Import Review SanitizeSpec.

(** *** [indexOf] *)

Lemma find_from_shift (pat s : list N) (i : nat) :
  find_from pat i s = option_map (Nat.add i) (find_from pat 0 s).
Proof.
  revert i; induction s as [|c s IH]; intros i; cbn [find_from].
  - destruct (startsWith [] pat); cbn; [rewrite Nat.add_0_r|]; reflexivity.
  - destruct (startsWith (c :: s) pat); cbn [option_map];
      [rewrite Nat.add_0_r; reflexivity|].
    rewrite (IH (S i)), (IH 1).
    destruct (find_from pat 0 s); cbn [option_map]; [f_equal; lia|reflexivity].
Qed.

Lemma indexOf_app (d t pat : list N) (k : nat) :
  indexOf (d ++ t) pat (length d + k)
  = option_map (Nat.add (length d)) (indexOf t pat k).
Proof.
  unfold indexOf. rewrite length_app.
  replace (Nat.min (length d + k) (length d + length t))
    with (length d + Nat.min k (length t)) by lia.
  rewrite skipn_app, skipn_all2 by lia.
  replace (length d + Nat.min k (length t) - length d)
    with (Nat.min k (length t)) by lia.
  cbn [app].
  rewrite (find_from_shift pat _ (length d + _)),
    (find_from_shift pat _ (Nat.min k (length t))).
  destruct (find_from pat 0 _); cbn [option_map]; [f_equal; lia|reflexivity].
Qed.

Lemma startsWith_spec (s pat : list N) :
  startsWith s pat = true <-> exists r, s = pat ++ r.
Proof.
  unfold startsWith. destruct (strip_prefix pat s) as [r|] eqn:E.
  - apply strip_prefix_spec in E. split; [exists r; exact E | reflexivity].
  - split; [discriminate|]. intros (r & Hr).
    apply strip_prefix_spec in Hr. congruence.
Qed.

Lemma find_from_spec (pat s : list N) (i : nat) :
  find_from pat 0 s = Some i ->
  occurs_at pat s i /\ i + length pat <= length s
  /\ forall j, j < i -> ~ occurs_at pat s j.
Proof.
  revert i; induction s as [|c s IH]; intros i; cbn [find_from].
  - destruct (startsWith [] pat) eqn:E; [|discriminate]. intros [= <-].
    apply startsWith_spec in E as (r & E). split; [exists r; exact E|].
    split; [|intros j Hj; lia].
    apply (f_equal (@length N)) in E. rewrite length_app in E. cbn in *. lia.
  - destruct (startsWith (c :: s) pat) eqn:E.
    + intros [= <-]. apply startsWith_spec in E as (r & E).
      split; [exists r; exact E|]. split; [|intros j Hj; lia].
      apply (f_equal (@length N)) in E. rewrite length_app in E.
      cbn [length] in *. lia.
    + rewrite find_from_shift. destruct (find_from pat 0 s) as [k|] eqn:Ek;
        [|discriminate].
      cbn [option_map]. intros [= <-]. cbn [Nat.add].
      destruct (IH k eq_refl) as (Hocc & Hlen & Hfirst).
      split; [exact Hocc|]. split; [cbn [length]; lia|].
      intros [|j] Hj.
      * intros (r & Hr). cbn [skipn] in Hr.
        assert (startsWith (c :: s) pat = true)
          by (apply startsWith_spec; exists r; exact Hr).
        congruence.
      * apply (Hfirst j). lia.
Qed.

Lemma find_from_None (pat s : list N) :
  find_from pat 0 s = None -> forall j, ~ occurs_at pat s j.
Proof.
  induction s as [|c s IH]; cbn [find_from].
  - destruct (startsWith [] pat) eqn:E; [discriminate|]. intros _ j (r & Hr).
    rewrite skipn_nil in Hr.
    assert (startsWith [] pat = true)
      by (apply startsWith_spec; exists r; exact Hr).
    congruence.
  - destruct (startsWith (c :: s) pat) eqn:E; [discriminate|].
    rewrite find_from_shift. destruct (find_from pat 0 s) eqn:Ek;
      [discriminate|].
    intros _ [|j] (r & Hr).
    + assert (startsWith (c :: s) pat = true)
        by (apply startsWith_spec; exists r; exact Hr).
      congruence.
    + apply (IH eq_refl j). exists r. exact Hr.
Qed.

Lemma occurs_at_app (pat d t : list N) (j : nat) :
  occurs_at pat (d ++ t) (length d + j) <-> occurs_at pat t j.
Proof.
  unfold occurs_at. rewrite skipn_app, skipn_all2 by lia.
  replace (length d + j - length d) with j by lia. reflexivity.
Qed.

Lemma occurs_at_split (pat s : list N) (i : nat) :
  occurs_at pat s i -> i <= length s ->
  s = firstn i s ++ pat ++ skipn (i + length pat) s.
Proof.
  intros (r & Hr) Hi. rewrite <- (firstn_skipn i s) at 1. f_equal.
  rewrite Hr. f_equal. rewrite Nat.add_comm, <- skipn_skipn, Hr.
  rewrite skipn_app, skipn_all, Nat.sub_diag. reflexivity.
Qed.

Lemma occurs_at_skipn (pat s : list N) (from j : nat) :
  occurs_at pat (skipn from s) j <-> occurs_at pat s (from + j).
Proof.
  unfold occurs_at. rewrite skipn_skipn, (Nat.add_comm j from). reflexivity.
Qed.

(** What a successful [indexOf] tells, for a start within the text. *)
Lemma indexOf_Some (s pat : list N) (from i : nat) :
  from <= length s ->
  indexOf s pat from = Some i ->
  from <= i /\ i + length pat <= length s /\ occurs_at pat s i
  /\ forall j, from <= j < i -> ~ occurs_at pat s j.
Proof.
  intros Hfrom. unfold indexOf. rewrite Nat.min_l by exact Hfrom.
  rewrite find_from_shift.
  destruct (find_from pat 0 (skipn from s)) as [k|] eqn:E; [|discriminate].
  cbn [option_map]. intros [= <-].
  destruct (find_from_spec _ _ _ E) as (Hocc & Hlen & Hfirst).
  rewrite length_skipn in Hlen.
  split; [lia|]. split; [lia|]. split.
  - apply occurs_at_skipn. exact Hocc.
  - intros j Hj Hoc. apply (Hfirst (j - from)); [lia|].
    apply occurs_at_skipn. replace (from + (j - from)) with j by lia.
    exact Hoc.
Qed.

Lemma indexOf_None (s pat : list N) (from : nat) :
  from <= length s ->
  indexOf s pat from = None ->
  forall j, from <= j -> ~ occurs_at pat s j.
Proof.
  intros Hfrom. unfold indexOf. rewrite Nat.min_l by exact Hfrom.
  rewrite find_from_shift.
  destruct (find_from pat 0 (skipn from s)) eqn:E; [discriminate|].
  intros _ j Hj Hoc.
  apply (find_from_None _ _ E (j - from)).
  apply occurs_at_skipn. replace (from + (j - from)) with j by lia.
  exact Hoc.
Qed.

(** *** The loop *)

Lemma firstn_exact (a b : list N) (n : nat) :
  n = length a -> firstn n (a ++ b) = a.
Proof.
  intros ->. rewrite firstn_app, Nat.sub_diag, firstn_all. cbn.
  apply app_nil_r.
Qed.

Lemma skipn_exact (a b : list N) (n : nat) :
  n = length a -> skipn n (a ++ b) = b.
Proof. intros ->. rewrite skipn_app, Nat.sub_diag, skipn_all. reflexivity. Qed.

Lemma skipn_past (a b : list N) (n : nat) :
  length a <= n -> skipn n (a ++ b) = skipn (n - length a) b.
Proof.
  intros H. rewrite skipn_app, (skipn_all2 a H). reflexivity.
Qed.

(** A text with an opener and a fence after it, cut at the two. *)
Lemma closed_block_split (todo marker : list N) (i e : nat) :
  indexOf todo marker 0 = Some i ->
  indexOf todo fence (i + length marker) = Some e ->
  exists pre block rest,
    todo = pre ++ marker ++ block ++ fence ++ rest
    /\ length pre = i /\ length (pre ++ marker ++ block) = e.
Proof.
  intros H1 H2.
  apply indexOf_Some in H1 as (_ & Hlen1 & Hocc1 & _); [|lia].
  apply indexOf_Some in H2 as (Hge & Hlen2 & Hocc2 & _); [|lia].
  change (length fence) with 3 in Hlen2.
  pose proof (occurs_at_split _ _ _ Hocc1 ltac:(lia)) as E1.
  pose proof (occurs_at_split _ _ _ Hocc2 ltac:(lia)) as E2.
  change (length fence) with 3 in E2.
  exists (firstn i todo),
    (firstn (e - (i + length marker)) (skipn (i + length marker) todo)),
    (skipn (e + 3) todo).
  assert (L1 : length (firstn i todo) = i) by (rewrite length_firstn; lia).
  split; [|split; [exact L1|]].
  - etransitivity; [exact E1|]. do 2 f_equal.
    etransitivity;
      [symmetry; apply (firstn_skipn (e - (i + length marker)))|].
    f_equal. rewrite skipn_skipn.
    replace (e - (i + length marker) + (i + length marker)) with e by lia.
    destruct Hocc2 as (r & Hr). rewrite Hr. f_equal.
    rewrite <- (Nat.add_comm 3), <- skipn_skipn, Hr.
    rewrite (skipn_exact fence r 3 eq_refl). reflexivity.
  - rewrite !length_app, L1, length_firstn, length_skipn. lia.
Qed.

Lemma sanitize_loop_sanitized (label : list N) (n : nat) :
  forall todo done,
    length todo < n ->
    exists out,
      sanitize_loop (opener label) (done ++ todo)
        (indexOf (done ++ todo) (opener label) (length done))
      = done ++ out
      /\ sanitized label todo out.
Proof.
  induction n as [|n IH]; intros todo done Hn; [lia|].
  assert (Ei : indexOf (done ++ todo) (opener label) (length done)
               = option_map (Nat.add (length done))
                   (indexOf todo (opener label) 0))
    by (rewrite <- indexOf_app, Nat.add_0_r; reflexivity).
  rewrite Ei. clear Ei.
  destruct (indexOf todo (opener label) 0) as [i|] eqn:E1; cbn [option_map].
  2:{ exists todo. simp sanitize_loop. split; [reflexivity|].
      apply san_no_opener. exact E1. }
  simp sanitize_loop.
  assert (Ee : indexOf (done ++ todo) codeBlockEnd
                 (length done + i + length (opener label))
               = option_map (Nat.add (length done))
                   (indexOf todo fence (i + length (opener label))))
    by (rewrite <- indexOf_app, Nat.add_assoc; reflexivity).
  destruct (inspect (indexOf (done ++ todo) codeBlockEnd _))
    as [[eabs|] Heq]; simp sanitize_loop; rewrite Ee in Heq; clear Ee;
    destruct (indexOf todo fence (i + length (opener label))) as [e|] eqn:E2;
    try discriminate Heq.
  2:{ exists todo. split; [reflexivity|].
      apply (san_not_closed label todo i E1 E2). }
  cbn [option_map] in Heq. injection Heq as <-.
  destruct (closed_block_split _ _ _ _ E1 E2)
    as (pre & block & rest & Etodo & Lpre & Le).
  set (m := length (opener label)) in *.
  assert (Lb : e = length pre + m + length block)
    by (rewrite <- Le, !length_app; fold m; lia).
  assert (Ec : done ++ todo
               = (done ++ pre ++ opener label) ++ block ++ fence ++ rest)
    by (rewrite Etodo, <- !app_assoc; reflexivity).
  assert (Lh : length (done ++ pre ++ opener label) = length done + i + m)
    by (rewrite !length_app; fold m; lia).
  cbn zeta. unfold substring.
  rewrite Ec, (skipn_exact _ _ _ (eq_sym Lh)), (firstn_exact _ _ _ (eq_sym Lh)).
  rewrite (firstn_exact block _ (length done + e - (length done + i + m)))
    by lia.
  replace (skipn (length done + e)
             ((done ++ pre ++ opener label) ++ block ++ fence ++ rest))
    with (fence ++ rest)
    by (rewrite app_assoc; symmetry; apply skipn_exact;
        rewrite length_app, Lh; lia).
  set (san := replace_lineNumber true block).
  set (done' := done ++ pre ++ opener label ++ san ++ fence).
  replace ((done ++ pre ++ opener label) ++ san ++ fence ++ rest)
    with (done' ++ rest)
    by (unfold done'; rewrite <- !app_assoc; reflexivity).
  replace (length done + i + m + length san + length codeBlockEnd)
    with (length done')
    by (unfold done'; rewrite !length_app; fold m;
        change (length codeBlockEnd) with (length fence); lia).
  destruct (IH rest done') as (out & -> & Hout).
  { rewrite Etodo, !length_app in Hn. change (length fence) with 3 in Hn.
    lia. }
  exists (pre ++ opener label ++ san ++ fence ++ out).
  split; [unfold done'; rewrite <- !app_assoc; reflexivity|].
  rewrite Etodo. apply san_closed; [| |exact Hout].
  - rewrite <- Etodo, Lpre. exact E1.
  - rewrite <- Etodo, Lpre, Le. exact E2.
Qed.

(** [_sanitizeCodeBlock] changes the text inside the closed fences of its
    label, and nothing else. *)
Lemma sanitizeCodeBlock_sanitized (comment label : list N) :
  sanitized label comment (_sanitizeCodeBlock comment label).
Proof.
  destruct (sanitize_loop_sanitized label (S (length comment)) comment []
              ltac:(lia)) as (out & E & H).
  unfold _sanitizeCodeBlock. cbn [app length] in E.
  change (lit "```" ++ label) with (opener label). rewrite E. exact H.
Qed.


(** *** What stays *)

Lemma sanitized_no_fence (label text out : list N) :
  sanitized label text out ->
  (forall q, ~ occurs_at fence text q) -> out = text.
Proof.
  intros H Hno. destruct H as [| |pre block rest out text _ _ _];
    try reflexivity.
  exfalso. apply (Hno (length (pre ++ opener label ++ block))).
  exists rest. unfold text. rewrite !app_assoc.
  rewrite <- (app_assoc _ fence rest). apply skipn_exact.
  rewrite <- !app_assoc. reflexivity.
Qed.

(** Behind the last fence of the text nothing changes. *)
Lemma sanitized_keeps_suffix (label text out : list N) :
  sanitized label text out ->
  forall p,
    p <= length text ->
    (forall q, p < q -> ~ occurs_at fence text q) ->
    exists o, out = o ++ skipn p text.
Proof.
  induction 1 as [text _|text i _ _|pre block rest out text _ _ Hrest IH];
    intros p Hp Hno.
  - exists (firstn p text). symmetry. apply firstn_skipn.
  - exists (firstn p text). symmetry. apply firstn_skipn.
  - set (A := pre ++ opener label ++ block).
    assert (Et : text = A ++ fence ++ rest)
      by (unfold text, A; rewrite <- !app_assoc; reflexivity).
    assert (He : length A <= p).
    { destruct (Nat.le_gt_cases (length A) p) as [H|H]; [exact H|].
      exfalso. apply (Hno (length A) H). exists rest. rewrite Et.
      apply skipn_exact. reflexivity. }
    assert (Lt : length text = length A + 3 + length rest)
      by (rewrite Et, !length_app; change (length fence) with 3; lia).
    assert (Eo : pre ++ opener label ++ replace_lineNumber true block
                 ++ fence ++ out
                 = (pre ++ opener label ++ replace_lineNumber true block)
                   ++ fence ++ out)
      by (rewrite <- !app_assoc; reflexivity).
    rewrite Eo. clear Eo.
    set (A' := pre ++ opener label ++ replace_lineNumber true block).
    destruct (Nat.le_gt_cases (length A + 3) p) as [Hfar|Hnear].
    + destruct (IH (p - length A - 3)) as (o & ->); [lia| |].
      * intros q Hq Hocc. apply (Hno (length (A ++ fence) + q)).
        -- rewrite length_app. change (length fence) with 3. lia.
        -- rewrite Et, app_assoc. apply occurs_at_app. exact Hocc.
      * exists (A' ++ fence ++ o). rewrite <- !app_assoc. do 3 f_equal.
        rewrite Et, app_assoc, skipn_past
          by (rewrite length_app; change (length fence) with 3; lia).
        rewrite length_app. change (length fence) with 3. f_equal. lia.
    + assert (Hout : out = rest).
      { apply (sanitized_no_fence label rest out Hrest).
        intros q Hocc. apply (Hno (length (A ++ fence) + q)).
        - rewrite length_app. change (length fence) with 3. lia.
        - rewrite Et, app_assoc. apply occurs_at_app. exact Hocc. }
      subst out. exists (A' ++ firstn (p - length A) fence).
      rewrite Et, skipn_past by lia.
      rewrite skipn_app. change (length fence) with 3.
      replace (p - length A - 3) with 0 by lia. cbn [skipn].
      rewrite <- !app_assoc. f_equal.
      rewrite (app_assoc (firstn _ fence)), firstn_skipn. reflexivity.
Qed.

(** Behind an opener whose label holds no backtick, a fence can only start
    after the label. *)
Lemma opener_last_fence (text l : list N) (p : nat) :
  l <> [] -> ~ In backtick l ->
  occurs_at (opener l) text p ->
  (forall q, p + length (opener l) <= q -> ~ occurs_at fence text q) ->
  forall q, p < q -> ~ occurs_at fence text q.
Proof.
  intros Hne Hbt (r & Hr) Hno q Hq (r' & Hr').
  destruct (Nat.le_gt_cases (p + length (opener l)) q) as [H|H];
    [apply (Hno q H); exists r'; exact Hr'|].
  unfold opener in *. rewrite length_app in H. change (length fence) with 3 in H.
  replace q with ((q - p) + p) in Hr' by lia.
  rewrite <- skipn_skipn, Hr, <- app_assoc in Hr'.
  destruct l as [|c l]; [contradiction|].
  assert (Hc : c <> backtick) by (intros ->; apply Hbt; left; reflexivity).
  destruct (q - p) as [|[|[|k]]] eqn:Ek; [lia| | |].
  - cbn in Hr'. injection Hr' as E _. apply Hc. exact E.
  - cbn in Hr'. injection Hr' as E _. apply Hc. exact E.
  - change (skipn k ((c :: l) ++ r) = fence ++ r') in Hr'.
    cbn [length] in H.
    rewrite skipn_app in Hr'.
    replace (k - length (c :: l)) with 0 in Hr' by (cbn [length]; lia).
    cbn [skipn] in Hr'.
    destruct (skipn k (c :: l)) as [|c' t] eqn:Es.
    + apply (f_equal (@length N)) in Es. rewrite length_skipn in Es.
      cbn [length] in Es. lia.
    + assert (Hin : In c' (c :: l)).
      { rewrite <- (firstn_skipn k (c :: l)), Es. apply in_or_app. right.
        left. reflexivity. }
      cbn in Hr'. injection Hr' as E _. subst c'. apply Hbt. exact Hin.
Qed.

Lemma sanitizeCodeBlock_keeps_suffix (comment label : list N) (p : nat) :
  p <= length comment ->
  (forall q, p < q -> ~ occurs_at fence comment q) ->
  exists o, _sanitizeCodeBlock comment label = o ++ skipn p comment.
Proof.
  intros Hp Hno.
  exact (sanitized_keeps_suffix label comment _
           (sanitizeCodeBlock_sanitized comment label) p Hp Hno).
Qed.

(** C10.  [_sanitizeCodeBlock] strips the line numbers only inside the
    fenced blocks that are opened with its label and closed, found from
    left to right; every other part of the text, the fences themselves
    included, comes back as it was.  In particular the text from an opener
    [```suggestion] or [```diff] with no closing fence behind it up to the
    end of the input is returned unchanged, by [_sanitizeCodeBlock] for any
    label and by the two passes of [_sanitizeResponse]. *)
Theorem sanitizeCodeBlock_only_closed_fences (comment label : list N) :
  sanitized label comment (_sanitizeCodeBlock comment label)
  /\ (forall p l,
        l = lit "suggestion" \/ l = lit "diff" ->
        occurs_at (opener l) comment p ->
        (forall q, p + length (opener l) <= q ->
                   ~ occurs_at fence comment q) ->
        (exists o, _sanitizeCodeBlock comment label = o ++ skipn p comment)
        /\ (exists o, _sanitizeResponse comment = o ++ skipn p comment)).
Proof.
  split; [apply sanitizeCodeBlock_sanitized|].
  intros p l Hl Hocc Hno.
  assert (Hlast : forall q, p < q -> ~ occurs_at fence comment q).
  { apply (opener_last_fence comment l p); try assumption;
      destruct Hl as [->| ->]; try discriminate;
      cbn; intuition discriminate. }
  assert (Hp : p <= length comment).
  { destruct Hocc as (r & Hr). apply (f_equal (@length N)) in Hr.
    rewrite length_skipn, length_app in Hr.
    assert (0 < length (opener l))
      by (unfold opener; rewrite length_app; cbn; lia).
    lia. }
  split; [apply sanitizeCodeBlock_keeps_suffix; assumption|].
  unfold _sanitizeResponse.
  destruct (sanitizeCodeBlock_keeps_suffix comment (lit "suggestion") p
              Hp Hlast) as (o1 & E1).
  destruct (sanitizeCodeBlock_keeps_suffix
              (_sanitizeCodeBlock comment (lit "suggestion")) (lit "diff")
              (length o1)) as (o2 & E2).
  - rewrite E1, length_app. lia.
  - intros q Hq Hoc. rewrite E1 in Hoc.
    replace q with (length o1 + (q - length o1)) in Hoc by lia.
    apply occurs_at_app, occurs_at_skipn in Hoc.
    apply (Hlast (p + (q - length o1))); [lia | exact Hoc].
  - exists o2. rewrite E2. f_equal. rewrite E1.
    apply skipn_exact. reflexivity.
Qed.

Lemma sanitizeCodeBlock_only_closed_fences_witness :
  exists o, _sanitizeResponse two_blocks = o ++ skipn 23 two_blocks.
Proof.
  destruct (sanitizeCodeBlock_only_closed_fences two_blocks (lit "diff"))
    as [_ H].
  apply (H 23 (lit "diff")).
  - right. reflexivity.
  - eexists. reflexivity.
  - apply indexOf_None; [vm_compute; lia | vm_compute; reflexivity].
Defined.

End SanitizeFacts.


(* ===================================================================== *)
(** ** IncrementalRangeTracker *)
(* ===================================================================== *)

Module RangeFacts.

Import Range RangeSpec LineFacts.

Lemma most_recent_match_spec (commitIds reviewedCommitIds : list (list N)) :
  (reviewed_commits commitIds reviewedCommitIds = []
   /\ most_recent_match commitIds reviewedCommitIds = [])
  \/ exists pre id,
       reviewed_commits commitIds reviewedCommitIds = pre ++ [id]
       /\ most_recent_match commitIds reviewedCommitIds = id.
Proof.
  unfold most_recent_match. fold (reviewed_commits commitIds reviewedCommitIds).
  destruct (rev (reviewed_commits commitIds reviewedCommitIds))
    as [|id r] eqn:E.
  - left. split; [|reflexivity].
    apply (f_equal (@rev (list N))) in E. rewrite rev_involutive in E.
    exact E.
  - right. exists (rev r), id. split; [|reflexivity].
    apply (f_equal (@rev (list N))) in E. rewrite rev_involutive in E.
    exact E.
Qed.

Lemma reviewed_commits_none (commitIds : list (list N)) :
  reviewed_commits commitIds [] = [].
Proof.
  unfold reviewed_commits. induction commitIds; [reflexivity|exact IHcommitIds].
Qed.

(** C7 (as amended).  [getHighestReviewedCommitId] returns the base sha
    when the persisted block is empty, when no commit of the branch is
    among the previously reviewed ids, as when there are none, and when the
    most recent reviewed commit of the branch is the head sha; in every
    other case it returns that most recent reviewed commit.  The first part
    holds for any commenter, on the id its matching method returns, with
    the empty string for no match. *)
Theorem getHighestReviewedCommitId_cases (commenter : Commenter)
    (commitIds : list (list N)) (decode : list N -> list (list N))
    (block head_sha base_sha : list N) :
  let found :=
    commenter_getHighestReviewedCommitId commenter
      (getAllCommitIds commenter) (getReviewedCommitIds commenter block) in
  let result := getHighestReviewedCommitId commenter block head_sha base_sha in
  let matches := reviewed_commits commitIds (decode block) in
  let spec_result :=
    getHighestReviewedCommitId (spec_commenter commitIds decode) block
      head_sha base_sha in
  (block = [] \/ found = [] \/ found = head_sha -> result = base_sha)
  /\ (block <> [] -> found <> [] -> found <> head_sha -> result = found)
  /\ (block = [] -> spec_result = base_sha)
  /\ (decode block = [] -> spec_result = base_sha)
  /\ (matches = [] -> spec_result = base_sha)
  /\ (forall pre, matches = pre ++ [head_sha] -> spec_result = base_sha)
  /\ (forall pre id,
        block <> [] -> matches = pre ++ [id] -> id <> [] -> id <> head_sha ->
        spec_result = id).
Proof.
  cbn zeta.
  assert (General : forall c : Commenter,
    let found :=
      commenter_getHighestReviewedCommitId c (getAllCommitIds c)
        (getReviewedCommitIds c block) in
    (block = [] \/ found = [] \/ found = head_sha ->
     getHighestReviewedCommitId c block head_sha base_sha = base_sha)
    /\ (block <> [] -> found <> [] -> found <> head_sha ->
        getHighestReviewedCommitId c block head_sha base_sha = found)).
  { intros c found. unfold getHighestReviewedCommitId. fold found.
    destruct (str_eqb block []) eqn:Eb; cbn [negb].
    - apply str_eqb_spec in Eb. split; [reflexivity|contradiction].
    - destruct (str_eqb found []) eqn:Ef; cbn [orb].
      + apply str_eqb_spec in Ef. split; [reflexivity|contradiction].
      + destruct (str_eqb found head_sha) eqn:Eh.
        * apply str_eqb_spec in Eh. split; [reflexivity|contradiction].
        * split; [|reflexivity].
          intros [->|[E|E]]; [discriminate Eb| |];
            apply str_eqb_spec in E; congruence. }
  destruct (General commenter) as [G1 G2].
  destruct (General (spec_commenter commitIds decode)) as [S1 S2].
  cbn [spec_commenter commenter_getHighestReviewedCommitId getAllCommitIds
       getReviewedCommitIds] in S1, S2.
  split; [exact G1|]. split; [exact G2|].
  split; [intros E; apply S1; left; exact E|].
  destruct (most_recent_match_spec commitIds (decode block))
    as [[Hm Hf]|(pre & id & Hm & Hf)].
  - split; [intros _; apply S1; right; left; exact Hf|].
    split; [intros _; apply S1; right; left; exact Hf|].
    split; [intros pre E; rewrite Hm in E; destruct pre; discriminate|].
    intros pre id _ E. rewrite Hm in E. destruct pre; discriminate.
  - split.
    { intros E. rewrite E, reviewed_commits_none in Hm.
      destruct pre; discriminate. }
    split; [intros E; rewrite E in Hm; destruct pre; discriminate|].
    split.
    { intros pre' E. rewrite E in Hm. apply app_inj_tail in Hm as [_ <-].
      apply S1. right; right. exact Hf. }
    intros pre' id' Hb E Hne Hnh. rewrite E in Hm.
    apply app_inj_tail in Hm as [_ <-]. rewrite <- Hf. apply S2; congruence.
Qed.

(** A branch of three commits of which the first two were reviewed: the
    review resumes from the second. *)
Lemma getHighestReviewedCommitId_cases_witness :
  getHighestReviewedCommitId
    (line_commenter [lit "c1"; lit "c2"; lit "c3"])
    (join_nl [lit "c1"; lit "c2"]) (lit "c3") (lit "b0")
  = lit "c2".
Proof.
  destruct (getHighestReviewedCommitId_cases
              (line_commenter [lit "c1"; lit "c2"; lit "c3"])
              [lit "c1"; lit "c2"; lit "c3"] split_nl
              (join_nl [lit "c1"; lit "c2"]) (lit "c3") (lit "b0"))
    as (_ & _ & _ & _ & _ & _ & H).
  apply (H [lit "c1"] (lit "c2")); try discriminate. reflexivity.
Defined.

(** C7, as stated, leaves out a case: after a rewrite of the branch's
    history the previously reviewed commit [c1] is not on the branch any
    more.  The set of reviewed ids is not empty and no match equals the
    head sha, yet the base sha is returned, which is no commit of the
    branch, and not a matched commit id. *)
Lemma getHighestReviewedCommitId_no_match :
  split_nl (lit "c1") = [lit "c1"]
  /\ reviewed_commits [lit "d1"; lit "d2"] [lit "c1"] = []
  /\ most_recent_match [lit "d1"; lit "d2"] [lit "c1"] <> lit "d2"
  /\ getHighestReviewedCommitId (line_commenter [lit "d1"; lit "d2"])
       (lit "c1") (lit "d2") (lit "b0")
     = lit "b0"
  /\ ~ In (lit "b0") [lit "d1"; lit "d2"].
Proof.
  repeat split; try reflexivity; try discriminate.
  cbn. intros [H|[H|[]]]; discriminate.
Qed.

End RangeFacts.

(* ===================================================================== *)
(** * Further properties of the code *)
(* ===================================================================== *)

(* ===================================================================== *)
(** ** Raw hunks and the units built from them *)
(* ===================================================================== *)

Module HunkFacts.

Import Diff DiffSpec HunkSpec.
Import ReviewSpec.

Lemma filter_seq_head (f : nat -> bool) (n a i : nat) (rest : list nat) :
  filter f (seq a n) = i :: rest ->
  a <= i < a + n /\ f i = true
  /\ rest = filter f (seq (S i) (a + n - S i)).
Proof.
  revert a; induction n as [|n IH]; intros a; cbn [seq filter];
    [discriminate|].
  destruct (f a) eqn:Ea.
  - intros [= <- <-]. split; [lia|]. split; [exact Ea|].
    f_equal. f_equal. lia.
  - intros H. apply IH in H as (Hi & Hf & ->). split; [lia|].
    split; [exact Hf|]. f_equal. f_equal. lia.
Qed.

(** A header is still matched in a prefix of the text that holds all of
    it. *)
Lemma hunk_header_cut (s r : list N)
    (caps : list N * list N * list N * list N) (k : nat) :
  hunk_header s = Some (caps, r) -> length s - length r <= k ->
  exists r', hunk_header (firstn k s) = Some (caps, r').
Proof.
  destruct caps as [[[a b] c] d]. intros H Hk.
  apply DiffFacts.hunk_header_spec in H as (-> & Ha & Hb & Hc & Hd).
  rewrite length_app in Hk.
  exists (firstn (k - length (header_text a b c d)) r).
  apply DiffFacts.hunk_header_spec.
  refine (conj _ (conj Ha (conj Hb (conj Hc Hd)))).
  rewrite firstn_app, firstn_all2 by lia. reflexivity.
Qed.

(** The raw hunk cut between two header lines begins with the first of
    them. *)
Lemma substring_header (patch : list N) (i j : nat) (r : list N)
    (caps : list N * list N * list N * list N) :
  i < j -> line_start patch j = true ->
  hunk_header (skipn i patch) = Some (caps, r) ->
  exists r', hunk_header (substring patch i j) = Some (caps, r').
Proof.
  intros Hij Hj H. unfold substring.
  apply (hunk_header_cut _ _ _ _ H).
  destruct (DiffFacts.hunk_header_prefix _ _ _ H) as (hdr & E & Hne & Hh).
  assert (Hi : i < length patch).
  { destruct (Nat.lt_ge_cases i (length patch)) as [Hi|Hi]; [exact Hi|].
    rewrite skipn_all2 in H by exact Hi. discriminate. }
  rewrite E, length_app.
  assert (Hp : patch = firstn i patch ++ hdr ++ r)
    by (rewrite <- E; symmetry; apply firstn_skipn).
  rewrite Hp in Hj.
  apply DiffFacts.one_line_not_line_start in Hj;
    [|exact Hh | rewrite length_firstn; lia].
  rewrite length_firstn in Hj. lia.
Qed.

(** The raw hunks, one by one against the header positions: each begins
    with the header that stands at its position, and together they are
    the text from the first position on. *)
Lemma pieces_headers (patch : list N) (n : nat) :
  forall a, a + n = length patch ->
    let cuts := filter (header_at patch) (seq a n) in
    Forall2
      (fun i hunk =>
         exists caps r r',
           hunk_header (skipn i patch) = Some (caps, r)
           /\ hunk_header hunk = Some (caps, r'))
      cuts (pieces patch cuts)
    /\ concat (pieces patch cuts)
       = match cuts with [] => [] | i :: _ => skipn i patch end.
Proof.
  induction n as [n IH] using lt_wf_ind. intros a Ha cuts.
  destruct cuts as [|i rest] eqn:E; [split; [constructor|reflexivity]|].
  unfold cuts in E. apply filter_seq_head in E as (Hi & Hat & Hrest).
  assert (Hhdr : exists caps r,
             hunk_header (skipn i patch) = Some (caps, r)).
  { unfold header_at in Hat. apply andb_true_iff in Hat as [_ Hat].
    destruct (hunk_header (skipn i patch)) as [[caps r]|];
      [eauto | discriminate]. }
  destruct Hhdr as (caps & r & Hhdr).
  destruct (IH (a + n - S i) ltac:(lia) (S i) ltac:(lia)) as [IH1 IH2].
  rewrite <- Hrest in IH1, IH2.
  destruct rest as [|j rest'] eqn:Er.
  - cbn [pieces concat]. rewrite app_nil_r. split; [|reflexivity].
    constructor; [|constructor]. exists caps, r, r. split; assumption.
  - symmetry in Hrest. apply filter_seq_head in Hrest as (Hj & Hjat & _).
    change (pieces patch (i :: j :: rest'))
      with (substring patch i j :: pieces patch (j :: rest')).
    split.
    + constructor; [|exact IH1].
      unfold header_at in Hjat. apply andb_true_iff in Hjat as [Hjs _].
      destruct (substring_header patch i j r caps ltac:(lia) Hjs Hhdr)
        as (r' & Hr').
      exists caps, r, r'. split; assumption.
    + cbn [concat]. rewrite IH2. unfold substring.
      rewrite <- (firstn_skipn (j - i) (skipn i patch)) at 2.
      rewrite skipn_skipn. replace (j - i + i) with j by lia.
      reflexivity.
Qed.

Lemma splitPatch_headers (patch : list N) :
  Forall2
    (fun i hunk =>
       exists caps r r',
         hunk_header (skipn i patch) = Some (caps, r)
         /\ hunk_header hunk = Some (caps, r'))
    (header_positions patch) (splitPatch (Some patch)).
Proof.
  rewrite DiffFacts.splitPatch_pieces.
  apply (pieces_headers patch (length patch) 0 eq_refl).
Qed.

(** X1.  The raw hunks [splitPatch] returns, put together again, are the
    diff text from its first header line on: the text before that line is
    dropped and nothing else is lost or added.  Every raw hunk begins
    with a hunk header. *)
Theorem splitPatch_reassembles (patch : list N) :
  concat (splitPatch (Some patch))
  = match header_positions patch with
    | [] => []
    | i :: _ => skipn i patch
    end
  /\ Forall (fun hunk => is_some (hunk_header hunk) = true)
       (splitPatch (Some patch)).
Proof.
  split.
  - rewrite DiffFacts.splitPatch_pieces.
    apply (pieces_headers patch (length patch) 0 eq_refl).
  - pose proof (splitPatch_headers patch) as H.
    induction H as [|i hunk cuts hunks (caps & r & r' & _ & Hh) _ IH];
      constructor; [rewrite Hh; reflexivity | exact IH].
Qed.

Lemma scan_headers_ge (s : list N) (bol : bool) (i j : nat) :
  In j (scan_headers bol i s) -> i <= j.
Proof.
  revert bol i; induction s as [|c s IH]; intros bol i; [intros []|].
  cbn [scan_headers]. intros H. apply in_app_or in H as [H|H].
  - destruct (bol && is_some (hunk_header (c :: s))); [|destruct H].
    destruct H as [<-|[]]. lia.
  - apply IH in H. lia.
Qed.

(** The search of [patchStartEndLine] stops at the first header line. *)
Lemma header_search_scan (s : list N) (bol : bool) (i : nat) :
  header_search bol s
  = match scan_headers bol i s with
    | [] => None
    | j :: _ => option_map fst (hunk_header (skipn (j - i) s))
    end.
Proof.
  revert bol i; induction s as [|c s IH]; intros bol i.
  - destruct bol; reflexivity.
  - cbn [header_search scan_headers].
    assert (Hnext : header_search (is_line_terminator c) s
                    = match scan_headers (is_line_terminator c) (S i) s with
                      | [] => None
                      | j :: _ =>
                          option_map fst (hunk_header (skipn (j - i) (c :: s)))
                      end).
    { rewrite (IH _ (S i)).
      destruct (scan_headers (is_line_terminator c) (S i) s) as [|j l] eqn:E;
        [reflexivity|].
      assert (Hj : S i <= j)
        by (apply (scan_headers_ge s (is_line_terminator c)); rewrite E;
            left; reflexivity).
      replace (j - i) with (S (j - S i)) by lia. reflexivity. }
    destruct bol; cbn [andb]; [|exact Hnext].
    destruct (hunk_header (c :: s)) as [[caps r]|] eqn:E; cbn [is_some app].
    + rewrite Nat.sub_diag. cbn [skipn]. rewrite E. reflexivity.
    + exact Hnext.
Qed.

Lemma patchStartEndLine_scan (patch : list N) :
  patchStartEndLine patch
  = match header_positions patch with
    | [] => None
    | i :: _ =>
        match hunk_header (skipn i patch) with
        | Some (a, b, c, d, _) =>
            Some (mkHunkInfo
                    (mkRange (parseInt a) (parseInt a + parseInt b - 1))
                    (mkRange (parseInt c) (parseInt c + parseInt d - 1)))
        | None => None
        end
    end.
Proof.
  unfold patchStartEndLine.
  rewrite (header_search_scan patch true 0), DiffFacts.header_positions_scan.
  destruct (scan_headers true 0 patch) as [|i rest]; [reflexivity|].
  rewrite Nat.sub_0_r.
  destruct (hunk_header (skipn i patch)) as [[[[[a b] c] d] r]|];
    reflexivity.
Qed.

(** X2.  [patchStartEndLine] returns [null] exactly for a text without a
    hunk-header line.  Otherwise the first header line of the text decides,
    wherever it stands: for [@@ -a,b +c,d @@] the old range is
    [a .. a+b-1] and the new range [c .. c+d-1].  The four numbers are not
    negative, so a range ends at the line before its start when its count
    is zero, and never earlier. *)
Theorem patchStartEndLine_first_header (patch : list N) :
  (patchStartEndLine patch = None <-> header_positions patch = [])
  /\ (forall i rest,
        header_positions patch = i :: rest ->
        exists a b c d r,
          skipn i patch = header_text a b c d ++ r
          /\ digits a /\ digits b /\ digits c /\ digits d
          /\ patchStartEndLine patch
             = Some (mkHunkInfo
                       (mkRange (parseInt a) (parseInt a + parseInt b - 1))
                       (mkRange (parseInt c) (parseInt c + parseInt d - 1)))
          /\ (0 <= parseInt a /\ 0 <= parseInt b
              /\ 0 <= parseInt c /\ 0 <= parseInt d)%Z).
Proof.
  assert (Hfirst : forall i rest,
             header_positions patch = i :: rest ->
             exists a b c d r,
               hunk_header (skipn i patch) = Some (a, b, c, d, r)).
  { intros i rest E. unfold header_positions in E.
    apply filter_seq_head in E as (_ & Hat & _).
    unfold header_at in Hat. apply andb_true_iff in Hat as [_ Hat].
    destruct (hunk_header (skipn i patch)) as [[[[[a b] c] d] r]|];
      [|discriminate].
    exists a, b, c, d, r. reflexivity. }
  split.
  - rewrite patchStartEndLine_scan.
    destruct (header_positions patch) as [|i rest] eqn:E;
      [split; reflexivity|].
    destruct (Hfirst i rest eq_refl) as (a & b & c & d & r & H).
    rewrite H. split; discriminate.
  - intros i rest E. rewrite patchStartEndLine_scan, E.
    destruct (Hfirst i rest E) as (a & b & c & d & r & H).
    rewrite H. exists a, b, c, d, r.
    apply DiffFacts.hunk_header_spec in H as (Hs & Ha & Hb & Hc & Hd).
    repeat (split; [assumption|]).
    split; [reflexivity|].
    repeat split; apply AnnotateFacts.parseInt_nonneg;
      [apply Ha | apply Hb | apply Hc | apply Hd].
Qed.

(** A diff that opens with a file header: the range is read from the
    hunk header on its second line. *)
Lemma patchStartEndLine_first_header_witness :
  exists a b c d r,
    skipn 5 two_headers = header_text a b c d ++ r
    /\ digits a /\ digits b /\ digits c /\ digits d
    /\ patchStartEndLine two_headers
       = Some (mkHunkInfo
                 (mkRange (parseInt a) (parseInt a + parseInt b - 1))
                 (mkRange (parseInt c) (parseInt c + parseInt d - 1)))
    /\ (0 <= parseInt a /\ 0 <= parseInt b
        /\ 0 <= parseInt c /\ 0 <= parseInt d)%Z.
Proof.
  apply (proj2 (patchStartEndLine_first_header two_headers) 5 [21]).
  reflexivity.
Defined.

(** The units of a file, hunk by hunk. *)
Lemma file_patches_units (patch : list N) :
  map Some (file_patches (Some patch))
  = map unit_of (splitPatch (Some patch))
  /\ map (fun p => Some (pStart p, pEnd p)) (file_patches (Some patch))
     = map (header_range patch) (header_positions patch).
Proof.
  unfold file_patches.
  pose proof (splitPatch_headers patch) as H.
  induction H as [|i hunk cuts hunks (caps & r & r' & Hi & Hh) _ [IH1 IH2]];
    [split; reflexivity|].
  destruct caps as [[[a b] c] d].
  assert (Hp : patchStartEndLine hunk
               = Some (mkHunkInfo
                         (mkRange (parseInt a) (parseInt a + parseInt b - 1))
                         (mkRange (parseInt c)
                            (parseInt c + parseInt d - 1)))).
  { unfold patchStartEndLine.
    rewrite (AnnotateFacts.header_search_here _ _ _ Hh). reflexivity. }
  cbn [flat_map map]. unfold unit_of at 1, header_range at 1.
  rewrite Hi, Hp, (AnnotateFacts.parsePatch_annotate _ _ Hp).
  cbn [app map]. rewrite IH1, IH2. split; reflexivity.
Qed.

(** X4.  The units [codeReview] builds for a file come one per raw hunk,
    in order, and so one per hunk-header line of the diff: a raw hunk is
    never skipped, since each begins with a header that
    [patchStartEndLine] and [parsePatch] read.  The range of a unit is the
    new-file range [c .. c+d-1] of its header line; its start is not
    negative and its end is not before the line that precedes its start.
    Without a diff there is no unit. *)
Theorem file_patches_one_unit_per_hunk (patch : list N) :
  file_patches None = []
  /\ map Some (file_patches (Some patch))
     = map unit_of (splitPatch (Some patch))
  /\ map (fun p => Some (pStart p, pEnd p)) (file_patches (Some patch))
     = map (header_range patch) (header_positions patch)
  /\ length (file_patches (Some patch)) = length (header_positions patch)
  /\ Forall (fun p => (0 <= pStart p /\ pStart p - 1 <= pEnd p)%Z)
       (file_patches (Some patch)).
Proof.
  destruct (file_patches_units patch) as [H1 H2].
  split; [reflexivity|]. split; [exact H1|]. split; [exact H2|]. split.
  - rewrite <- (length_map (fun p => Some (pStart p, pEnd p))), H2.
    apply length_map.
  - apply Forall_forall. intros p Hp.
    apply (in_map Some) in Hp. rewrite H1 in Hp.
    apply in_map_iff in Hp as (hunk & Hu & _).
    unfold unit_of in Hu.
    destruct (patchStartEndLine hunk) as [info|] eqn:E; [|discriminate].
    destruct (parsePatch hunk); [|discriminate].
    injection Hu as <-.
    exact (AnnotateFacts.patchStartEndLine_range _ _ E).
Qed.

(** A header line that leaves out a count does not match the pattern. *)
Lemma header_line_not_header (a c : list N) (b d : option (list N))
    (r : list N) :
  digits a -> digits c ->
  (forall k, b = Some k -> digits k) ->
  b = None \/ d = None ->
  hunk_header (header_line a b c d ++ r) = None.
Proof.
  intros [Na Da] [Nc Dc] Hb Hnone.
  unfold hunk_header, header_line, side.
  repeat rewrite <- app_assoc. rewrite expect_app. cbn [obind].
  destruct b as [k|].
  - destruct Hnone as [Hnone| ->]; [discriminate|].
    destruct (Hb k eq_refl) as [Nk Dk].
    repeat rewrite <- app_assoc.
    rewrite digits1_app
      by (assumption || (simpl; intros ? ? [= <- _]; reflexivity)).
    cbn [obind]. rewrite expect_app. cbn [obind].
    rewrite digits1_app
      by (assumption || (simpl; intros ? ? [= <- _]; reflexivity)).
    cbn [obind]. rewrite expect_app. cbn [obind].
    cbn [app]. rewrite digits1_app
      by (assumption || (simpl; intros ? ? [= <- _]; reflexivity)).
    reflexivity.
  - cbn [app]. rewrite digits1_app
      by (assumption || (simpl; intros ? ? [= <- _]; reflexivity)).
    reflexivity.
Qed.

(** A line that does not begin with [@@ -] is no header line, whether the
    text ends with it or goes on with a newline. *)
Lemma plain_line_not_header (l rest : list N) :
  startsWith l (lit "@@ -") = false ->
  rest = [] \/ (exists t, rest = nl :: t) ->
  hunk_header (l ++ rest) = None.
Proof.
  intros Hl Hrest. unfold hunk_header.
  assert (E : expect "@@ -" (l ++ rest) = None); [|rewrite E; reflexivity].
  unfold startsWith in Hl. unfold expect.
  change (lit "@@ -") with [64; 64; 32; 45]%N in *.
  destruct Hrest as [->|(t & ->)];
    destruct l as [|x1 [|x2 [|x3 [|x4 l]]]]; cbn [app strip_prefix] in *;
    repeat match goal with
           | |- context [char_eqb ?x ?y] =>
               destruct (char_eqb x y) eqn:?; try discriminate
           end;
    reflexivity.
Qed.

(** The scan over one line that is no header line. *)
Lemma scan_headers_plain_line (l rest : list N) (b : bool) (i : nat) :
  one_line l -> hunk_header (l ++ rest) = None ->
  rest = [] \/ (exists t, rest = nl :: t) ->
  scan_headers b i (l ++ rest)
  = match rest with
    | [] => []
    | _ :: t => scan_headers true (i + length l + 1) t
    end.
Proof.
  intros Hl Hh Hrest.
  assert (Heol : forall j,
             scan_headers false j rest
             = match rest with
               | [] => []
               | _ :: t => scan_headers true (j + 1) t
               end).
  { intros j. destruct Hrest as [->|(t & ->)]; [reflexivity|].
    cbn [scan_headers andb app]. f_equal. lia. }
  destruct l as [|c l].
  - cbn [app length] in *. rewrite Nat.add_0_r, <- Heol.
    destruct rest as [|x t]; [reflexivity|].
    cbn [scan_headers]. rewrite Hh, andb_false_r. reflexivity.
  - cbn [app scan_headers]. cbn [app] in Hh. rewrite Hh, andb_false_r.
    unfold one_line in Hl. cbn [forallb] in Hl.
    apply andb_true_iff in Hl as [Hc Hl]. apply negb_true_iff in Hc.
    rewrite Hc. cbn [app]. rewrite DiffFacts.scan_headers_one_line by exact Hl.
    rewrite Heol. cbn [length].
    destruct rest; [reflexivity|]. f_equal. lia.
Qed.

Lemma scan_headers_plain_lines (body : list (list N)) (i : nat) :
  Forall (fun l => one_line l /\ startsWith l (lit "@@ -") = false) body ->
  scan_headers true i (join_nl body) = [].
Proof.
  intros H. revert i. induction H as [|l body [Hl Hs] Hbody IH]; intros i;
    [reflexivity|].
  destruct body as [|l2 body].
  - cbn [join_nl]. rewrite <- (app_nil_r l).
    rewrite scan_headers_plain_line;
      [reflexivity | exact Hl
      | apply plain_line_not_header; [exact Hs | left; reflexivity]
      | left; reflexivity].
  - change (join_nl (l :: l2 :: body)) with (l ++ nl :: join_nl (l2 :: body)).
    rewrite scan_headers_plain_line;
      [apply IH | exact Hl
      | apply plain_line_not_header; [exact Hs | right; eexists; reflexivity]
      | right; eexists; reflexivity].
Qed.

(** X3.  A header line that leaves out a count, as git writes it for a
    side of one line ([@@ -a +c @@], [@@ -a,b +c @@], [@@ -a +c,d @@]),
    is not a hunk-header line for the splitter: a diff whose only header
    line is of this form gives no raw hunk, no range, no annotated hunk
    and no unit, whatever its body. *)
Theorem countless_header_not_split (a c : list N) (b d : option (list N))
    (title : list N) (body : list (list N)) :
  digits a -> digits c ->
  (forall k, b = Some k -> digits k) -> (forall k, d = Some k -> digits k) ->
  b = None \/ d = None ->
  one_line title ->
  Forall (fun l => one_line l /\ startsWith l (lit "@@ -") = false) body ->
  let patch := header_line a b c d ++ title ++ [nl] ++ join_nl body in
  splitPatch (Some patch) = []
  /\ patchStartEndLine patch = None
  /\ parsePatch patch = None
  /\ file_patches (Some patch) = [].
Proof.
  intros Ha Hc Hb Hd Hnone Htitle Hbody patch.
  assert (Hside : forall s k,
             digits s -> (forall x, k = Some x -> digits x) ->
             one_line (side s k)).
  { intros s k Hs Hk. unfold one_line, side. rewrite forallb_app.
    rewrite (forallb_digits_one_line _ (proj2 Hs)).
    destruct k as [x|]; [|reflexivity]. rewrite forallb_app.
    rewrite (forallb_digits_one_line _ (proj2 (Hk x eq_refl))).
    reflexivity. }
  assert (Hline : one_line (header_line a b c d ++ title)).
  { unfold one_line, header_line in *. rewrite !forallb_app.
    rewrite (Hside a b Ha Hb), (Hside c d Hc Hd), Htitle. reflexivity. }
  assert (Hpos : header_positions patch = []).
  { rewrite DiffFacts.header_positions_scan. unfold patch.
    rewrite app_assoc. cbn [app].
    rewrite scan_headers_plain_line;
      [apply scan_headers_plain_lines; exact Hbody | exact Hline
      | rewrite <- app_assoc; apply header_line_not_header; assumption
      | right; eexists; reflexivity]. }
  assert (Hsplit : splitPatch (Some patch) = [])
    by (rewrite DiffFacts.splitPatch_pieces, Hpos; reflexivity).
  assert (Hrange : patchStartEndLine patch = None)
    by (rewrite patchStartEndLine_scan, Hpos; reflexivity).
  split; [exact Hsplit|]. split; [exact Hrange|]. split.
  - unfold parsePatch. rewrite Hrange. reflexivity.
  - unfold file_patches. rewrite Hsplit. reflexivity.
Qed.

(** The change of one line into another, as git writes it: no unit. *)
Lemma countless_header_not_split_witness :
  splitPatch (Some one_line_change) = []
  /\ file_patches (Some one_line_change) = [].
Proof.
  destruct (countless_header_not_split (lit "1") (lit "1") None None []
              (map lit ["-a"; "+b"]%string)) as (H1 & _ & _ & H4).
  - split; [discriminate|reflexivity].
  - split; [discriminate|reflexivity].
  - discriminate.
  - discriminate.
  - left; reflexivity.
  - reflexivity.
  - repeat constructor.
  - split; [exact H1 | exact H4].
Defined.

End HunkFacts.

(* ===================================================================== *)
(** ** Annotated hunks *)
(* ===================================================================== *)

Module NumberingFacts.

Import Diff DiffSpec HunkSpec.

Lemma added_not_removed (line : list N) :
  is_added line = true -> is_removed line = false.
Proof.
  intros H. destruct (is_removed line) eqn:E; [|reflexivity].
  apply AnnotateFacts.removed_not_added in E. congruence.
Qed.

Lemma new_lines_app (pre post : list (list N)) :
  new_lines (pre ++ post) = new_lines pre ++ new_lines post.
Proof. apply filter_app. Qed.

Lemma old_lines_app (pre post : list (list N)) :
  old_lines (pre ++ post) = old_lines pre ++ old_lines post.
Proof. apply filter_app. Qed.

(** X5.  For every diff text with a header line, [parsePatch] returns two
    views of the body lines.  The new view has one entry per body line
    that is not removed and the old view one per body line that is not
    added, in the order of the body.  An added line is always numbered:
    the added line that [k] new-file lines of the body precede stands in
    the new view as [start+k], a colon, a space and its text without the
    [+].  A removed line stands in the old view as its text without the
    [-], and has no entry in the new view. *)
Theorem changed_lines_annotated (patch : list N) (info : HunkInfo)
    (pre post : list (list N)) (line : list N) :
  patchStartEndLine patch = Some info ->
  body_lines patch = pre ++ line :: post ->
  let lines := body_lines patch in
  let a := annotate (startLine (newHunk info)) lines in
  let k := length (new_lines pre) in
  parsePatch patch
  = Some (mkHunks (join_nl (oldHunkLines a)) (join_nl (newHunkLines a)))
  /\ length (newHunkLines a) = length (new_lines lines)
  /\ oldHunkLines a = map old_text (old_lines lines)
  /\ (is_added line = true ->
      nth_error (newHunkLines a) k
      = Some (numbered (startLine (newHunk info) + Z.of_nat k)
                (skipn 1 line)))
  /\ (is_removed line = true ->
      nth_error (oldHunkLines a) (length (old_lines pre))
      = Some (skipn 1 line)
      /\ new_lines lines = new_lines pre ++ new_lines post).
Proof.
  intros Hinfo Hbody lines a k.
  split; [exact (AnnotateFacts.parsePatch_annotate _ _ Hinfo)|].
  assert (Hviews : length (newHunkLines a) = length (new_lines lines)
                   /\ oldHunkLines a = map old_text (old_lines lines)).
  { unfold a, annotate.
    destruct (AnnotateFacts.fold_counters
                (negb (existsb (fun l => startsWith l (lit "+")) lines))
                (Z.of_nat (length lines)) lines
                (mkAcc 0 (startLine (newHunk info)) [] []))
      as (_ & _ & Hl & _ & Hold).
    cbn [newHunkLines oldHunkLines length app Nat.add] in Hl, Hold.
    split; assumption. }
  destruct Hviews as [Hnew Hold].
  split; [exact Hnew|]. split; [exact Hold|]. split.
  - intros Hadd.
    pose proof (AnnotateFacts.new_entry_at (startLine (newHunk info))
                  pre post line (added_not_removed _ Hadd)) as H.
    cbn zeta in H. rewrite Hadd, <- Hbody in H. exact H.
  - intros Hrem. pose proof (AnnotateFacts.removed_not_added _ Hrem) as Hadd.
    unfold lines. rewrite Hold. unfold lines. rewrite Hbody. split.
    + rewrite old_lines_app, map_app, nth_error_app2
        by (rewrite length_map; lia).
      rewrite length_map, Nat.sub_diag.
      unfold old_lines at 1. cbn [filter]. rewrite Hadd. cbn [negb map].
      unfold old_text. rewrite Hrem. reflexivity.
    + rewrite new_lines_app. f_equal. unfold new_lines. cbn [filter].
      rewrite Hrem. reflexivity.
Qed.

(** The sample hunk: its added line is the fifth new-file line. *)
Lemma changed_lines_annotated_witness :
  nth_error (newHunkLines (annotate 1 (body_lines sample_patch))) 4
  = Some (numbered 5 (lit "e")).
Proof.
  destruct (changed_lines_annotated sample_patch
              (mkHunkInfo (mkRange 1 8) (mkRange 1 9))
              (map lit [" a"; " b"; " c"; " d"]%string)
              (map lit [" f"; " g"; " h"; " i"]%string)
              (lit "+e") eq_refl eq_refl)
    as (_ & _ & _ & H & _).
  exact (H eq_refl).
Defined.

End NumberingFacts.

(* ===================================================================== *)
(** ** From the annotated hunk to the stored comment *)
(* ===================================================================== *)

Module ShownFacts.

Import DiffSpec HunkSpec ReviewSpec.



End ShownFacts.

(* ===================================================================== *)
(** ** The sanitizer *)
(* ===================================================================== *)

Module StripFacts.

Import Review SanitizeSpec StripSpec.

(** *** Decimal numbers *)

Lemma string_of_uint_digits (d : Decimal.uint) :
  forallb is_digit (lit (NilEmpty.string_of_uint d)) = true.
Proof.
  induction d; cbn [NilEmpty.string_of_uint]; try reflexivity;
    unfold lit in *; cbn [list_ascii_of_string map forallb];
    rewrite IHd; reflexivity.
Qed.

Lemma numToString_digits (n : Z) : (0 <= n)%Z -> digits (numToString n).
Proof.
  intros Hn. unfold numToString, digits.
  destruct n as [|p|p]; [split; [discriminate|reflexivity]| |lia].
  cbn [Z.to_int NilZero.string_of_int]. unfold NilZero.string_of_uint.
  destruct (Pos.to_uint p) eqn:E; try (split; [discriminate|reflexivity]);
    (split; [discriminate | apply string_of_uint_digits]).
Qed.

(** *** One replacement *)

Lemma replace_match (bol : bool) (c : N) (s rest : list N) :
  (if bol then lineNumber_prefix (c :: s) else None) = Some rest ->
  replace_lineNumber bol (c :: s) = replace_lineNumber false rest.
Proof.
  intros H. simp replace_lineNumber.
  destruct (inspect (if bol then lineNumber_prefix (c :: s) else None))
    as [[r|] e]; simp replace_lineNumber; congruence.
Qed.

Lemma replace_copy (bol : bool) (c : N) (s : list N) :
  (if bol then lineNumber_prefix (c :: s) else None) = None ->
  replace_lineNumber bol (c :: s)
  = c :: replace_lineNumber (is_line_terminator c) s.
Proof.
  intros H. simp replace_lineNumber.
  destruct (inspect (if bol then lineNumber_prefix (c :: s) else None))
    as [[r|] e]; simp replace_lineNumber; congruence.
Qed.

(** What one match of [/^ *(\d+): /] takes away: spaces, a number, a
    colon and a space. *)
Lemma lineNumber_prefix_spec (s r : list N) :
  lineNumber_prefix s = Some r <->
  exists sp d,
    s = sp ++ d ++ lit ": " ++ r
    /\ forallb (char_eqb space) sp = true /\ digits d.
Proof.
  unfold lineNumber_prefix, digits. split.
  - intros H.
    destruct (LineFacts.dropWhile_spec (char_eqb space) s) as (sp & Es & Hsp).
    matcher_pieces H. apply expect_spec in H.
    exists sp, l. rewrite H0, H in Es. repeat split; assumption.
  - intros (sp & d & -> & Hsp & Nd & Dd).
    assert (Hdrop : dropWhile (char_eqb space) (sp ++ d ++ lit ": " ++ r)
                    = d ++ lit ": " ++ r).
    { destruct d as [|x d]; [contradiction|]. cbn [app].
      apply LineFacts.dropWhile_app; [exact Hsp|].
      cbn [forallb] in Dd. apply andb_true_iff in Dd as [Hx _].
      unfold char_eqb, space. apply N.eqb_neq. intros <-. discriminate. }
    rewrite Hdrop, digits1_app
      by (assumption || (simpl; intros ? ? [= <- _]; reflexivity)).
    cbn [obind]. apply expect_app.
Qed.

Lemma lineNumber_prefix_numbered (n : Z) (text rest : list N) :
  (0 <= n)%Z ->
  lineNumber_prefix (Diff.numbered n text ++ rest) = Some (text ++ rest).
Proof.
  intros Hn. apply lineNumber_prefix_spec.
  exists [], (numToString n). unfold Diff.numbered.
  rewrite <- !app_assoc. repeat split; try reflexivity;
    apply (numToString_digits n Hn).
Qed.

(** Within a line, past its start, nothing is replaced. *)
Lemma replace_within_line (l : list N) (t : list N) :
  DiffSpec.one_line l ->
  replace_lineNumber false (l ++ nl :: t)
  = l ++ nl :: replace_lineNumber true t.
Proof.
  unfold DiffSpec.one_line. induction l as [|c l IH]; intros Hl.
  - cbn [app]. rewrite replace_copy by reflexivity. reflexivity.
  - cbn [forallb] in Hl. apply andb_true_iff in Hl as [Hc Hl].
    apply negb_true_iff in Hc.
    cbn [app]. rewrite replace_copy by reflexivity. rewrite Hc, (IH Hl).
    reflexivity.
Qed.

Lemma replace_last_line (l : list N) :
  DiffSpec.one_line l -> replace_lineNumber false l = l.
Proof.
  unfold DiffSpec.one_line. induction l as [|c l IH]; intros Hl.
  - reflexivity.
  - cbn [forallb] in Hl. apply andb_true_iff in Hl as [Hc Hl].
    apply negb_true_iff in Hc.
    rewrite replace_copy by reflexivity. rewrite Hc, (IH Hl). reflexivity.
Qed.

Lemma numbered_cons (n : Z) (text : list N) :
  (0 <= n)%Z -> exists c s, Diff.numbered n text = c :: s.
Proof.
  intros Hn. destruct (numToString_digits n Hn) as [Hne _].
  unfold Diff.numbered. destruct (numToString n) as [|c s];
    [contradiction|]. exists c, (s ++ lit ": " ++ text). reflexivity.
Qed.

Lemma replace_numbered (n : Z) (text rest : list N) :
  (0 <= n)%Z ->
  replace_lineNumber true (Diff.numbered n text ++ rest)
  = replace_lineNumber false (text ++ rest).
Proof.
  intros Hn. pose proof (lineNumber_prefix_numbered n text rest Hn) as H.
  destruct (numbered_cons n text Hn) as (c & s & E). rewrite E in *.
  cbn [app] in *. apply replace_match. exact H.
Qed.

(** The numbered lines of a new view, stripped again. *)
Lemma replace_numbered_lines (lines : list (list N)) :
  Forall DiffSpec.one_line lines ->
  forall start, (0 <= start)%Z ->
    replace_lineNumber true (join_nl (numbered_from start lines))
    = join_nl lines
    /\ forall t,
         lines <> [] ->
         replace_lineNumber true
           (join_nl (numbered_from start lines) ++ nl :: t)
         = join_nl lines ++ nl :: replace_lineNumber true t.
Proof.
  induction 1 as [|l lines Hl Hlines IH]; intros start Hstart.
  - split; [reflexivity|]. intros t []. reflexivity.
  - destruct (IH (start + 1)%Z ltac:(lia)) as [IH1 IH2].
    destruct lines as [|l2 lines].
    + cbn [numbered_from join_nl]. split.
      * rewrite <- (app_nil_r (Diff.numbered start l)).
        rewrite replace_numbered, app_nil_r by exact Hstart.
        apply replace_last_line. exact Hl.
      * intros t _. rewrite replace_numbered by exact Hstart.
        apply replace_within_line. exact Hl.
    + change (join_nl (numbered_from start (l :: l2 :: lines)))
        with (Diff.numbered start l
              ++ nl :: join_nl (numbered_from (start + 1) (l2 :: lines))).
      change (join_nl (l :: l2 :: lines))
        with (l ++ nl :: join_nl (l2 :: lines)).
      split.
      * rewrite replace_numbered, replace_within_line, IH1
          by assumption.
        reflexivity.
      * intros t _. rewrite <- !app_assoc. cbn [app].
        rewrite replace_numbered, replace_within_line, IH2
          by (assumption || discriminate).
        reflexivity.
Qed.

(** *** Lines and lengths *)

Lemma newlines_app (a b : list N) :
  newlines (a ++ b) = newlines a + newlines b.
Proof. unfold newlines. rewrite filter_app, length_app. reflexivity. Qed.

Lemma split_nl_length (s : list N) : length (split_nl s) = S (newlines s).
Proof.
  unfold newlines. induction s as [|c s IH]; [reflexivity|].
  cbn [split_nl filter]. unfold char_eqb in *. rewrite (N.eqb_sym nl c).
  destruct (N.eqb c nl).
  - cbn [length]. rewrite IH. reflexivity.
  - destruct (split_nl s) as [|l ls]; [discriminate|]. exact IH.
Qed.

Lemma newlines_none (p : N -> bool) (s : list N) :
  p nl = false -> forallb p s = true -> newlines s = 0.
Proof.
  intros Hp. unfold newlines. induction s as [|c s IH]; [reflexivity|].
  cbn [forallb filter]. intros H. apply andb_true_iff in H as [Hc Hs].
  unfold char_eqb. destruct (N.eqb_spec nl c) as [<-|_]; [congruence|].
  apply IH. exact Hs.
Qed.

Lemma lineNumber_prefix_newlines (s r : list N) :
  lineNumber_prefix s = Some r -> newlines s = newlines r.
Proof.
  intros H. apply lineNumber_prefix_spec in H as (sp & d & -> & Hsp & _ & Hd).
  rewrite !newlines_app.
  rewrite (newlines_none _ sp eq_refl Hsp), (newlines_none _ d eq_refl Hd).
  reflexivity.
Qed.

(** A replacement takes characters away, never a newline. *)
Lemma replace_lineNumber_keeps (n : nat) :
  forall s bol,
    length s < n ->
    length (replace_lineNumber bol s) <= length s
    /\ newlines (replace_lineNumber bol s) = newlines s.
Proof.
  induction n as [|n IH]; intros s bol Hn; [lia|].
  destruct s as [|c s]; [split; reflexivity|].
  destruct (if bol then lineNumber_prefix (c :: s) else None)
    as [rest|] eqn:E.
  - rewrite (replace_match _ _ _ _ E).
    destruct bol; [|discriminate].
    pose proof (lineNumber_prefix_shorter _ _ E) as Hlt.
    destruct (IH rest false ltac:(lia)) as [H1 H2].
    rewrite (lineNumber_prefix_newlines _ _ E). split; [lia|exact H2].
  - rewrite (replace_copy _ _ _ E).
    cbn [length] in Hn.
    destruct (IH s (is_line_terminator c) ltac:(lia)) as [H1 H2].
    change (c :: replace_lineNumber (is_line_terminator c) s)
      with ([c] ++ replace_lineNumber (is_line_terminator c) s).
    change (c :: s) with ([c] ++ s).
    rewrite !newlines_app, H2. cbn [length app]. split; [lia|reflexivity].
Qed.

Lemma sanitized_keeps (label text out : list N) :
  sanitized label text out ->
  length out <= length text /\ newlines out = newlines text.
Proof.
  induction 1 as [text _|text i _ _|pre block rest out text _ _ _ [IH1 IH2]];
    try (split; reflexivity).
  destruct (replace_lineNumber_keeps (S (length block)) block true
              ltac:(lia)) as [H1 H2].
  unfold text. rewrite !length_app, !newlines_app, H2, IH2. split; lia.
Qed.

(** A text without the opener is left as it is. *)
Lemma sanitized_no_opener (label text out : list N) :
  sanitized label text out ->
  (forall q, ~ occurs_at (opener label) text q) -> out = text.
Proof.
  intros H Hno. destruct H as [| |pre block rest out text _ _ _];
    try reflexivity.
  exfalso. apply (Hno (length pre)).
  exists (block ++ fence ++ rest). unfold text.
  apply SanitizeFacts.skipn_exact. reflexivity.
Qed.

(** X8.  The sanitizer, for one kind of block and for both, only takes
    characters away, and never a newline: its result is not longer than
    the response and has the same number of lines, so the scan of
    [parseReview] sees as many lines as the response has.  A response in
    which the opener of a block does not occur is returned as it is. *)
Theorem sanitizer_keeps_lines (comment label : list N) :
  length (_sanitizeCodeBlock comment label) <= length comment
  /\ length (split_nl (_sanitizeCodeBlock comment label))
     = length (split_nl comment)
  /\ length (_sanitizeResponse comment) <= length comment
  /\ length (split_nl (_sanitizeResponse comment))
     = length (split_nl comment)
  /\ ((forall q, ~ occurs_at (opener label) comment q) ->
      _sanitizeCodeBlock comment label = comment)
  /\ ((forall q, ~ occurs_at (opener (lit "suggestion")) comment q) ->
      (forall q, ~ occurs_at (opener (lit "diff")) comment q) ->
      _sanitizeResponse comment = comment).
Proof.
  assert (K : forall c l,
             length (_sanitizeCodeBlock c l) <= length c
             /\ newlines (_sanitizeCodeBlock c l) = newlines c).
  { intros c l. apply (sanitized_keeps l).
    apply SanitizeFacts.sanitizeCodeBlock_sanitized. }
  assert (I : forall c l,
             (forall q, ~ occurs_at (opener l) c q) ->
             _sanitizeCodeBlock c l = c).
  { intros c l. apply (sanitized_no_opener l).
    apply SanitizeFacts.sanitizeCodeBlock_sanitized. }
  destruct (K comment label) as [K1 K2].
  destruct (K comment (lit "suggestion")) as [S1 S2].
  destruct (K (_sanitizeCodeBlock comment (lit "suggestion")) (lit "diff"))
    as [D1 D2].
  split; [exact K1|]. split; [rewrite !split_nl_length, K2; reflexivity|].
  unfold _sanitizeResponse.
  split; [lia|]. split; [rewrite !split_nl_length, D2, S2; reflexivity|].
  split; [apply I|].
  intros Hs Hd. rewrite (I comment (lit "suggestion") Hs). apply I, Hd.
Qed.

(** *** A closed block *)

Lemma occurs_at_head (c : N) (pat s : list N) (j : nat) :
  occurs_at (c :: pat) s j -> nth_error s j = Some c.
Proof.
  intros (r & E). rewrite <- (Nat.add_0_r j), <- nth_error_skipn, E.
  reflexivity.
Qed.

(** [indexOf] finds an occurrence that none precedes. *)
Lemma indexOf_first (s pat : list N) (from i : nat) :
  from <= i -> i <= length s -> occurs_at pat s i ->
  (forall j, from <= j < i -> ~ occurs_at pat s j) ->
  indexOf s pat from = Some i.
Proof.
  intros Hfrom Hi Hocc Hno.
  destruct (indexOf s pat from) as [j|] eqn:E.
  - apply SanitizeFacts.indexOf_Some in E as (Hj & _ & Hoj & Hmin); [|lia].
    f_equal. destruct (Nat.lt_trichotomy j i) as [Hlt|[Heq|Hgt]].
    + exfalso. apply (Hno j); [lia | exact Hoj].
    + exact Heq.
    + exfalso. apply (Hmin i); [lia | exact Hocc].
  - exfalso.
    apply (SanitizeFacts.indexOf_None s pat from ltac:(lia) E i Hfrom Hocc).
Qed.

Lemma app_same_length (a a' b b' : list N) :
  length a = length a' -> a ++ b = a' ++ b' -> a = a' /\ b = b'.
Proof.
  revert a'; induction a as [|x a IH]; intros [|x' a']; cbn [length app];
    try discriminate.
  - intros _ H. split; [reflexivity | exact H].
  - intros [= Hl] [= -> H]. destruct (IH a' Hl H) as [-> ->].
    split; reflexivity.
Qed.

(** What the sanitizer does with a text whose first block is closed. *)
Lemma sanitized_closed_inv (label pre block rest out : list N) :
  let text := pre ++ opener label ++ block ++ fence ++ rest in
  indexOf text (opener label) 0 = Some (length pre) ->
  indexOf text fence (length pre + length (opener label))
  = Some (length (pre ++ opener label ++ block)) ->
  sanitized label text out ->
  exists out',
    out = pre ++ opener label ++ replace_lineNumber true block
          ++ fence ++ out'
    /\ sanitized label rest out'.
Proof.
  intros text H1 H2 H. remember text as t eqn:Et.
  destruct H as [t H1'|t i H1' H2'
                |pre' block' rest' out' t' H1' H2' Hrest].
  - congruence.
  - rewrite H1 in H1'. injection H1' as <-. congruence.
  - unfold t' in *. clear t'.
    rewrite H1 in H1'. injection H1' as Hpre.
    unfold text in Et. apply app_same_length in Et as [-> Et];
      [|symmetry; exact Hpre].
    apply app_inv_head in Et.
    assert (Hblock : length (pre ++ opener label ++ block)
                     = length (pre ++ opener label ++ block'))
      by congruence.
    rewrite !length_app in Hblock.
    apply app_same_length in Et as [-> Et]; [|lia].
    apply app_inv_head in Et. subst rest'.
    exists out'. split; [reflexivity | exact Hrest].
Qed.

Lemma in_join_nl (x : N) (ls : list (list N)) :
  In x (join_nl ls) -> x = nl \/ exists l, In l ls /\ In x l.
Proof.
  induction ls as [|l [|l2 ls] IH]; [intros []| |].
  - cbn [join_nl]. intros H. right. exists l. split; [left; reflexivity|exact H].
  - change (join_nl (l :: l2 :: ls)) with (l ++ nl :: join_nl (l2 :: ls)).
    intros H. apply in_app_or in H as [H|[H|H]].
    + right. exists l. split; [left; reflexivity | exact H].
    + left. symmetry. exact H.
    + destruct (IH H) as [Hx|(l' & Hl' & Hx)]; [left; exact Hx|].
      right. exists l'. split; [right; exact Hl' | exact Hx].
Qed.

Lemma numbered_from_in (lines : list (list N)) (start : Z) (l' : list N) :
  In l' (numbered_from start lines) ->
  exists n l, (start <= n)%Z /\ In l lines /\ l' = Diff.numbered n l.
Proof.
  revert start; induction lines as [|l lines IH]; intros start; [intros []|].
  cbn [numbered_from]. intros [<-|H].
  - exists start, l. split; [lia|]. split; [left|]; reflexivity.
  - destruct (IH _ H) as (n & l0 & Hn & Hl & ->).
    exists n, l0. split; [lia|]. split; [right; exact Hl | reflexivity].
Qed.

Lemma digit_not_backtick (d : list N) :
  forallb is_digit d = true -> ~ In backtick d.
Proof.
  intros H Hin. rewrite forallb_forall in H. apply H in Hin. discriminate.
Qed.

Lemma numbered_block_no_backtick (start : Z) (lines : list (list N)) :
  (0 <= start)%Z -> Forall (fun l => ~ In backtick l) lines ->
  ~ In backtick ([nl] ++ join_nl (numbered_from start lines) ++ [nl]).
Proof.
  intros Hstart Hlines Hin. rewrite Forall_forall in Hlines.
  apply in_app_or in Hin as [[H|[]]|Hin]; [discriminate|].
  apply in_app_or in Hin as [Hin|[H|[]]]; [|discriminate].
  apply in_join_nl in Hin as [H|(l' & Hl' & Hin)]; [discriminate|].
  apply numbered_from_in in Hl' as (n & l & Hn & Hl & ->).
  unfold Diff.numbered in Hin.
  apply in_app_or in Hin as [Hin|Hin].
  - apply (digit_not_backtick (numToString n)); [|exact Hin].
    apply numToString_digits. lia.
  - apply in_app_or in Hin as [[H|[H|[]]]|Hin]; try discriminate.
    exact (Hlines l Hl Hin).
Qed.

Lemma no_backtick_no_fence (s pat : list N) (q : nat) :
  ~ In backtick s -> ~ occurs_at (backtick :: pat) s q.
Proof.
  intros Hs Hocc. apply occurs_at_head in Hocc.
  apply nth_error_In in Hocc. exact (Hs Hocc).
Qed.

(** The two searches of the sanitizer in a text whose first block is
    closed and holds no backtick. *)
Lemma closed_block_found (label pre block rest : list N) :
  ~ In backtick pre -> ~ In backtick block ->
  let text := pre ++ opener label ++ block ++ fence ++ rest in
  indexOf text (opener label) 0 = Some (length pre)
  /\ indexOf text fence (length pre + length (opener label))
     = Some (length (pre ++ opener label ++ block)).
Proof.
  intros Hpre Hblock text. split.
  - apply indexOf_first.
    + lia.
    + unfold text. rewrite length_app. lia.
    + exists (block ++ fence ++ rest). unfold text.
      apply SanitizeFacts.skipn_exact. reflexivity.
    + intros j Hj Hocc.
      change (opener label) with (backtick :: [backtick; backtick] ++ label)
        in Hocc.
      apply occurs_at_head in Hocc. unfold text in Hocc.
      rewrite nth_error_app1 in Hocc by lia.
      apply nth_error_In in Hocc. exact (Hpre Hocc).
  - assert (Et : text = (pre ++ opener label) ++ block ++ fence ++ rest)
      by (unfold text; rewrite <- app_assoc; reflexivity).
    apply indexOf_first.
    + rewrite !length_app. lia.
    + unfold text. rewrite !length_app. lia.
    + exists rest. rewrite Et, !app_assoc, <- (app_assoc _ fence rest).
      apply SanitizeFacts.skipn_exact. rewrite <- !app_assoc. reflexivity.
    + intros j Hj Hocc. rewrite !length_app in Hj.
      change fence with (backtick :: [backtick; backtick]) in Hocc.
      apply occurs_at_head in Hocc. rewrite Et in Hocc.
      rewrite nth_error_app2 in Hocc by (rewrite length_app; lia).
      rewrite nth_error_app1 in Hocc by (rewrite length_app; lia).
      apply nth_error_In in Hocc. exact (Hblock Hocc).
Qed.

Lemma replace_numbered_block (start : Z) (lines : list (list N)) :
  (0 <= start)%Z -> Forall DiffSpec.one_line lines ->
  replace_lineNumber true ([nl] ++ join_nl (numbered_from start lines) ++ [nl])
  = [nl] ++ join_nl lines ++ [nl].
Proof.
  intros Hstart Hlines. cbn [app]. rewrite replace_copy by reflexivity.
  f_equal. change (is_line_terminator nl) with true.
  destruct lines as [|l lines].
  - cbn [numbered_from join_nl app]. rewrite replace_copy by reflexivity.
    reflexivity.
  - destruct (replace_numbered_lines (l :: lines) Hlines start Hstart)
      as [_ H].
    rewrite (H [] ltac:(discriminate)). reflexivity.
Qed.

(** A text in which an opener is never followed by a fence is left as it
    is. *)
Lemma sanitized_unclosed (label text out : list N) :
  sanitized label text out ->
  (forall i, occurs_at (opener label) text i ->
             forall q, i + length (opener label) <= q ->
                       ~ occurs_at fence text q) ->
  out = text.
Proof.
  intros H Hno. destruct H as [| |pre block rest out text _ _ _];
    try reflexivity.
  exfalso. apply (Hno (length pre)) with (q := length (pre ++ opener label ++ block)).
  - exists (block ++ fence ++ rest). unfold text.
    apply SanitizeFacts.skipn_exact. reflexivity.
  - rewrite !length_app. lia.
  - exists rest. unfold text. rewrite !app_assoc.
    rewrite <- (app_assoc _ fence rest). apply SanitizeFacts.skipn_exact.
    rewrite <- !app_assoc. reflexivity.
Qed.

(** The backticks of a text with one closed block and no other backtick:
    the three of the opener and the three of the closing fence. *)
Lemma closed_block_backticks (pre l block rest : list N) (j : nat) :
  ~ In backtick pre -> ~ In backtick l -> ~ In backtick block ->
  ~ In backtick rest ->
  nth_error (pre ++ fence ++ l ++ block ++ fence ++ rest) j = Some backtick ->
  length pre <= j < length pre + 3
  \/ length pre + 3 + length l + length block <= j
     < length pre + 3 + length l + length block + 3.
Proof.
  intros Hpre Hl Hblock Hrest H.
  destruct (Nat.lt_ge_cases j (length pre)) as [H1|H1].
  { rewrite nth_error_app1 in H by exact H1.
    apply nth_error_In in H. contradiction. }
  rewrite nth_error_app2 in H by exact H1.
  destruct (Nat.lt_ge_cases (j - length pre) 3) as [H2|H2]; [left; lia|].
  rewrite nth_error_app2 in H by exact H2. change (length fence) with 3 in H.
  destruct (Nat.lt_ge_cases (j - length pre - 3) (length l)) as [H3|H3].
  { rewrite nth_error_app1 in H by exact H3.
    apply nth_error_In in H. contradiction. }
  rewrite nth_error_app2 in H by exact H3.
  destruct (Nat.lt_ge_cases (j - length pre - 3 - length l) (length block))
    as [H4|H4].
  { rewrite nth_error_app1 in H by exact H4.
    apply nth_error_In in H. contradiction. }
  rewrite nth_error_app2 in H by exact H4.
  destruct (Nat.lt_ge_cases (j - length pre - 3 - length l - length block) 3)
    as [H5|H5]; [right; lia|].
  rewrite nth_error_app2 in H by exact H5.
  apply nth_error_In in H. contradiction.
Qed.

Lemma occurs_at_nth (pat s : list N) (i k : nat) :
  occurs_at pat s i -> k < length pat ->
  nth_error s (i + k) = nth_error pat k.
Proof.
  intros (r & E) Hk. rewrite <- nth_error_skipn, E.
  apply nth_error_app1. exact Hk.
Qed.

(** In such a text, a block of another kind is never closed. *)
Lemma other_block_unclosed (pre block rest t1 t2 : list N) (x1 x2 : N) :
  ~ In backtick pre -> ~ In backtick (x1 :: t1) -> ~ In backtick block ->
  ~ In backtick rest -> x1 <> x2 ->
  let text := pre ++ fence ++ (x1 :: t1) ++ block ++ fence ++ rest in
  forall i, occurs_at (opener (x2 :: t2)) text i ->
            forall q, i + length (opener (x2 :: t2)) <= q ->
                      ~ occurs_at fence text q.
Proof.
  intros Hpre Hl Hblock Hrest Hx text i Hocc q Hq Hfence.
  assert (Hbt : forall j, nth_error text j = Some backtick ->
                  length pre <= j < length pre + 3
                  \/ length pre + 3 + length (x1 :: t1) + length block <= j
                     < length pre + 3 + length (x1 :: t1) + length block + 3)
    by (intros j; apply closed_block_backticks; assumption).
  assert (Hx1 : nth_error text (length pre + 3) = Some x1).
  { unfold text. rewrite nth_error_app2 by lia.
    replace (length pre + 3 - length pre) with 3 by lia. reflexivity. }
  pose proof (occurs_at_nth _ _ i 0 Hocc ltac:(cbn; lia)) as H0.
  pose proof (occurs_at_nth _ _ i 1 Hocc ltac:(cbn; lia)) as H1.
  pose proof (occurs_at_nth _ _ i 2 Hocc ltac:(cbn; lia)) as H2.
  pose proof (occurs_at_nth _ _ i 3 Hocc ltac:(cbn; lia)) as H3.
  change (nth_error (opener (x2 :: t2)) 0) with (Some backtick) in H0.
  change (nth_error (opener (x2 :: t2)) 1) with (Some backtick) in H1.
  change (nth_error (opener (x2 :: t2)) 2) with (Some backtick) in H2.
  change (nth_error (opener (x2 :: t2)) 3) with (Some x2) in H3.
  rewrite Nat.add_0_r in H0.
  change fence with (backtick :: [backtick; backtick]) in Hfence.
  apply occurs_at_head in Hfence.
  change (length (opener (x2 :: t2))) with (S (S (S (S (length t2))))) in Hq.
  cbn [length] in Hbt.
  assert (Hnot : x1 <> backtick)
    by (intros E; apply Hl; left; exact E).
  destruct (Hbt i H0) as [Hi|Hi].
  - destruct (Nat.eq_dec i (length pre)) as [->|Hne].
    + rewrite Hx1 in H3. congruence.
    + destruct (Nat.eq_dec i (length pre + 1)) as [->|Hne1].
      * replace (length pre + 1 + 2) with (length pre + 3) in H2 by lia.
        rewrite Hx1 in H2. congruence.
      * replace (i + 1) with (length pre + 3) in H1 by lia.
        rewrite Hx1 in H1. congruence.
  - destruct (Hbt q Hfence) as [Hq1|Hq1]; lia.
Qed.

(** X7.  The sanitizer takes away what the annotator put in front of a
    line.  Lines numbered as in a new view ([n], a colon, a space, the
    text, with consecutive numbers from [start] on) are stripped back to
    their text; and a fenced block that holds such lines, in a response
    with no other backtick, is returned with the plain lines, everything
    around it unchanged, by [_sanitizeCodeBlock] for the label of the
    block and by [_sanitizeResponse] for a suggestion or diff block. *)
Theorem numbered_block_stripped (label pre rest : list N) (start : Z)
    (lines : list (list N)) :
  (0 <= start)%Z ->
  ~ In backtick pre -> ~ In backtick rest ->
  Forall (fun l => DiffSpec.one_line l /\ ~ In backtick l) lines ->
  let text :=
    pre ++ opener label ++ [nl] ++ join_nl (numbered_from start lines)
    ++ [nl] ++ fence ++ rest in
  let stripped :=
    pre ++ opener label ++ [nl] ++ join_nl lines ++ [nl] ++ fence ++ rest in
  replace_lineNumber true (join_nl (numbered_from start lines))
  = join_nl lines
  /\ _sanitizeCodeBlock text label = stripped
  /\ (label = lit "suggestion" \/ label = lit "diff" ->
      _sanitizeResponse text = stripped).
Proof.
  intros Hstart Hpre Hrest Hlines text stripped.
  assert (Hone : Forall DiffSpec.one_line lines)
    by (apply Forall_forall; intros l Hl; rewrite Forall_forall in Hlines;
        apply (Hlines l Hl)).
  assert (Hback : Forall (fun l => ~ In backtick l) lines)
    by (apply Forall_forall; intros l Hl; rewrite Forall_forall in Hlines;
        apply (Hlines l Hl)).
  split; [apply (replace_numbered_lines lines Hone start Hstart)|].
  set (block := [nl] ++ join_nl (numbered_from start lines) ++ [nl]).
  set (plain := [nl] ++ join_nl lines ++ [nl]).
  assert (Et : text = pre ++ opener label ++ block ++ fence ++ rest)
    by (unfold text, block; rewrite <- !app_assoc; reflexivity).
  assert (Es : stripped = pre ++ opener label ++ plain ++ fence ++ rest)
    by (unfold stripped, plain; rewrite <- !app_assoc; reflexivity).
  assert (Hblock : ~ In backtick block)
    by exact (numbered_block_no_backtick start lines Hstart Hback).
  assert (Hplain : ~ In backtick plain).
  { unfold plain. intros Hin. rewrite Forall_forall in Hback.
    apply in_app_or in Hin as [[H|[]]|Hin]; [discriminate|].
    apply in_app_or in Hin as [Hin|[H|[]]]; [|discriminate].
    apply in_join_nl in Hin as [H|(l & Hl & Hin)]; [discriminate|].
    exact (Hback l Hl Hin). }
  assert (Hown : _sanitizeCodeBlock text label = stripped).
  { rewrite Et, Es.
    destruct (closed_block_found label pre block rest Hpre Hblock)
      as [H1 H2].
    destruct (sanitized_closed_inv label pre block rest _ H1 H2
                (SanitizeFacts.sanitizeCodeBlock_sanitized _ label))
      as (out' & -> & Hout).
    rewrite (sanitized_no_opener label rest out' Hout).
    - unfold block. rewrite (replace_numbered_block start lines Hstart Hone).
      reflexivity.
    - intros q. apply no_backtick_no_fence. exact Hrest. }
  split; [exact Hown|].
  assert (Hother : forall (b t1 t2 : list N) (x1 x2 : N),
             ~ In backtick b -> ~ In backtick (x1 :: t1) -> x1 <> x2 ->
             _sanitizeCodeBlock
               (pre ++ opener (x1 :: t1) ++ b ++ fence ++ rest) (x2 :: t2)
             = pre ++ opener (x1 :: t1) ++ b ++ fence ++ rest).
  { intros b t1 t2 x1 x2 Hb Hl Hx.
    apply (sanitized_unclosed (x2 :: t2));
      [apply SanitizeFacts.sanitizeCodeBlock_sanitized|].
    exact (other_block_unclosed pre b rest t1 t2 x1 x2 Hpre Hl Hb Hrest Hx). }
  unfold _sanitizeResponse. intros [->| ->].
  - rewrite Hown, Es.
    apply (Hother plain (lit "uggestion") (lit "iff") 115%N 100%N);
      [exact Hplain | vm_compute; intuition discriminate | discriminate].
  - assert (Hd : _sanitizeCodeBlock text (lit "suggestion") = text).
    { rewrite Et.
      apply (Hother block (lit "iff") (lit "uggestion") 100%N 115%N);
        [exact Hblock | vm_compute; intuition discriminate | discriminate]. }
    rewrite Hd. exact Hown.
Qed.

(** A suggestion of two numbered lines comes back as plain code. *)
Lemma numbered_block_stripped_witness :
  _sanitizeResponse numbered_suggestion
  = join_nl (map lit ["Use this:"; "```suggestion"; "a"; "b"; "```";
                      "thanks"]%string).
Proof.
  destruct (numbered_block_stripped (lit "suggestion")
              (lit "Use this:" ++ [nl]) ([nl] ++ lit "thanks") 12
              [lit "a"; lit "b"]) as (_ & _ & H).
  - lia.
  - cbn. intuition discriminate.
  - cbn. intuition discriminate.
  - repeat constructor; cbn; intuition discriminate.
  - apply H. left. reflexivity.
Defined.

End StripFacts.

(* ===================================================================== *)
(** ** The scan of a reply *)
(* ===================================================================== *)

Module ParseFacts.

Import Review ReviewSpec ParseSpec.

(** A flush when no comment is open does nothing. *)
Lemma storeReview_idle (patches : list Patch) (rs : list Review) :
  storeReview patches (mkState None None [] rs)
  = Returns (mkState None None [] rs).
Proof. reflexivity. Qed.

(** While no comment is open, a line that opens none changes nothing. *)
Lemma scan_line_idle (patches : list Patch) (rs : list Review)
    (line : list N) :
  lineNumberRangeRegex line = None ->
  scan_line patches (mkState None None [] rs) line
  = Returns (mkState None None [] rs).
Proof.
  intros Hline. unfold scan_line. rewrite Hline.
  destruct (str_eqb (trim line) commentSeparator); reflexivity.
Qed.

Lemma scan_lines_idle (patches : list Patch) (lines rest : list (list N))
    (rs : list Review) :
  Forall (fun l => lineNumberRangeRegex l = None) lines ->
  scan_lines patches (mkState None None [] rs) (lines ++ rest)
  = scan_lines patches (mkState None None [] rs) rest.
Proof.
  induction 1 as [|line lines Hline _ IH]; [reflexivity|].
  cbn [app scan_lines]. rewrite (scan_line_idle patches rs line Hline).
  exact IH.
Qed.

Lemma not_opening (lines : list (list N)) :
  Forall (fun l => ~ opens_range l) lines ->
  Forall (fun l => lineNumberRangeRegex l = None) lines.
Proof.
  intros H. apply Forall_forall. intros l Hl.
  rewrite Forall_forall in H. specialize (H l Hl). unfold opens_range in H.
  destruct (lineNumberRangeRegex l); [|reflexivity].
  exfalso. apply H. discriminate.
Qed.

(** X9.  A reply in which no line opens a comment gives no comment,
    whatever the known units: [parseReview] returns the empty array, also
    for the empty reply and also when there is no unit at all.  So without
    units [parseReview] returns exactly when no line opens a comment, and
    then the empty array.  Lines ahead of the first one that opens a
    comment are passed over: the parse is that of the lines from there
    on. *)
Theorem parseReview_without_ranges (response : list N)
    (patches : list Patch) :
  (Forall (fun l => ~ opens_range l) (response_lines response) ->
   parseReview response patches = Returns [])
  /\ ((exists rs, parseReview response [] = Returns rs)
      <-> Forall (fun l => ~ opens_range l) (response_lines response))
  /\ (forall pre rest,
        response_lines response = pre ++ rest ->
        Forall (fun l => ~ opens_range l) pre ->
        parseReview response patches
        = bind (scan_lines patches state0 rest) (fun st =>
          bind (storeReview patches st) (fun st => Returns (reviews st)))).
Proof.
  assert (Hskip : forall p pre rest,
             response_lines response = pre ++ rest ->
             Forall (fun l => ~ opens_range l) pre ->
             parseReview response p
             = bind (scan_lines p state0 rest) (fun st =>
               bind (storeReview p st) (fun st => Returns (reviews st)))).
  { intros p pre rest E Hpre. unfold parseReview. rewrite E.
    unfold state0.
    rewrite (scan_lines_idle p pre rest [] (not_opening _ Hpre)).
    reflexivity. }
  assert (Hempty : forall p,
             Forall (fun l => ~ opens_range l) (response_lines response) ->
             parseReview response p = Returns []).
  { intros p H.
    rewrite (Hskip p (response_lines response) [] (eq_sym (app_nil_r _)) H).
    reflexivity. }
  split; [apply Hempty|]. split; [|apply Hskip].
  split.
  - intros (rs & Hrs).
    apply Forall_forall. intros l Hl Hopen.
    rewrite ScanFacts.parseReview_no_units_throws in Hrs; [discriminate|].
    apply Exists_exists. exists l. split; assumption.
  - intros H. exists []. apply Hempty. exact H.
Qed.

(** A reply of prose only, and no unit: no comment, no error. *)
Lemma parseReview_without_ranges_witness :
  parseReview (lit "Nothing to report.") [] = Returns [].
Proof.
  apply (proj1 (parseReview_without_ranges (lit "Nothing to report.") [])).
  repeat constructor. intros H. apply H. reflexivity.
Defined.

(** *** One comment per opening line *)

Lemma storeReview_count (patches : list Patch) (st : state) :
  patches <> [] ->
  exists st',
    storeReview patches st = Returns st'
    /\ length (reviews st') = length (reviews st) + pending st.
Proof.
  intros Hne. unfold storeReview, pending.
  destruct (currentStartLine st) as [s|];
    [|exists st; split; [reflexivity | lia]].
  destruct (currentEndLine st) as [e|];
    [|exists st; split; [reflexivity | lia]].
  destruct (ScanFacts.remap_anchored patches
              (mkReview s e (currentComment st)) Hne) as (r & -> & _).
  cbn [bind]. eexists. split; [reflexivity|].
  cbn [reviews]. rewrite length_app. reflexivity.
Qed.

Lemma scan_line_count (patches : list Patch) (st : state) (line : list N) :
  patches <> [] ->
  exists st',
    scan_line patches st line = Returns st'
    /\ length (reviews st') + pending st'
       = length (reviews st) + pending st + (if opens line then 1 else 0).
Proof.
  intros Hne. unfold scan_line, opens.
  destruct (storeReview_count patches st Hne) as (st1 & E1 & H1).
  destruct (lineNumberRangeRegex line) as [[m1 m2]|]; cbn [DiffSpec.is_some].
  - rewrite E1. cbn [bind]. eexists. split; [reflexivity|].
    cbn [reviews pending currentStartLine currentEndLine]. lia.
  - destruct (str_eqb (trim line) commentSeparator).
    + rewrite E1. cbn [bind]. eexists. split; [reflexivity|].
      cbn [reviews pending currentStartLine currentEndLine]. lia.
    + unfold pending.
      destruct (currentStartLine st) eqn:Es, (currentEndLine st) eqn:Ee;
        eexists; (split; [reflexivity|]);
        cbn [reviews currentStartLine currentEndLine];
        rewrite ?Es, ?Ee; lia.
Qed.

Lemma scan_lines_count (patches : list Patch) (lines : list (list N))
    (st : state) :
  patches <> [] ->
  exists st',
    scan_lines patches st lines = Returns st'
    /\ length (reviews st') + pending st'
       = length (reviews st) + pending st + length (filter opens lines).
Proof.
  intros Hne. revert st; induction lines as [|line lines IH]; intros st.
  - exists st. split; [reflexivity | cbn; lia].
  - cbn [scan_lines filter].
    destruct (scan_line_count patches st line Hne) as (st1 & -> & H1).
    cbn [bind]. destruct (IH st1) as (st2 & -> & H2).
    exists st2. split; [reflexivity|].
    destruct (opens line); cbn [length]; lia.
Qed.

(** X10.  With at least one known unit, [parseReview] returns exactly one
    comment for each line of the reply that opens a comment: none is
    dropped, not even one without a body, and none is made up. *)
Theorem parseReview_one_comment_per_opening (response : list N)
    (patches : list Patch) :
  patches <> [] ->
  exists rs,
    parseReview response patches = Returns rs
    /\ length rs = length (filter opens (response_lines response)).
Proof.
  intros Hne. unfold parseReview.
  destruct (scan_lines_count patches (response_lines response) state0 Hne)
    as (st & -> & Hst).
  cbn [bind].
  destruct (storeReview_count patches st Hne) as (st' & -> & Hst').
  cbn [bind]. exists (reviews st'). split; [reflexivity|].
  cbn [state0 reviews pending currentStartLine length] in Hst. lia.
Qed.

(** Two opening lines in a row: two comments, the first with no body. *)
Lemma parseReview_one_comment_per_opening_witness :
  exists rs,
    parseReview (lit "1-2:" ++ [nl] ++ lit "3-4:" ++ [nl] ++ lit "x")
      [(1, 4, [])%Z] = Returns rs
    /\ length rs = 2.
Proof.
  apply (parseReview_one_comment_per_opening
           (lit "1-2:" ++ [nl] ++ lit "3-4:" ++ [nl] ++ lit "x")
           [(1, 4, [])%Z]).
  discriminate.
Defined.

(** *** A reply in the format of the prompt *)

Lemma remap_inside (patches : list Patch) (review : Review) (p : Patch) :
  Forall known_unit patches -> In p patches ->
  (startLine review <= endLine review)%Z ->
  inside (startLine review) (endLine review) p ->
  remap patches review = Returns review.
Proof.
  intros Hknown Hin Hse Hi.
  assert (Hne : patches <> []) by (intros ->; destruct Hin).
  destruct (RemapFacts.remap_spec review patches Hne Hknown)
    as [(_ & _ & E)|[(Hno & _)|(Hzero & _)]].
  - exact E.
  - exfalso. exact (Hno p Hin (conj Hse Hi)).
  - exfalso. specialize (Hzero p Hin). unfold inside in Hi.
    unfold overlap in Hzero. lia.
Qed.

Lemma bind_assoc {A B C} (o : outcome A) (f : A -> outcome B)
    (g : B -> outcome C) :
  bind (bind o f) g = bind o (fun a => bind (f a) g).
Proof. destruct o; reflexivity. Qed.

Lemma scan_body (patches : list Patch) (s e : Z) (rs : list Review)
    (body rest : list (list N)) :
  Forall plain_line body ->
  forall c,
    scan_lines patches (mkState (Some s) (Some e) c rs) (body ++ rest)
    = scan_lines patches
        (mkState (Some s) (Some e) (c ++ collected body) rs) rest.
Proof.
  induction 1 as [|line body [Hrange Hsep] _ IH]; intros c.
  - cbn [app collected map concat]. rewrite app_nil_r. reflexivity.
  - cbn [app scan_lines]. unfold scan_line. rewrite Hrange.
    destruct (str_eqb (trim line) commentSeparator) eqn:E.
    + apply LineFacts.str_eqb_spec in E. contradiction.
    + cbn [currentStartLine currentEndLine currentComment reviews bind].
      rewrite IH. unfold collected. cbn [map concat].
      rewrite <- !app_assoc. reflexivity.
Qed.

Lemma range_text_opens (d1 d2 : list N) :
  digits d1 -> digits d2 ->
  lineNumberRangeRegex (range_text d1 d2) = Some (d1, d2).
Proof.
  intros H1 H2. apply LineFacts.lineNumberRangeRegex_spec.
  exists [], []. rewrite app_nil_r.
  refine (conj eq_refl (conj (or_introl eq_refl) (conj H1 (conj H2 _)))).
  reflexivity.
Qed.

(** The scan of one written comment, from a state with no comment open:
    its candidate is flushed at the separator. *)
Lemma scan_written (patches : list Patch)
    (item : list N * list N * list (list N)) (rs : list Review)
    (rest : list (list N)) :
  well_written item ->
  scan_lines patches (mkState None None [] rs) (written item ++ rest)
  = bind (remap patches (candidate item)) (fun r =>
      scan_lines patches (mkState None None [] (rs ++ [r])) rest).
Proof.
  destruct item as [[d1 d2] body]. intros (H1 & H2 & Hbody).
  unfold written, candidate. cbn [app scan_lines].
  unfold scan_line at 1. rewrite (range_text_opens d1 d2 H1 H2).
  cbn [storeReview currentStartLine bind reviews].
  rewrite <- app_assoc, scan_body.
  2:{ apply Forall_forall. intros l Hl. rewrite Forall_forall in Hbody.
      apply (Hbody l Hl). }
  cbn [app scan_lines]. unfold scan_line at 1.
  change (lineNumberRangeRegex commentSeparator) with (@None (list N * list N)).
  change (str_eqb (trim commentSeparator) commentSeparator) with true.
  cbv iota. unfold storeReview.
  cbn [currentStartLine currentEndLine currentComment reviews app].
  rewrite !bind_assoc. cbn [bind reviews]. reflexivity.
Qed.

Lemma scan_items (patches : list Patch)
    (items : list (list N * list N * list (list N))) :
  Forall well_written items ->
  forall rs,
    bind (scan_lines patches (mkState None None [] rs)
            (concat (map written items)))
      (fun st => bind (storeReview patches st)
                   (fun st => Returns (reviews st)))
    = bind (remap_all patches (map candidate items))
        (fun new => Returns (rs ++ new)).
Proof.
  induction 1 as [|item items Hitem _ IH]; intros rs.
  - cbn. rewrite app_nil_r. reflexivity.
  - cbn [map concat remap_all].
    rewrite (scan_written patches item rs _ Hitem), !bind_assoc.
    destruct (remap patches (candidate item)) as [r|err]; cbn [bind];
      [|reflexivity].
    rewrite IH, bind_assoc.
    destruct (remap_all patches (map candidate items)); cbn [bind];
      [|reflexivity].
    rewrite <- app_assoc. reflexivity.
Qed.

Lemma trim_fixed (s : list N) :
  (forall c t, s = c :: t -> is_space c = false) ->
  (forall t c, s = t ++ [c] -> is_space c = false) ->
  trim s = s.
Proof.
  intros Hfirst Hlast. unfold trim.
  assert (E1 : dropWhile is_space s = s).
  { destruct s as [|c t]; [reflexivity|]. cbn [dropWhile].
    rewrite (Hfirst c t eq_refl). reflexivity. }
  rewrite E1.
  assert (E2 : dropWhile is_space (rev s) = rev s).
  { destruct (rev s) as [|c t] eqn:E; [reflexivity|]. cbn [dropWhile].
    rewrite (Hlast (rev t) c); [reflexivity|].
    rewrite <- (rev_involutive s), E. reflexivity. }
  rewrite E2. apply rev_involutive.
Qed.

Lemma join_nl_snoc (ls : list (list N)) (l : list N) :
  ls <> [] -> join_nl (ls ++ [l]) = join_nl ls ++ nl :: l.
Proof.
  induction ls as [|x [|y ls] IH]; intros Hne; [contradiction|reflexivity|].
  change (join_nl ((x :: y :: ls) ++ [l]))
    with (x ++ nl :: join_nl ((y :: ls) ++ [l])).
  rewrite IH by discriminate.
  change (join_nl (x :: y :: ls)) with (x ++ nl :: join_nl (y :: ls)).
  rewrite <- app_assoc. reflexivity.
Qed.

Lemma range_text_no_nl (d1 d2 : list N) :
  digits d1 -> digits d2 -> ~ In nl (range_text d1 d2).
Proof.
  intros [_ H1] [_ H2] Hin. unfold range_text in Hin.
  rewrite forallb_forall in H1, H2.
  apply in_app_or in Hin as [Hin|Hin]; [apply H1 in Hin; discriminate|].
  apply in_app_or in Hin as [[H|[]]|Hin]; [discriminate|].
  apply in_app_or in Hin as [Hin|[H|[]]];
    [apply H2 in Hin; discriminate | discriminate].
Qed.

(** The lines of a written reply, as [parseReview] gets them back from
    the text. *)
Lemma written_response_lines
    (item : list N * list N * list (list N))
    (items : list (list N * list N * list (list N))) :
  Forall well_written (item :: items) ->
  let lines := concat (map written (item :: items)) in
  trim (join_nl lines) = join_nl lines
  /\ split_nl (join_nl lines) = lines.
Proof.
  intros Hall lines.
  assert (Hne : lines <> [])
    by (unfold lines; destruct item as [[d1 d2] body]; discriminate).
  split.
  - apply trim_fixed.
    + intros c t E. unfold lines in E.
      destruct item as [[d1 d2] body].
      pose proof (Forall_inv Hall) as Hitem. cbn [well_written] in Hitem.
      destruct Hitem as (H1 & _ & _).
      cbn [map concat written app] in E.
      destruct d1 as [|x d1]; [destruct H1 as [H1 _]; contradiction|].
      destruct (body ++ [commentSeparator] ++ concat (map written items))
        as [|l ls] eqn:El.
      * destruct body; discriminate.
      * rewrite <- app_assoc in E. rewrite El in E.
        change (join_nl (range_text (x :: d1) d2 :: l :: ls))
          with (range_text (x :: d1) d2 ++ nl :: join_nl (l :: ls)) in E.
        injection E as <- _. apply digit_is_not_space.
        destruct H1 as [_ H1]. cbn [forallb] in H1.
        apply andb_true_iff in H1 as [H1 _]. exact H1.
    + intros t c E.
      assert (Hlast : exists front, lines = front ++ [commentSeparator]
                                    /\ front <> []).
      { unfold lines. clear -Hne.
        destruct (exists_last
                    (l := item :: items) ltac:(discriminate))
          as (front & [[d1 d2] body] & ->).
        rewrite map_app, concat_app. cbn [map concat written].
        rewrite app_nil_r.
        exists (concat (map written front) ++ range_text d1 d2 :: body).
        split; [rewrite <- app_assoc; reflexivity|].
        destruct (concat (map written front)); discriminate. }
      destruct Hlast as (front & Ef & Hfront).
      rewrite Ef, (join_nl_snoc front commentSeparator Hfront) in E.
      change (nl :: commentSeparator) with ([nl; 45; 45]%N ++ [45%N]) in E.
      rewrite app_assoc in E. apply app_inj_tail in E as [_ <-].
      reflexivity.
  - refine (proj2 (AnnotateFacts.split_nl_join lines [] _ Hne)).
    unfold lines. apply Forall_forall. intros l Hl.
    apply in_concat in Hl as (w & Hw & Hl).
    apply in_map_iff in Hw as ([[d1 d2] body] & <- & Hitem).
    rewrite Forall_forall in Hall.
    destruct (Hall _ Hitem) as (H1 & H2 & Hbody).
    cbn [written] in Hl. destruct Hl as [<-|Hl];
      [apply range_text_no_nl; assumption|].
    apply in_app_or in Hl as [Hl|[<-|[]]].
    + rewrite Forall_forall in Hbody. apply (Hbody l Hl).
    + cbn. intuition discriminate.
Qed.

Lemma sanitizeResponse_without_block (comment : list N) :
  indexOf comment (SanitizeSpec.opener (lit "suggestion")) 0 = None ->
  indexOf comment (SanitizeSpec.opener (lit "diff")) 0 = None ->
  _sanitizeResponse comment = comment.
Proof.
  intros Hs Hd. unfold _sanitizeResponse, _sanitizeCodeBlock.
  change (lit "```" ++ lit "suggestion")
    with (SanitizeSpec.opener (lit "suggestion")).
  change (lit "```" ++ lit "diff") with (SanitizeSpec.opener (lit "diff")).
  rewrite Hs. simp sanitize_loop. rewrite Hd. simp sanitize_loop.
  reflexivity.
Qed.

(** X11.  A reply written in the format of the prompt is read back as it
    was written.  For comments that each consist of a line [start-end:],
    body lines and the separator [---], in a reply without a suggestion
    or diff block, [parseReview] validates one candidate per comment, in
    order: the range is the two numbers of its first line and the text is
    its body lines, each with a newline behind it.  When the range of
    every candidate lies within a known unit, the candidates are what
    [parseReview] returns. *)
Theorem parseReview_written_reply
    (items : list (list N * list N * list (list N)))
    (patches : list Patch) :
  Forall well_written items ->
  let response := join_nl (concat (map written items)) in
  indexOf response (SanitizeSpec.opener (lit "suggestion")) 0 = None ->
  indexOf response (SanitizeSpec.opener (lit "diff")) 0 = None ->
  parseReview response patches = remap_all patches (map candidate items)
  /\ (Forall known_unit patches ->
      Forall (fun c =>
                (startLine c <= endLine c)%Z
                /\ exists p, In p patches
                             /\ inside (startLine c) (endLine c) p)
        (map candidate items) ->
      parseReview response patches = Returns (map candidate items)).
Proof.
  intros Hall response Hs Hd.
  assert (Hparse : parseReview response patches
                   = remap_all patches (map candidate items)).
  { destruct items as [|item items]; [reflexivity|].
    destruct (written_response_lines item items Hall) as [Htrim Hsplit].
    unfold parseReview, response_lines. fold response in Htrim, Hsplit.
    rewrite Htrim, (sanitizeResponse_without_block response Hs Hd), Hsplit.
    unfold state0. rewrite (scan_items patches _ Hall []).
    destruct (remap_all patches (map candidate (item :: items)));
      reflexivity. }
  split; [exact Hparse|].
  intros Hknown Hin. rewrite Hparse. clear -Hknown Hin.
  induction Hin as [|c cs (Hse & p & Hp & Hi) _ IH]; [reflexivity|].
  cbn [remap_all]. rewrite (remap_inside patches c p Hknown Hp Hse Hi).
  cbn [bind]. rewrite IH. reflexivity.
Qed.

(** Two comments, the first on lines of the unit 1-4 and the second
    outside of it: the first comes back as written, the second moved. *)
Lemma parseReview_written_reply_witness :
  parseReview (join_nl (concat (map written two_comments))) [(1, 4, [])%Z]
  = remap_all [(1, 4, [])%Z] (map candidate two_comments).
Proof.
  apply (parseReview_written_reply two_comments [(1, 4, [])%Z]).
  - repeat constructor; try discriminate; try reflexivity;
      cbn; intuition discriminate.
  - reflexivity.
  - reflexivity.
Defined.

End ParseFacts.

(* ===================================================================== *)
(** ** The unit a comment is moved to *)
(* ===================================================================== *)

Module OverlapFacts.

Import Review ReviewSpec OverlapSpec.



End OverlapFacts.

(* ===================================================================== *)
(** ** The token budget of a request *)
(* ===================================================================== *)

Module BudgetFacts.

Import Pack PackSpec.

Section Budget.

Variable getTokenCount : list N -> N.
Variable requestTokens : Z.
Variable getCommentChainsWithinRange : Z -> Z -> outcome (list N).

Local Abbreviation total := (PackSpec.total getTokenCount).

(** The second loop only adds the tokens of comment chains that fit. *)
Lemma pack_loop_tokens (n : nat) (ps : list Review.Patch) :
  forall st,
    let r := pack_loop getTokenCount requestTokens
               getCommentChainsWithinRange n st ps in
    (tokens st <= tokens r <= Z.max (tokens st) requestTokens)%Z.
Proof.
  induction ps as [|[[s e] patch] ps IH]; intros st; cbn zeta.
  - cbn [pack_loop]. lia.
  - cbn [pack_loop].
    destruct (n <=? patchesPacked st); [lia|].
    match goal with
    | |- context [pack_loop _ _ _ n ?st' ps] => specialize (IH st')
    end.
    cbn zeta in IH. cbn [tokens] in IH.
    match type of IH with
    | context [negb (?a >? ?b)%Z] =>
        destruct (a >? b)%Z eqn:E; cbn [negb] in IH |- *;
        [|rewrite Z.gtb_ltb, Z.ltb_ge in E]
    end; lia.
Qed.

(** The second loop leaves everything as it is when there is nothing to
    pack. *)
Lemma pack_loop_nothing (ps : list Review.Patch) (st : packing) :
  patchesPacked st = 0 ->
  pack_loop getTokenCount requestTokens getCommentChainsWithinRange 0 st ps
  = st.
Proof.
  intros H. destruct ps as [|[[s e] patch] ps]; [reflexivity|].
  cbn [pack_loop]. rewrite H. reflexivity.
Qed.

(** X13.  With [promptTokens] tokens spent on the prompt before the units,
    [doReview] packs the longest prefix of the units that fits the budget
    together with the prompt, and its tally of tokens never leaves the
    budget: the tally covers the prompt and the packed units, it stays
    within the budget whenever a unit is packed, and a comment chain is
    only counted when it still fits.  When not even the first unit fits
    with the prompt, nothing is packed: the text for the model and the
    tally stay as they were. *)
Theorem pack_within_budget (promptTokens : Z) (insPatches0 : list N)
    (patches : list Review.Patch) :
  let r := pack getTokenCount requestTokens getCommentChainsWithinRange
             promptTokens insPatches0 patches in
  let n := patchesPacked r in
  n <= length patches
  /\ (forall k, 0 < k <= n ->
                (promptTokens + total (firstn k patches) <= requestTokens)%Z)
  /\ (n < length patches ->
      (promptTokens + total (firstn (S n) patches) > requestTokens)%Z)
  /\ (promptTokens + total (firstn n patches) <= tokens r)%Z
  /\ (tokens r <= Z.max promptTokens requestTokens)%Z
  /\ (0 < n -> (tokens r <= requestTokens)%Z)
  /\ (n = 0 -> insPatches r = insPatches0 /\ tokens r = promptTokens).
Proof.
  cbn zeta. unfold pack.
  destruct (PackFacts.count_loop_spec getTokenCount requestTokens patches
              promptTokens 0) as (m & Hc & Hm & Hin & Hout).
  rewrite Hc. cbn [Nat.add].
  set (st := mkPacking (promptTokens + total (firstn m patches)) 0
               insPatches0).
  destruct (PackFacts.pack_loop_spec getTokenCount requestTokens
              getCommentChainsWithinRange m patches st ltac:(cbn; lia))
    as (Hp & _).
  pose proof (pack_loop_tokens m patches st) as Ht.
  cbn zeta in Ht. cbn [st tokens patchesPacked Nat.add] in Hp, Ht.
  rewrite Nat.sub_0_r, Nat.min_l in Hp by exact Hm.
  fold st in Hp, Ht. rewrite Hp.
  pose proof (PackFacts.total_nonneg getTokenCount (firstn m patches))
    as Hnn.
  split; [exact Hm|]. split; [exact Hin|]. split; [exact Hout|].
  split; [lia|].
  assert (Hfit : 0 < m -> (tokens (pack_loop getTokenCount requestTokens
                                     getCommentChainsWithinRange m st
                                     patches) <= requestTokens)%Z).
  { intros Hpos. specialize (Hin m ltac:(lia)). lia. }
  split.
  { destruct m as [|m'].
    - cbn [firstn PackSpec.total fold_right] in Ht. lia.
    - specialize (Hfit ltac:(lia)). lia. }
  split; [exact Hfit|].
  intros ->. rewrite pack_loop_nothing by reflexivity.
  cbn [st insPatches tokens firstn PackSpec.total fold_right].
  split; [reflexivity | lia].
Qed.

End Budget.

(** One token per character and a budget of 20, 12 of them spent on the
    prompt: of the three units of 4, 5 and 3 tokens only the first fits,
    and a comment chain of 6 tokens is left out of the tally. *)
Lemma pack_within_budget_witness :
  patchesPacked
    (pack char_count 20 (fun _ _ => Returns (lit "chain.")) 12 []
       three_units) = 1
  /\ (tokens
        (pack char_count 20 (fun _ _ => Returns (lit "chain.")) 12 []
           three_units) <= 20)%Z.
Proof.
  destruct (pack_within_budget char_count 20
              (fun _ _ => Returns (lit "chain.")) 12 [] three_units)
    as (_ & _ & _ & _ & _ & H & _).
  split; [reflexivity|]. apply H. vm_compute. lia.
Defined.

End BudgetFacts.

(* ===================================================================== *)
(** ** Triage markers *)
(* ===================================================================== *)

Module TriageFacts.

Import Triage TriageSpec.

Lemma first_alt_sound (alts : list string) (s capture after : list N) :
  first_alt alts s = Some (capture, after) ->
  In capture (map lit alts) /\ s = capture ++ after.
Proof.
  induction alts as [|a alts IH]; cbn [first_alt]; [discriminate|].
  destruct (expect a s) as [r|] eqn:E.
  - intros [= <- <-]. apply expect_spec in E.
    split; [left; reflexivity | exact E].
  - intros H. destruct (IH H) as [Hin Hs]. split; [right; exact Hin|exact Hs].
Qed.

Lemma triage_here_sound (alts : list string) (s capture after : list N) :
  triage_here alts s = Some (capture, after) ->
  exists ws, marker alts s [] ws capture after.
Proof.
  unfold triage_here. intros H.
  destruct (expect "[TRIAGE]:" s) as [r|] eqn:E; [|discriminate].
  cbn [obind] in H. apply expect_spec in E.
  destruct (LineFacts.dropWhile_spec is_space r) as (ws & Er & Hws).
  apply first_alt_sound in H as [Hin Hd].
  exists ws. split; [exact Hin|]. split; [exact Hws|].
  cbn [app]. rewrite E, Er at 1. rewrite Hd. reflexivity.
Qed.

Lemma triage_here_complete (alts : list string) (ws verdict after : list N) :
  exclusive alts -> In verdict (map lit alts) -> all_space ws ->
  triage_here alts (lit "[TRIAGE]:" ++ ws ++ verdict ++ after)
  = Some (verdict, after).
Proof.
  intros Hex Hin Hws. apply in_map_iff in Hin as (v & <- & Hv).
  destruct (Hex v Hv) as [Halt (c & t & Ec & Hc)].
  unfold triage_here. rewrite expect_app. cbn [obind].
  rewrite Ec. cbn [app].
  rewrite (LineFacts.dropWhile_app is_space ws c (t ++ after) Hws Hc).
  change (c :: t ++ after) with ((c :: t) ++ after). rewrite <- Ec.
  apply Halt.
Qed.

Lemma triage_match_sound (alts : list string) (s : list N) :
  forall before capture after,
    triage_match alts s = Some (before, capture, after) ->
    (exists ws, marker alts s before ws capture after)
    /\ forall i, i < length before ->
                 triage_here alts (skipn i s) = None.
Proof.
  induction s as [|c s IH]; intros before capture after; cbn [triage_match].
  - destruct (triage_here alts []) as [[cap post]|] eqn:E; [|discriminate].
    intros [= <- <- <-]. split; [|cbn; lia].
    apply triage_here_sound. exact E.
  - destruct (triage_here alts (c :: s)) as [[cap post]|] eqn:E.
    + intros [= <- <- <-]. split; [|cbn; lia].
      apply triage_here_sound. exact E.
    + destruct (triage_match alts s) as [[[pre cap] post]|] eqn:Em;
        [|discriminate].
      intros [= <- <- <-].
      destruct (IH pre cap post eq_refl) as [(ws & Hin & Hws & Hs) Hnone].
      split.
      * exists ws. split; [exact Hin|]. split; [exact Hws|].
        cbn [app]. rewrite Hs at 1. reflexivity.
      * intros [|i] Hi; [exact E|]. cbn [skipn]. apply Hnone.
        cbn [length] in Hi. lia.
Qed.

Lemma triage_match_complete (alts : list string) (m capture after : list N) :
  triage_here alts m = Some (capture, after) ->
  forall before,
    (forall i, i < length before ->
               triage_here alts (skipn i (before ++ m)) = None) ->
    triage_match alts (before ++ m) = Some (before, capture, after).
Proof.
  intros Hm. induction before as [|c before IH]; intros Hnone.
  - cbn [app]. destruct m; cbn [triage_match]; rewrite Hm; reflexivity.
  - pose proof (Hnone 0 ltac:(cbn; lia)) as H0. cbn [skipn app] in H0.
    cbn [app triage_match]. rewrite H0. rewrite IH; [reflexivity|].
    intros i Hi. apply (Hnone (S i)). cbn [length]. lia.
Qed.

(** What [text.match] finds: the leftmost marker of the text. *)
Lemma triage_match_first (alts : list string) (s before capture
    after : list N) :
  exclusive alts ->
  (triage_match alts s = Some (before, capture, after)
   <-> exists ws, first_marker alts s before ws capture after).
Proof.
  intros Hex. split.
  - intros H. apply triage_match_sound in H as [(ws & Hm) Hnone].
    exists ws. split; [exact Hm|].
    intros before' ws' verdict' after' (Hin' & Hws' & Hs').
    destruct (Nat.le_gt_cases (length before) (length before')) as [Hle|Hgt];
      [exact Hle|].
    exfalso. specialize (Hnone (length before') Hgt).
    rewrite Hs', skipn_app, skipn_all, Nat.sub_diag in Hnone.
    cbn [skipn app] in Hnone.
    rewrite (triage_here_complete alts ws' verdict' after' Hex Hin' Hws')
      in Hnone.
    discriminate.
  - intros (ws & (Hin & Hws & ->) & Hfirst).
    apply triage_match_complete;
      [apply triage_here_complete; assumption|].
    intros i Hi.
    destruct (triage_here alts
                (skipn i (before ++ lit "[TRIAGE]:" ++ ws ++ capture
                          ++ after)))
      as [[cap post]|] eqn:E; [|reflexivity].
    exfalso. apply triage_here_sound in E as (ws' & Hin' & Hws' & Hs').
    cbn [app] in Hs'.
    specialize (Hfirst (firstn i before) ws' cap post).
    rewrite length_firstn in Hfirst.
    assert (Hle : length before <= Nat.min i (length before)); [|lia].
    apply Hfirst. split; [exact Hin'|]. split; [exact Hws'|].
    rewrite <- Hs'.
    rewrite <- (firstn_skipn i (before ++ _)) at 1.
    f_equal. rewrite firstn_app.
    replace (i - length before) with 0 by lia.
    cbn [firstn]. rewrite app_nil_r. reflexivity.
Qed.

Lemma triageRegex_exclusive : exclusive triageRegex.
Proof.
  intros v [<-|[<-|[]]]; (split; [intros after|]).
  - unfold triageRegex. cbn [first_alt]. rewrite expect_app. reflexivity.
  - eexists _, _. split; reflexivity.
  - reflexivity.
  - eexists _, _. split; reflexivity.
Qed.

Lemma validityRegex_exclusive : exclusive Simple.validityRegex.
Proof.
  intros v [<-|[<-|[]]]; (split; [intros after|]).
  - unfold Simple.validityRegex. cbn [first_alt]. rewrite expect_app.
    reflexivity.
  - eexists _, _. split; reflexivity.
  - reflexivity.
  - eexists _, _. split; reflexivity.
Qed.

End TriageFacts.

(* ===================================================================== *)
(** ** [doSummary] *)
(* ===================================================================== *)

Module SummaryFacts.

Import Triage TriageSpec Summary.

Lemma str_eqb_refl (a : list N) : str_eqb a a = true.
Proof. apply LineFacts.str_eqb_spec. reflexivity. Qed.

Lemma length_zero (s : list N) : (length s =? 0) = true <-> s = [].
Proof.
  destruct s; cbn; split; intros H; try reflexivity; discriminate.
Qed.

Section Summarize.

Variable getTokenCount : list N -> N.
Variable requestTokens : Z.
Variable reviewSimpleChanges : bool.
Variables summarizeFileDiff triageFileDiff : list N.
Variable render : list N -> list N -> list N -> list N.
Variable chat : list N -> outcome (list N).

Local Abbreviation doSummary :=
  (Summary.doSummary getTokenCount requestTokens reviewSimpleChanges
     summarizeFileDiff triageFileDiff render chat).
Local Abbreviation prompt_of :=
  (renderSummarizeFileDiff reviewSimpleChanges summarizeFileDiff
     triageFileDiff render).

(** X16.  [doSummary] returns [null] exactly when the diff of the file is
    empty, the prompt is over the token limit, the bot fails or the bot
    answers nothing.  Otherwise it returns the file name it was given,
    and the file is marked as not needing a review exactly when
    [reviewSimpleChanges] is off and the leftmost [[TRIAGE]:] marker of
    the answer carries the verdict [APPROVED].  The summary is the answer
    as it is when [reviewSimpleChanges] is on or the answer has no
    marker; with a marker it is the answer without its leftmost marker,
    trimmed. *)
Theorem doSummary_verdict (filename fileDiff : list N) :
  let prompt := prompt_of filename fileDiff in
  (doSummary filename fileDiff = None
   <-> fileDiff = []
       \/ (Z.of_N (getTokenCount prompt) > requestTokens)%Z
       \/ (exists e, chat prompt = Throws e)
       \/ chat prompt = Returns [])
  /\ (forall f summary needs,
        doSummary filename fileDiff = Some (f, summary, needs) ->
        f = filename
        /\ exists resp,
             chat prompt = Returns resp
             /\ (needs = false
                 <-> reviewSimpleChanges = false
                     /\ exists before ws after,
                          first_marker triageRegex resp before ws
                            (lit "APPROVED") after)
             /\ (reviewSimpleChanges = true
                 \/ (forall before ws verdict after,
                       ~ marker triageRegex resp before ws verdict after) ->
                 summary = resp)
             /\ (reviewSimpleChanges = false ->
                 forall before ws verdict after,
                   first_marker triageRegex resp before ws verdict after ->
                   summary = trim (before ++ after))).
Proof.
  intros prompt. unfold Summary.doSummary. fold prompt.
  destruct (length fileDiff =? 0) eqn:El.
  { apply length_zero in El. split.
    - split; [intros _; left; exact El | reflexivity].
    - discriminate. }
  assert (Hne : fileDiff <> [])
    by (intros E; apply length_zero in E; congruence).
  destruct (Z.of_N (getTokenCount prompt) >? requestTokens)%Z eqn:Et.
  { split.
    - split; [intros _; right; left; apply Z.gtb_gt; exact Et | reflexivity].
    - discriminate. }
  assert (Hfit : ~ (Z.of_N (getTokenCount prompt) > requestTokens)%Z)
    by (rewrite Z.gtb_ltb, Z.ltb_ge in Et; lia).
  destruct (chat prompt) as [resp|err] eqn:Ec.
  2:{ split.
      - split; [intros _; right; right; left; exists err; reflexivity
               | reflexivity].
      - discriminate. }
  destruct (str_eqb resp []) eqn:Er.
  { apply LineFacts.str_eqb_spec in Er. subst resp. split.
    - split; [intros _; right; right; right; reflexivity | reflexivity].
    - discriminate. }
  assert (Hresp : resp <> [])
    by (intros E; apply LineFacts.str_eqb_spec in E; congruence).
  assert (Hsome : forall r : list N * list N * bool,
             Some r = None
             <-> fileDiff = []
                 \/ (Z.of_N (getTokenCount prompt) > requestTokens)%Z
                 \/ (exists e, Returns resp = Throws e)
                 \/ Returns resp = Returns []).
  { intros r. split; [discriminate|].
    intros [H|[H|[(e & H)|H]]]; try contradiction; try discriminate.
    injection H as H. contradiction. }
  destruct reviewSimpleChanges eqn:Ersc; cbn [negb].
  { split; [apply Hsome|].
    intros f summary needs [= <- <- <-]. split; [reflexivity|].
    exists resp. split; [reflexivity|]. split.
    - split; [discriminate | intros [H _]; discriminate].
    - split; [reflexivity | discriminate]. }
  destruct (triage_match triageRegex resp) as [[[before triage] after]|]
    eqn:Em.
  - split; [apply Hsome|].
    intros f summary needs [= <- <- <-]. split; [reflexivity|].
    exists resp. split; [reflexivity|].
    pose proof (proj1 (TriageFacts.triage_match_first _ _ _ _ _
                         TriageFacts.triageRegex_exclusive) Em)
      as (ws & Hfirst).
    assert (Hcases : triage = lit "NEEDS_REVIEW" \/ triage = lit "APPROVED").
    { destruct Hfirst as [(Hin & _) _].
      destruct Hin as [<-|[<-|[]]]; [left | right]; reflexivity. }
    split; [|split].
    + split.
      * intros Hneeds. split; [reflexivity|].
        destruct Hcases as [-> | ->]; [discriminate Hneeds|].
        exists before, ws, after. exact Hfirst.
      * intros (_ & before' & ws' & after' & Hfirst').
        apply (fun H => proj2 (TriageFacts.triage_match_first _ _ _ _ _
                                 TriageFacts.triageRegex_exclusive)
                          (ex_intro _ ws' H)) in Hfirst'.
        rewrite Em in Hfirst'. injection Hfirst' as _ -> _. reflexivity.
    + intros [H|H]; [discriminate|].
      exfalso. destruct Hfirst as [Hm _]. exact (H _ _ _ _ Hm).
    + intros _ before' ws' verdict' after' Hfirst'.
      apply (fun H => proj2 (TriageFacts.triage_match_first _ _ _ _ _
                               TriageFacts.triageRegex_exclusive)
                        (ex_intro _ ws' H)) in Hfirst'.
      rewrite Em in Hfirst'. injection Hfirst' as -> _ ->. reflexivity.
  - split; [apply Hsome|].
    intros f summary needs [= <- <- <-]. split; [reflexivity|].
    exists resp. split; [reflexivity|]. split; [|split].
    + split; [discriminate|].
      intros (_ & before & ws & after & Hfirst).
      apply (fun H => proj2 (TriageFacts.triage_match_first _ _ _ _ _
                               TriageFacts.triageRegex_exclusive)
                        (ex_intro _ ws H)) in Hfirst.
      rewrite Em in Hfirst. discriminate.
    + reflexivity.
    + intros _ before ws verdict after Hfirst.
      apply (fun H => proj2 (TriageFacts.triage_match_first _ _ _ _ _
                               TriageFacts.triageRegex_exclusive)
                        (ex_intro _ ws H)) in Hfirst.
      rewrite Em in Hfirst. discriminate.
Qed.

End Summarize.

(** A bot that approves the change: the file needs no review and the
    summary is the answer without the marker. *)
Lemma doSummary_verdict_witness :
  Summary.doSummary PackSpec.char_count 100 false (lit "Summarize: ")
    (lit " Triage it.") (fun _ fileDiff prompt => prompt ++ fileDiff)
    approving (lit "a.ts") (lit "@@ -1,1 +1,1 @@")
  = Some (lit "a.ts", lit "Renames a variable.", false)
  /\ exists before ws after,
       first_marker triageRegex
         (lit "Renames a variable." ++ [nl] ++ lit "[TRIAGE]: APPROVED")
         before ws (lit "APPROVED") after.
Proof.
  split; [reflexivity|].
  destruct (doSummary_verdict PackSpec.char_count 100 false
              (lit "Summarize: ") (lit " Triage it.")
              (fun _ fileDiff prompt => prompt ++ fileDiff) approving
              (lit "a.ts") (lit "@@ -1,1 +1,1 @@")) as [_ H].
  destruct (H (lit "a.ts") (lit "Renames a variable.") false eq_refl)
    as (_ & resp & Hresp & Hneeds & _).
  injection Hresp as <-.
  apply Hneeds. reflexivity.
Defined.

End SummaryFacts.

(* ===================================================================== *)
(** ** [SimpleReview] *)
(* ===================================================================== *)

Module SimpleFacts.

Import Triage TriageSpec Inputs Simple SimpleSpec.

Lemma verdict_first (alts : list string) (verdict : string)
    (response : list N) :
  exclusive alts -> In verdict alts ->
  (forall v, In v alts -> v <> verdict ->
             str_eqb (lit v) (lit verdict) = false) ->
  (match triage_match alts response with
   | None => false
   | Some (_, triage, _) => str_eqb triage (lit verdict)
   end = true
   <-> exists before ws after,
         first_marker alts response before ws (lit verdict) after).
Proof.
  intros Hex Hin Hother. split.
  - destruct (triage_match alts response) as [[[before triage] after]|]
      eqn:Em; [|discriminate].
    intros E. apply LineFacts.str_eqb_spec in E. subst triage.
    apply (TriageFacts.triage_match_first _ _ _ _ _ Hex) in Em
      as (ws & Hfirst).
    exists before, ws, after. exact Hfirst.
  - intros (before & ws & after & Hfirst).
    apply (fun H => proj2 (TriageFacts.triage_match_first _ _ _ _ _ Hex)
                      (ex_intro _ ws H)) in Hfirst.
    rewrite Hfirst. apply SummaryFacts.str_eqb_refl.
Qed.

Lemma first_marker_nonempty (alts : list string) (response before ws
    verdict after : list N) :
  first_marker alts response before ws verdict after ->
  (length response =? 0) = false.
Proof.
  intros [(_ & _ & ->) _]. rewrite !length_app. cbn [lit length].
  apply Nat.eqb_neq. cbn. lia.
Qed.

(** X20.  The two verdict parsers of [SimpleReview] answer by the
    leftmost marker their pattern matches: [parseCheckIsNeedToReviewResponse]
    is true exactly when the leftmost [[TRIAGE]:] marker with
    [NEEDS_REVIEW] or [APPROVED] carries [NEEDS_REVIEW], and
    [parseCheckReviewValidityResponse] exactly when the leftmost marker
    with [VALID] or [INVALID] carries [VALID].  An answer without such a
    marker, the empty answer included, counts as no. *)
Theorem simple_verdicts (response : list N) :
  (parseCheckIsNeedToReviewResponse response = true
   <-> exists before ws after,
         first_marker triageRegex response before ws (lit "NEEDS_REVIEW")
           after)
  /\ (parseCheckReviewValidityResponse response = true
      <-> exists before ws after,
            first_marker validityRegex response before ws (lit "VALID")
              after).
Proof.
  unfold parseCheckIsNeedToReviewResponse, parseCheckReviewValidityResponse.
  split.
  - destruct (length response =? 0) eqn:El.
    + split; [discriminate|]. intros (before & ws & after & H).
      apply first_marker_nonempty in H. congruence.
    + apply verdict_first;
        [apply TriageFacts.triageRegex_exclusive | left; reflexivity|].
      intros v [<-|[<-|[]]] Hv; [contradiction | reflexivity].
  - destruct (length response =? 0) eqn:El.
    + split; [discriminate|]. intros (before & ws & after & H).
      apply first_marker_nonempty in H. congruence.
    + apply verdict_first;
        [apply TriageFacts.validityRegex_exclusive | left; reflexivity|].
      intros v [<-|[<-|[]]] Hv; [contradiction | reflexivity].
Qed.

(** An answer that is invalid first and valid later counts as invalid. *)
Lemma simple_verdicts_witness :
  parseCheckReviewValidityResponse
    (lit "[TRIAGE]: INVALID" ++ [nl] ++ lit "[TRIAGE]: VALID") = false
  /\ ~ exists before ws after,
         first_marker validityRegex
           (lit "[TRIAGE]: INVALID" ++ [nl] ++ lit "[TRIAGE]: VALID")
           before ws (lit "VALID") after.
Proof.
  split; [reflexivity|]. intros H.
  apply (proj2 (simple_verdicts _)) in H. discriminate H.
Defined.

(** [parseReview] of [SimpleReview] anchors its comments as that of
    [review.ts] does: the notes differ, the ranges do not. *)
Lemma simple_remap_anchored (patches : list Review.Patch)
    (r0 : Review.Review) :
  patches <> [] ->
  exists r, remap patches r0 = Returns r /\ ReviewSpec.anchored patches r.
Proof.
  intros Hne. unfold remap.
  destruct (RemapFacts.overlap_loop_spec r0 patches [] Review.best0
              (RemapFacts.searching_best0 r0))
    as [(Hw & p & Hp & Hpos & Hlen)|[Hw _ _ _ Hbest]]; cbn [app] in *.
  - rewrite Hw. exists r0. split; [reflexivity|].
    destruct (RemapFacts.overlap_inside r0 p Hpos Hlen) as [Hse Hin].
    exists p. split; [exact Hp | right; split; assumption].
  - rewrite Hw.
    destruct (negb (Review.bestPatchStartLine _ =? -1)%Z
              && negb (Review.bestPatchEndLine _ =? -1)%Z) eqn:E.
    + destruct Hbest as [(_ & Hs & _)|(_ & p & Hp & _ & Hs & He)].
      * rewrite Hs in E. discriminate.
      * eexists. split; [reflexivity|]. exists p.
        split; [exact Hp|]. left. split; cbn; congruence.
    + destruct patches as [|[[ps pe] txt] rest]; [contradiction|].
      eexists. split; [reflexivity|]. exists (ps, pe, txt).
      split; [left; reflexivity | left; split; reflexivity].
Qed.

Lemma simple_storeReview_anchored (patches : list Review.Patch)
    (st : Review.state) :
  patches <> [] ->
  Forall (ReviewSpec.anchored patches) (Review.reviews st) ->
  exists st',
    storeReview patches st = Returns st'
    /\ Forall (ReviewSpec.anchored patches) (Review.reviews st').
Proof.
  intros Hne Hst. unfold storeReview.
  destruct (Review.currentStartLine st) as [s|];
    [|exists st; split; auto].
  destruct (Review.currentEndLine st) as [e|]; [|exists st; split; auto].
  destruct (simple_remap_anchored patches
              (Review.mkReview s e (Review.currentComment st)) Hne)
    as (r & -> & Hr).
  cbn [bind]. eexists. split; [reflexivity|]. cbn [Review.reviews].
  apply Forall_app. split; [exact Hst | constructor; [exact Hr | constructor]].
Qed.

Lemma simple_scan_lines_anchored (patches : list Review.Patch)
    (lines : list (list N)) (st : Review.state) :
  patches <> [] ->
  Forall (ReviewSpec.anchored patches) (Review.reviews st) ->
  exists st',
    scan_lines patches st lines = Returns st'
    /\ Forall (ReviewSpec.anchored patches) (Review.reviews st').
Proof.
  intros Hne. revert st; induction lines as [|line lines IH]; intros st Hst.
  - exists st. split; [reflexivity | exact Hst].
  - cbn [scan_lines].
    assert (Hline : exists st1,
               scan_line patches st line = Returns st1
               /\ Forall (ReviewSpec.anchored patches) (Review.reviews st1)).
    { unfold scan_line.
      destruct (simple_storeReview_anchored patches st Hne Hst)
        as (st1 & E1 & H1).
      destruct (Review.lineNumberRangeRegex line) as [[m1 m2]|].
      - rewrite E1. cbn [bind]. eexists. split; [reflexivity | exact H1].
      - destruct (str_eqb (trim line) Review.commentSeparator).
        + rewrite E1. cbn [bind]. eexists. split; [reflexivity | exact H1].
        + destruct (Review.currentStartLine st), (Review.currentEndLine st);
            eexists; (split; [reflexivity | exact Hst]). }
    destruct Hline as (st1 & -> & H1). cbn [bind]. apply IH. exact H1.
Qed.

Lemma simple_parseReview_anchored (response : list N)
    (patches : list Review.Patch) :
  patches <> [] ->
  exists rs,
    parseReview response patches = Returns rs
    /\ Forall (ReviewSpec.anchored patches) rs.
Proof.
  intros Hne. unfold parseReview.
  destruct (simple_scan_lines_anchored patches
              (split_nl (Review._sanitizeResponse (trim response)))
              Review.state0 Hne)
    as (st & -> & Hst); [constructor|].
  cbn [bind].
  destruct (simple_storeReview_anchored patches st Hne Hst)
    as (st' & -> & Hst').
  cbn [bind]. exists (Review.reviews st'). split; [reflexivity | exact Hst'].
Qed.

(** What the two answers that let [review] go on hold. *)
Lemma needs_review_marker (response : list N) :
  parseCheckIsNeedToReviewResponse response = true ->
  exists before ws after,
    first_marker triageRegex response before ws (lit "NEEDS_REVIEW") after.
Proof.
  unfold parseCheckIsNeedToReviewResponse.
  destruct (length response =? 0); [discriminate|].
  apply verdict_first;
    [apply TriageFacts.triageRegex_exclusive | left; reflexivity|].
  intros v [<-|[<-|[]]] Hv; [contradiction | reflexivity].
Qed.

Lemma valid_marker (response : list N) :
  parseCheckReviewValidityResponse response = true ->
  exists before ws after,
    first_marker validityRegex response before ws (lit "VALID") after.
Proof.
  unfold parseCheckReviewValidityResponse.
  destruct (length response =? 0); [discriminate|].
  apply verdict_first;
    [apply TriageFacts.validityRegex_exclusive | left; reflexivity|].
  intros v [<-|[<-|[]]] Hv; [contradiction | reflexivity].
Qed.

Section Review.

Variable prompts : Prompts.
Variables lightBot heavyBot : list N -> outcome (list N).

(** X21.  [review] of [SimpleReview] hands a comment to the commenter for
    a patch only when the light bot asked for a review of the patch, the
    heavy bot's reply holds a comment, and the light bot found the review
    valid.  The comment is the first one that [parseReview] of
    [SimpleReview] reads from the reply against the patch alone, so its
    range is the range of the patch or lies within it; it is filed under
    the file name of the shared inputs. *)
Theorem review_posts (inputs : SimpleInputs) (patch : Z * Z * list N)
    (f : list N) (s e : Z) (c : list N) :
  review prompts lightBot heavyBot inputs patch = Some (f, s, e, c) ->
  let ins := with_patch inputs (snd patch) in
  f = filename inputs
  /\ (exists answer before ws after,
        lightBot (renderTriagePatchDiff prompts ins) = Returns answer
        /\ first_marker triageRegex answer before ws (lit "NEEDS_REVIEW")
             after)
  /\ (exists reply rest,
        heavyBot (renderReviewPatchDiff prompts ins) = Returns reply
        /\ Simple.parseReview reply [patch]
           = Returns (Review.mkReview s e c :: rest))
  /\ (exists answer before ws after,
        lightBot (renderCheckReviewValidity prompts ins) = Returns answer
        /\ first_marker validityRegex answer before ws (lit "VALID") after)
  /\ ((ReviewSpec.pStart patch = s /\ ReviewSpec.pEnd patch = e)
      \/ (ReviewSpec.pStart patch <= s /\ s <= e
          /\ e <= ReviewSpec.pEnd patch)%Z).
Proof.
  intros H ins. unfold review in H. cbv zeta in H.
  change (mkSimpleInputs (systemMessage (clone inputs))
            (title (clone inputs)) (filename (clone inputs)) (snd patch)
            (Inputs.review (clone inputs))) with ins in H.
  destruct (checkIsNeedToReview prompts lightBot ins) eqn:En;
    cbn [negb] in H; [|discriminate].
  destruct (executeReview prompts heavyBot ins patch) as [r|] eqn:Ex;
    [|discriminate].
  destruct (checkReviewValidity prompts lightBot ins) eqn:Ev;
    cbn [negb] in H; [|discriminate].
  injection H as <- <- <- <-.
  split; [reflexivity|]. split.
  { unfold checkIsNeedToReview in En.
    destruct (lightBot (renderTriagePatchDiff prompts ins)) as [answer|];
      [|discriminate].
    apply needs_review_marker in En as (before & ws & after & Hm).
    exists answer, before, ws, after. split; [reflexivity | exact Hm]. }
  unfold executeReview in Ex.
  destruct (heavyBot (renderReviewPatchDiff prompts ins)) as [reply|];
    [|discriminate].
  destruct (simple_parseReview_anchored reply [patch]
              ltac:(discriminate)) as (rs & Ers & Hrs).
  rewrite Ers in Ex. destruct rs as [|r0 rest]; [discriminate|].
  injection Ex as ->.
  split.
  { exists reply, rest. split; [reflexivity|]. rewrite Ers.
    destruct r; reflexivity. }
  split.
  { unfold checkReviewValidity in Ev.
    destruct (lightBot (renderCheckReviewValidity prompts ins))
      as [answer|]; [|discriminate].
    apply valid_marker in Ev as (before & ws & after & Hm).
    exists answer, before, ws, after. split; [reflexivity | exact Hm]. }
  apply Forall_inv in Hrs. destruct Hrs as (p & [<-|[]] & Hr).
  destruct Hr as [[Hs He]|[Hse [Hs He]]]; [left | right];
    repeat split; assumption.
Qed.

End Review.

(** A review that is asked for, made and found valid.  The comment on the
    lines 8 to 9 lies outside the patch on the lines 1 to 4: it is handed
    on with the range of the patch and behind the note as [SimpleReview]
    writes it, under the empty file name of the shared inputs. *)
Lemma review_posts_witness :
  review (mkPrompts (lit "$patch") (lit "$patch") (lit "$patch $review"))
    light heavy_outside default (1, 4, lit "hunk")%Z
  = Some ([], 1, 4,
          lit "> Note: This review was outside of the patch, but no patch was found that overlapped with it. Original lines [8-9]"
          ++ [nl] ++ lit "  " ++ [nl] ++ lit "  " ++ lit "fix" ++ [nl])%Z
  /\ ((1 = 1 /\ 4 = 4) \/ (1 <= 1 /\ 1 <= 4 /\ 4 <= 4))%Z.
Proof.
  split; [vm_compute; reflexivity|].
  destruct (review_posts
              (mkPrompts (lit "$patch") (lit "$patch") (lit "$patch $review"))
              light heavy_outside default (1, 4, lit "hunk")%Z [] 1 4
              (lit "> Note: This review was outside of the patch, but no patch was found that overlapped with it. Original lines [8-9]"
               ++ [nl] ++ lit "  " ++ [nl] ++ lit "  " ++ lit "fix" ++ [nl]))
    as (_ & _ & _ & _ & H); [vm_compute; reflexivity|].
  exact H.
Defined.

End SimpleFacts.

(* ===================================================================== *)
(** ** The files that are summarized and reviewed *)
(* ===================================================================== *)

Module SelectFacts.

Import Summary SelectSpec.

(** *** The cap on the number of files *)

Lemma cap_loop_spec (maxFiles : Z)
    (files : list (list N * list N * list N * list (Z * Z * list N))) :
  forall promises skippedFiles,
    let room :=
      if (maxFiles <=? 0)%Z then length files
      else Nat.min (Z.to_nat maxFiles - length promises) (length files) in
    cap_loop maxFiles promises skippedFiles files
    = (promises ++ firstn room files,
       skippedFiles ++ map filename_of (skipn room files)).
Proof.
  induction files as [|file rest IH]; intros promises skippedFiles room.
  - unfold room. destruct (maxFiles <=? 0)%Z; cbn; rewrite ?Nat.min_0_r;
      cbn; rewrite !app_nil_r; reflexivity.
  - cbn [cap_loop]. unfold room. clear room.
    destruct (Z.leb_spec maxFiles 0) as [Hle|Hgt]; cbn [orb].
    + rewrite IH. cbn zeta.
      destruct (Z.leb_spec maxFiles 0); [|lia].
      cbn [length firstn skipn]. rewrite <- app_assoc. reflexivity.
    + destruct (Z.ltb_spec (Z.of_nat (length promises)) maxFiles)
        as [Hlt|Hge].
      * rewrite IH. cbn zeta. destruct (Z.leb_spec maxFiles 0); [lia|].
        rewrite length_app. cbn [length].
        replace (Nat.min (Z.to_nat maxFiles - length promises)
                   (S (length rest)))
          with (S (Nat.min (Z.to_nat maxFiles - (length promises + 1))
                     (length rest))) by lia.
        cbn [firstn skipn]. rewrite <- app_assoc. reflexivity.
      * rewrite IH. cbn zeta. destruct (Z.leb_spec maxFiles 0); [lia|].
        replace (Z.to_nat maxFiles - length promises) with 0 by lia.
        cbn [Nat.min firstn skipn map]. rewrite <- app_assoc. reflexivity.
Qed.

(** X18.  The loop that starts the summaries, and the one that starts the
    reviews, takes the files in order up to the cap [maxFiles] and puts
    the names of all later files on the list of skipped files; a cap of
    zero or less is no cap.  Every file is started or skipped, none
    both. *)
Theorem cap_loop_takes_first (maxFiles : Z) (skippedFiles : list (list N))
    (files : list (list N * list N * list N * list (Z * Z * list N))) :
  ((maxFiles <= 0)%Z ->
   cap_loop maxFiles [] skippedFiles files = (files, skippedFiles))
  /\ ((0 < maxFiles)%Z ->
      cap_loop maxFiles [] skippedFiles files
      = (firstn (Z.to_nat maxFiles) files,
         skippedFiles
         ++ map filename_of (skipn (Z.to_nat maxFiles) files)))
  /\ (let (promises, skipped) := cap_loop maxFiles [] [] files in
      map filename_of promises ++ skipped = map filename_of files).
Proof.
  pose proof (cap_loop_spec maxFiles files [] skippedFiles) as H.
  pose proof (cap_loop_spec maxFiles files [] []) as H0.
  cbn zeta in H, H0. cbn [app length] in H, H0.
  rewrite Nat.sub_0_r in H, H0.
  split; [|split].
  - intros Hle. rewrite H. destruct (Z.leb_spec maxFiles 0); [|lia].
    rewrite firstn_all, skipn_all. cbn [map]. rewrite app_nil_r.
    reflexivity.
  - intros Hgt. rewrite H. destruct (Z.leb_spec maxFiles 0); [lia|].
    destruct (Nat.le_ge_cases (Z.to_nat maxFiles) (length files)) as [Hl|Hl].
    + rewrite Nat.min_l by exact Hl. reflexivity.
    + rewrite Nat.min_r by exact Hl.
      rewrite firstn_all, skipn_all, firstn_all2, skipn_all2 by exact Hl.
      reflexivity.
  - rewrite H0. rewrite <- map_app, firstn_skipn. reflexivity.
Qed.

(** With a cap of two, the third of three files is skipped. *)
Lemma cap_loop_takes_first_witness :
  cap_loop 2 [] [] three_files
  = (firstn 2 three_files, [lit "c.ts"]).
Proof.
  apply (proj1 (proj2 (cap_loop_takes_first 2 [] three_files))). lia.
Defined.

(** *** The files that need a review *)

Lemma find_split {A} (p : A -> bool) (l : list A) (x : A) :
  find p l = Some x ->
  exists pre post,
    l = pre ++ x :: post /\ p x = true /\ forall y, In y pre -> p y = false.
Proof.
  induction l as [|a l IH]; cbn [find]; [discriminate|].
  destruct (p a) eqn:Ea.
  - intros [= <-]. exists [], l. repeat split; [exact Ea | intros y []].
  - intros H. destruct (IH H) as (pre & post & -> & Hx & Hpre).
    exists (a :: pre), post. repeat split; [exact Hx|].
    intros y [<-|Hy]; [exact Ea | exact (Hpre y Hy)].
Qed.

Lemma find_none_iff {A} (p : A -> bool) (l : list A) :
  find p l = None <-> forall y, In y l -> p y = false.
Proof.
  induction l as [|a l IH]; cbn [find].
  - split; [intros _ y [] | reflexivity].
  - destruct (p a) eqn:Ea.
    + split; [discriminate|]. intros H.
      rewrite (H a (or_introl eq_refl)) in Ea. discriminate.
    + rewrite IH. split.
      * intros H y [<-|Hy]; [exact Ea | exact (H y Hy)].
      * intros H y Hy. apply H. right. exact Hy.
Qed.

(** X17.  A file is a candidate for review unless the first summary kept
    under its name says that it needs none: a file without a summary is
    a candidate.  The list [reviewsSkipped] holds the names of exactly
    the files that are no candidates, so every file is a candidate or
    listed as skipped, and none is both. *)
Theorem review_candidates (summaries : list (list N * list N * bool))
    (filesAndChanges : list (list N * list N * list N
                             * list (Z * Z * list N))) :
  (forall name,
     needsReview summaries name = false
     <-> exists pre summary post,
           summaries = pre ++ (name, summary, false) :: post
           /\ forall s, In s pre -> fst (fst s) <> name)
  /\ (forall file,
        In file (filesAndChangesReview summaries filesAndChanges)
        <-> In file filesAndChanges
            /\ needsReview summaries (filename_of file) = true)
  /\ reviewsSkipped summaries filesAndChanges
     = map filename_of
         (filter (fun file => negb (needsReview summaries (filename_of file)))
            filesAndChanges).
Proof.
  split; [|split].
  - intros name. unfold needsReview. split.
    + destruct (find _ summaries) as [[[n s] b]|] eqn:E; [|discriminate].
      intros ->. apply find_split in E as (pre & post & -> & Hn & Hpre).
      cbn [fst] in Hn. apply LineFacts.str_eqb_spec in Hn. subst n.
      exists pre, s, post. split; [reflexivity|].
      intros x Hx Ex. specialize (Hpre x Hx).
      apply LineFacts.str_eqb_spec in Ex. congruence.
    + intros (pre & s & post & -> & Hpre).
      assert (E : find (fun x => str_eqb (fst (fst x)) name)
                    (pre ++ (name, s, false) :: post)
                  = Some (name, s, false)).
      { clear -Hpre. induction pre as [|a pre IH]; cbn [app find fst].
        - rewrite SummaryFacts.str_eqb_refl. reflexivity.
        - destruct (str_eqb (fst (fst a)) name) eqn:Ea.
          + apply LineFacts.str_eqb_spec in Ea.
            exfalso. exact (Hpre a (or_introl eq_refl) Ea).
          + apply IH. intros x Hx. apply Hpre. right. exact Hx. }
      rewrite E. reflexivity.
  - intros file. unfold filesAndChangesReview. apply filter_In.
  - unfold reviewsSkipped. f_equal. apply filter_ext_in.
    intros file Hfile. f_equal.
    destruct (needsReview summaries (filename_of file)) eqn:En.
    + apply existsb_exists. exists file. split.
      * unfold filesAndChangesReview. apply filter_In. split; assumption.
      * apply SummaryFacts.str_eqb_refl.
    + apply not_true_iff_false. intros H.
      apply existsb_exists in H as (r & Hr & Er).
      unfold filesAndChangesReview in Hr. apply filter_In in Hr as [_ Hr].
      apply LineFacts.str_eqb_spec in Er. rewrite Er in Hr. congruence.
Qed.

(** A summary that says no for [a.ts], behind one for another file. *)
Lemma review_candidates_witness :
  exists pre summary post,
    [(lit "b.ts", lit "s", true); (lit "a.ts", lit "t", false)]
    = pre ++ (lit "a.ts", summary, false) :: post
    /\ forall s, In s pre -> fst (fst s) <> lit "a.ts".
Proof.
  apply (proj1 (review_candidates
                  [(lit "b.ts", lit "s", true); (lit "a.ts", lit "t", false)]
                  [])).
  reflexivity.
Defined.

(** *** From the summaries to the reviews *)

Lemma needsReview_app (a b : list (list N * list N * bool)) (name : list N) :
  needsReview (a ++ b) name
  = match find (fun s => str_eqb (fst (fst s)) name) a with
    | Some (_, _, needs) => needs
    | None => needsReview b name
    end.
Proof.
  unfold needsReview. induction a as [|x a IH]; [reflexivity|].
  cbn [app find]. destruct (str_eqb (fst (fst x)) name); [reflexivity|].
  exact IH.
Qed.

Section Pipeline.

Variable doSummary : list N -> list N -> option (list N * list N * bool).
Hypothesis doSummary_name :
  forall filename text result,
    doSummary filename text = Some result ->
    fst (fst result) = filename.

Local Abbreviation kept :=
  (flat_map
     (fun file =>
        match doSummary (filename_of file) (fileContent_of file) with
        | Some summary => [summary]
        | None => []
        end)).

(** No summary is kept under a name that no summarized file has. *)
Lemma kept_other (name : list N)
    (l : list (list N * list N * list N * list (Z * Z * list N))) :
  (forall file, In file l -> filename_of file <> name) ->
  needsReview (kept l) name = true.
Proof.
  induction l as [|file l IH]; intros Hl; [reflexivity|].
  cbn [flat_map]. rewrite needsReview_app.
  assert (Hfile : filename_of file <> name)
    by (apply Hl; left; reflexivity).
  destruct (doSummary (filename_of file) (fileContent_of file))
    as [r|] eqn:E; cbn [find].
  - rewrite (doSummary_name _ _ _ E).
    destruct (str_eqb (filename_of file) name) eqn:En.
    + apply LineFacts.str_eqb_spec in En. contradiction.
    + apply IH. intros f Hf. apply Hl. right. exact Hf.
  - apply IH. intros f Hf. apply Hl. right. exact Hf.
Qed.

(** The summary kept for a summarized file is the one [doSummary] gave
    for it. *)
Lemma kept_own
    (l : list (list N * list N * list N * list (Z * Z * list N)))
    (file : list N * list N * list N * list (Z * Z * list N)) :
  NoDup (map filename_of l) -> In file l ->
  needsReview (kept l) (filename_of file)
  = match doSummary (filename_of file) (fileContent_of file) with
    | Some (_, _, needs) => needs
    | None => true
    end.
Proof.
  induction l as [|x l IH]; intros Hnd Hin; [destruct Hin|].
  cbn [map] in Hnd. apply NoDup_cons_iff in Hnd as [Hx Hnd].
  cbn [flat_map]. rewrite needsReview_app.
  destruct Hin as [->|Hin].
  - destruct (doSummary (filename_of file) (fileContent_of file))
      as [[[n s] b]|] eqn:E; cbn [find].
    + pose proof (doSummary_name _ _ _ E) as En. cbn [fst] in En.
      subst n. cbn [fst]. rewrite SummaryFacts.str_eqb_refl. reflexivity.
    + apply kept_other. intros f Hf Ef. apply Hx. rewrite <- Ef.
      apply in_map. exact Hf.
  - assert (Hne : filename_of x <> filename_of file).
    { intros E. apply Hx. rewrite E. apply in_map. exact Hin. }
    destruct (doSummary (filename_of x) (fileContent_of x)) as [r|] eqn:E;
      cbn [find].
    + rewrite (doSummary_name _ _ _ E).
      destruct (str_eqb (filename_of x) (filename_of file)) eqn:En.
      * apply LineFacts.str_eqb_spec in En. contradiction.
      * apply IH; assumption.
    + apply IH; assumption.
Qed.

Lemma NoDup_names_inj
    (l : list (list N * list N * list N * list (Z * Z * list N)))
    (a b : list N * list N * list N * list (Z * Z * list N)) :
  NoDup (map filename_of l) -> In a l -> In b l ->
  filename_of a = filename_of b -> a = b.
Proof.
  induction l as [|x l IH]; intros Hnd Ha Hb E; [destruct Ha|].
  cbn [map] in Hnd. apply NoDup_cons_iff in Hnd as [Hx Hnd].
  destruct Ha as [->|Ha], Hb as [->|Hb].
  - reflexivity.
  - exfalso. apply Hx. rewrite E. apply in_map. exact Hb.
  - exfalso. apply Hx. rewrite <- E. apply in_map. exact Ha.
  - apply IH; assumption.
Qed.

(** X19.  [codeReview] asks for the summary of a file with the name of
    the file and its content at the base, the second element of its
    tuple, not its diff.  For files with distinct names and a [doSummary]
    that answers under the name it is given, a file is left out of the
    candidates for review exactly when it was summarized, within the cap,
    and the summary made from its content says that it needs no review.
    A file that got no summary, because the cap skipped it or [doSummary]
    returned [null], stays a candidate, also when it is on the list of
    skipped files.  A review is started only for candidates. *)
Theorem reviewed_files (maxFiles : Z)
    (filesAndChanges : list (list N * list N * list N
                             * list (Z * Z * list N))) :
  NoDup (map filename_of filesAndChanges) ->
  let summaryPromises := fst (cap_loop maxFiles [] [] filesAndChanges) in
  let summaries := fst (summarize doSummary maxFiles filesAndChanges) in
  (forall file,
     In file filesAndChanges ->
     (needsReview summaries (filename_of file) = false
      <-> In file summaryPromises
          /\ exists summary,
               doSummary (filename_of file) (fileContent_of file)
               = Some (filename_of file, summary, false)))
  /\ (forall file,
        In file filesAndChanges -> ~ In file summaryPromises ->
        In file (filesAndChangesReview summaries filesAndChanges)
        /\ In (filename_of file)
             (snd (summarize doSummary maxFiles filesAndChanges)))
  /\ (forall file,
        In file (fst (reviewed doSummary maxFiles filesAndChanges)) ->
        In file filesAndChanges
        /\ needsReview summaries (filename_of file) = true).
Proof.
  intros Hnd summaryPromises summaries.
  pose proof (cap_loop_spec maxFiles filesAndChanges [] []) as Hcap.
  cbn zeta in Hcap. cbn [app length] in Hcap.
  set (room := if (maxFiles <=? 0)%Z then length filesAndChanges
               else Nat.min (Z.to_nat maxFiles - 0)
                      (length filesAndChanges)) in Hcap.
  assert (Ep : summaryPromises = firstn room filesAndChanges)
    by (unfold summaryPromises; rewrite Hcap; reflexivity).
  assert (Es : summaries = kept summaryPromises).
  { unfold summaries, summarize, summaryPromises.
    destruct (cap_loop maxFiles [] [] filesAndChanges). reflexivity. }
  assert (Esk : snd (summarize doSummary maxFiles filesAndChanges)
                = map filename_of (skipn room filesAndChanges)).
  { unfold summarize. rewrite Hcap. reflexivity. }
  assert (Hincl : forall f, In f summaryPromises -> In f filesAndChanges).
  { intros f Hf. rewrite Ep in Hf.
    rewrite <- (firstn_skipn room filesAndChanges).
    apply in_or_app. left. exact Hf. }
  assert (Hndp : NoDup (map filename_of summaryPromises)).
  { rewrite <- (firstn_skipn room filesAndChanges), map_app in Hnd.
    apply NoDup_app_remove_r in Hnd. rewrite Ep. exact Hnd. }
  assert (Hout : forall file,
             In file filesAndChanges -> ~ In file summaryPromises ->
             needsReview summaries (filename_of file) = true).
  { intros file Hfile Hnot. rewrite Es. apply kept_other.
    intros f Hf Ef. apply Hnot.
    rewrite <- (NoDup_names_inj _ f file Hnd (Hincl f Hf) Hfile Ef).
    exact Hf. }
  split; [|split].
  - intros file Hfile. split.
    + intros Hneeds.
      assert (Hin : In file summaryPromises).
      { destruct (in_dec
                    (fun a b : list N * list N * list N
                               * list (Z * Z * list N) =>
                       ltac:(repeat decide equality)
                       : {a = b} + {a <> b})
                    file summaryPromises) as [Hin|Hnot]; [exact Hin|].
        rewrite (Hout file Hfile Hnot) in Hneeds. discriminate. }
      split; [exact Hin|].
      rewrite Es, (kept_own _ _ Hndp Hin) in Hneeds.
      destruct (doSummary (filename_of file) (fileContent_of file))
        as [[[n s] b]|] eqn:E; [|discriminate].
      pose proof (doSummary_name _ _ _ E) as En. cbn [fst] in En.
      subst n b. exists s. reflexivity.
    + intros (Hin & s & E). rewrite Es, (kept_own _ _ Hndp Hin), E.
      reflexivity.
  - intros file Hfile Hnot. split.
    + unfold filesAndChangesReview. apply filter_In.
      split; [exact Hfile | exact (Hout file Hfile Hnot)].
    + rewrite Esk. apply in_map.
      rewrite <- (firstn_skipn room filesAndChanges) in Hfile.
      apply in_app_or in Hfile as [Hf|Hf]; [|exact Hf].
      exfalso. apply Hnot. rewrite Ep. exact Hf.
  - intros file Hfile. unfold reviewed in Hfile.
    destruct (summarize doSummary maxFiles filesAndChanges)
      as [sums skipped] eqn:Esum.
    assert (Esums : sums = summaries)
      by (unfold summaries; rewrite ?Esum; reflexivity).
    rewrite Esums in Hfile.
    rewrite cap_loop_spec in Hfile. cbn [fst app] in Hfile.
    assert (Hcand : In file (filesAndChangesReview summaries filesAndChanges)).
    { match type of Hfile with
      | In _ (firstn ?k ?l) => rewrite <- (firstn_skipn k l)
      end.
      apply in_or_app. left. exact Hfile. }
    unfold filesAndChangesReview in Hcand. apply filter_In in Hcand.
    exact Hcand.
Qed.

End Pipeline.

(** With a cap of two and a [doSummary] that approves what it is shown,
    the changed file is left out; the new file, whose content at the base
    is empty, gets no summary and stays a candidate, and so does the file
    the cap skipped. *)
Lemma reviewed_files_witness :
  needsReview (fst (summarize approve_shown 2 changed_files)) (lit "old.ts")
  = false
  /\ needsReview (fst (summarize approve_shown 2 changed_files))
       (lit "new.ts") = true
  /\ In (lit "late.ts", lit "let c", lit "diff c", [])
       (filesAndChangesReview
          (fst (summarize approve_shown 2 changed_files)) changed_files).
Proof.
  assert (Hname : forall filename text result,
             approve_shown filename text = Some result ->
             fst (fst result) = filename).
  { intros filename [|x text] result; [discriminate|].
    intros [= <-]. reflexivity. }
  assert (Hnd : NoDup (map filename_of changed_files)).
  { repeat constructor; cbn; intuition discriminate. }
  destruct (reviewed_files approve_shown Hname 2 changed_files Hnd)
    as (H1 & H2 & _).
  split; [|split].
  - apply (H1 (lit "old.ts", lit "let a", lit "diff a", []));
      [left; reflexivity|].
    split; [left; reflexivity|]. exists (lit "summary"). reflexivity.
  - apply not_false_iff_true. intros E.
    apply (H1 (lit "new.ts", [], lit "diff b", [])) in E
      as (_ & summary & E); [discriminate E|].
    right; left; reflexivity.
  - apply (H2 (lit "late.ts", lit "let c", lit "diff c", [])).
    + right; right; left; reflexivity.
    + cbn. intuition discriminate.
Defined.

End SelectFacts.

(* ===================================================================== *)
(** ** [SimpleInputs.render] *)
(* ===================================================================== *)

Module RenderFacts.

Import Inputs RenderSpec SanitizeSpec.

Lemma getSubstitution_plain (matched preceding following template : list N) :
  no_dollar template ->
  getSubstitution matched preceding following template = template.
Proof.
  unfold no_dollar. induction template as [|c t IH]; intros H;
    [reflexivity|].
  cbn [getSubstitution].
  destruct (char_eqb c dollar) eqn:E.
  - exfalso. apply H. left. unfold char_eqb in E.
    apply N.eqb_eq in E. exact E.
  - cbn [getSubstitution] in IH. rewrite IH; [reflexivity|].
    intros Hin. apply H. right. exact Hin.
Qed.

Lemma indexOf_absent (s pat : list N) :
  (forall i, ~ occurs_at pat s i) -> indexOf s pat 0 = None.
Proof.
  intros H. destruct (indexOf s pat 0) as [j|] eqn:E; [|reflexivity].
  apply SanitizeFacts.indexOf_Some in E as (_ & _ & Hocc & _); [|lia].
  exfalso. exact (H j Hocc).
Qed.

Lemma render_field_absent (content : list N) (placeholder : string)
    (value : list N) :
  (forall i, ~ occurs_at (lit placeholder) content i) ->
  render_field content placeholder value = content.
Proof.
  intros H. unfold render_field, replace.
  rewrite (indexOf_absent _ _ H). destruct (negb _); reflexivity.
Qed.

Lemma no_dollar_absent (content pat : list N) (i : nat) :
  no_dollar content -> ~ occurs_at (dollar :: pat) content i.
Proof.
  intros H Hocc. apply StripFacts.occurs_at_head in Hocc.
  apply nth_error_In in Hocc. exact (H Hocc).
Qed.

(** In a text whose only dollar sign opens a placeholder, no other
    placeholder occurs. *)
Lemma other_placeholder_absent (before after t t' : list N) (x x' : N)
    (i : nat) :
  no_dollar before -> no_dollar after -> no_dollar (x :: t) -> x <> x' ->
  ~ occurs_at (dollar :: x' :: t')
      (before ++ (dollar :: x :: t) ++ after) i.
Proof.
  intros Hb Ha Ht Hx Hocc.
  pose proof (StripFacts.occurs_at_nth _ _ i 0 Hocc ltac:(cbn; lia)) as H0.
  pose proof (StripFacts.occurs_at_nth _ _ i 1 Hocc ltac:(cbn; lia)) as H1.
  cbn [nth_error] in H0, H1. rewrite Nat.add_0_r in H0.
  assert (Hi : i = length before).
  { destruct (Nat.lt_trichotomy i (length before)) as [Hlt|[Heq|Hgt]];
      [|exact Heq|].
    - rewrite nth_error_app1 in H0 by exact Hlt.
      apply nth_error_In in H0. contradiction.
    - rewrite nth_error_app2 in H0 by lia.
      destruct (i - length before) as [|k] eqn:Ek; [lia|].
      cbn [app nth_error] in H0.
      change (x :: t ++ after) with ((x :: t) ++ after) in H0.
      apply nth_error_In in H0. apply in_app_or in H0 as [H0|H0];
        contradiction. }
  subst i. rewrite nth_error_app2 in H1 by lia.
  replace (length before + 1 - length before) with 1 in H1 by lia.
  cbn [app nth_error] in H1. congruence.
Qed.

Lemma replace_placeholder (before after t value : list N) :
  no_dollar before -> no_dollar value ->
  replace (before ++ (dollar :: t) ++ after) (dollar :: t) value
  = before ++ value ++ after.
Proof.
  intros Hb Hv. unfold replace.
  rewrite (StripFacts.indexOf_first _ _ 0 (length before)).
  - rewrite firstn_app, firstn_all, Nat.sub_diag. cbn [firstn].
    rewrite app_nil_r, getSubstitution_plain by exact Hv.
    rewrite (app_assoc before (dollar :: t) after),
      SanitizeFacts.skipn_exact by (rewrite length_app; reflexivity).
    reflexivity.
  - lia.
  - rewrite length_app. lia.
  - exists after. apply SanitizeFacts.skipn_exact. reflexivity.
  - intros j Hj Hocc. apply StripFacts.occurs_at_head in Hocc.
    rewrite nth_error_app1 in Hocc by lia.
    apply nth_error_In in Hocc. contradiction.
Qed.

Lemma no_dollar_app (a b : list N) :
  no_dollar a -> no_dollar b -> no_dollar (a ++ b).
Proof.
  unfold no_dollar. intros Ha Hb H. apply in_app_or in H as [H|H];
    contradiction.
Qed.

(** X22.  [render] of [SimpleInputs] returns the empty text for the empty
    template and leaves a template without a dollar sign as it is.  In a
    template that holds one placeholder and no other dollar sign, the
    placeholder is replaced by the value of its field when that value is
    not empty and holds no dollar sign, whatever the other fields hold;
    with an empty value the placeholder stays. *)
Theorem render_substitutes (ins : SimpleInputs) :
  render ins [] = []
  /\ (forall content, no_dollar content -> render ins content = content)
  /\ (forall placeholder value before after,
        In (placeholder, value) (fields ins) ->
        no_dollar before -> no_dollar after ->
        let content := before ++ lit placeholder ++ after in
        (value = [] -> render ins content = content)
        /\ (value <> [] -> no_dollar value ->
            render ins content = before ++ value ++ after)).
Proof.
  split; [reflexivity|].
  assert (Hclean : forall content placeholder value,
             no_dollar content ->
             In placeholder
               ["$system_message"; "$title"; "$filename"; "$patch";
                "$review"]%string ->
             render_field content placeholder value = content).
  { intros content placeholder value Hc Hin.
    apply render_field_absent. intros i.
    destruct Hin as [<-|[<-|[<-|[<-|[<-|[]]]]]];
      apply no_dollar_absent; exact Hc. }
  assert (M1 : In "$system_message"%string
                 ["$system_message"; "$title"; "$filename"; "$patch";
                  "$review"]%string) by (left; reflexivity).
  assert (M2 : In "$title"%string
                 ["$system_message"; "$title"; "$filename"; "$patch";
                  "$review"]%string) by (right; left; reflexivity).
  assert (M3 : In "$filename"%string
                 ["$system_message"; "$title"; "$filename"; "$patch";
                  "$review"]%string) by (do 2 right; left; reflexivity).
  assert (M4 : In "$patch"%string
                 ["$system_message"; "$title"; "$filename"; "$patch";
                  "$review"]%string) by (do 3 right; left; reflexivity).
  assert (M5 : In "$review"%string
                 ["$system_message"; "$title"; "$filename"; "$patch";
                  "$review"]%string) by (do 4 right; left; reflexivity).
  split.
  { intros content Hc. unfold render.
    destruct (length content =? 0) eqn:E.
    - apply SummaryFacts.length_zero in E. congruence.
    - rewrite !(Hclean content) by assumption. reflexivity. }
  intros placeholder value before after Hin Hb Ha content.
  assert (Hlen : (length content =? 0) = false).
  { unfold content. apply Nat.eqb_neq. rewrite !length_app.
    destruct Hin as [H|[H|[H|[H|[H|[]]]]]]; injection H as <- _; cbn; lia. }
  assert (Hempty : value = [] ->
                   render_field content placeholder value = content)
    by (intros ->; reflexivity).
  assert (Hsub : value <> [] -> no_dollar value ->
                 render_field content placeholder value
                 = before ++ value ++ after).
  { intros Hne Hv. unfold render_field.
    destruct value as [|v0 value']; [contradiction|]. cbn [length Nat.eqb negb].
    unfold content.
    destruct Hin as [H|[H|[H|[H|[H|[]]]]]]; injection H as <- _;
      apply replace_placeholder; assumption. }
  assert (Hother : forall other v,
             In other
               ["$system_message"; "$title"; "$filename"; "$patch";
                "$review"]%string ->
             other <> placeholder ->
             render_field content other v = content).
  { intros other v Hother Hne. apply render_field_absent. intros i.
    unfold content.
    destruct Hin as [H|[H|[H|[H|[H|[]]]]]]; injection H as <- _;
      destruct Hother as [<-|[<-|[<-|[<-|[<-|[]]]]]];
      try contradiction;
      (apply other_placeholder_absent;
       [exact Hb | exact Ha | vm_compute; intuition discriminate
       | vm_compute; discriminate]). }
  split.
  - intros Hv. unfold render. rewrite Hlen.
    destruct Hin as [H|[H|[H|[H|[H|[]]]]]]; injection H as <- <-;
      repeat first
        [ rewrite Hempty by exact Hv
        | rewrite Hother by first [discriminate | assumption] ];
      reflexivity.
  - intros Hne Hv. unfold render. rewrite Hlen.
    assert (Hres : no_dollar (before ++ value ++ after))
      by (apply no_dollar_app; [|apply no_dollar_app]; assumption).
    destruct Hin as [H|[H|[H|[H|[H|[]]]]]]; injection H as <- <-;
      repeat first
        [ rewrite Hsub by assumption
        | rewrite Hother by first [discriminate | assumption]
        | rewrite (Hclean (before ++ _ ++ after)) by assumption ];
      reflexivity.
Qed.

(** The triage prompt of a patch: the placeholder gives way to the text
    of the patch. *)
Lemma render_substitutes_witness :
  render (mkSimpleInputs [] (lit "no title provided") [] (lit "+ x") [])
    (lit "## Diff" ++ [nl] ++ lit "$patch" ++ [nl])
  = lit "## Diff" ++ [nl] ++ lit "+ x" ++ [nl].
Proof.
  assert (Hb : no_dollar (lit "## Diff" ++ [nl]))
    by (vm_compute; intuition discriminate).
  assert (Ha : no_dollar [nl]) by (vm_compute; intuition discriminate).
  assert (Hv : no_dollar (lit "+ x")) by (vm_compute; intuition discriminate).
  destruct (proj2 (proj2 (render_substitutes
                (mkSimpleInputs [] (lit "no title provided") []
                   (lit "+ x") [])))
              "$patch"%string (lit "+ x") (lit "## Diff" ++ [nl]) [nl]
              ltac:(do 3 right; left; reflexivity) Hb Ha)
    as [_ H2].
  specialize (H2 ltac:(discriminate) Hv).
  rewrite <- !app_assoc in H2. exact H2.
Defined.

Lemma getSubstitution_app_plain (matched preceding following v t : list N) :
  no_dollar v ->
  getSubstitution matched preceding following (v ++ t)
  = v ++ getSubstitution matched preceding following t.
Proof.
  unfold no_dollar. induction v as [|c v IH]; intros H; [reflexivity|].
  cbn [app]. destruct (char_eqb c dollar) eqn:E.
  - exfalso. apply H. left. unfold char_eqb in E.
    apply N.eqb_eq in E. exact E.
  - assert (Hstep : forall u,
               getSubstitution matched preceding following (c :: u)
               = c :: getSubstitution matched preceding following u)
      by (intros u; cbn [getSubstitution]; rewrite E; reflexivity).
    rewrite Hstep, IH; [reflexivity|].
    intros Hin. apply H. right. exact Hin.
Qed.

(** X23.  A value is not always put in as it is: [render] hands it to
    [replace] as a replacement pattern.  In a template that holds the
    placeholder [$review] and no other dollar sign, a review text with
    two dollar signs in a row comes out with one, and the two characters
    [$&] in it come out as the placeholder itself. *)
Theorem render_dollar_patterns (ins : SimpleInputs)
    (before after v1 v2 : list N) :
  no_dollar before -> no_dollar after -> no_dollar v1 -> no_dollar v2 ->
  let content := before ++ lit "$review" ++ after in
  (review ins = v1 ++ [dollar; dollar] ++ v2 ->
   render ins content = before ++ v1 ++ [dollar] ++ v2 ++ after)
  /\ (review ins = v1 ++ [dollar; 38%N] ++ v2 ->
      render ins content = before ++ v1 ++ lit "$review" ++ v2 ++ after).
Proof.
  intros Hb Ha H1 H2 content.
  assert (Hlen : (length content =? 0) = false).
  { unfold content. apply Nat.eqb_neq. rewrite !length_app. cbn. lia. }
  assert (Hother : forall other v x t,
             lit other = dollar :: x :: t -> x <> 114%N ->
             render_field content other v = content).
  { intros other v x t E Hx. apply render_field_absent. intros i.
    rewrite E. unfold content.
    apply other_placeholder_absent;
      [exact Hb | exact Ha | vm_compute; intuition discriminate
      | intros Ex; apply Hx; symmetry; exact Ex]. }
  assert (Hrender : render ins content
                    = render_field content "$review" (review ins)).
  { unfold render. rewrite Hlen.
    rewrite (Hother "$system_message"%string _ _ _ eq_refl)
      by (vm_compute; discriminate).
    rewrite (Hother "$title"%string _ _ _ eq_refl)
      by (vm_compute; discriminate).
    rewrite (Hother "$filename"%string _ _ _ eq_refl)
      by (vm_compute; discriminate).
    rewrite (Hother "$patch"%string _ _ _ eq_refl)
      by (vm_compute; discriminate).
    reflexivity. }
  assert (Hreplace : forall value,
             value <> [] ->
             render_field content "$review" value
             = before
               ++ getSubstitution (lit "$review") before after value
               ++ after).
  { intros value Hne. unfold render_field, replace.
    destruct value as [|c value']; [contradiction|].
    cbn [length Nat.eqb negb]. unfold content.
    change (lit "$review") with (dollar :: lit "review").
    rewrite (StripFacts.indexOf_first _ _ 0 (length before)).
    - rewrite firstn_app, firstn_all, Nat.sub_diag. cbn [firstn].
      rewrite app_nil_r.
      rewrite (app_assoc before (dollar :: lit "review") after),
        SanitizeFacts.skipn_exact by (rewrite length_app; reflexivity).
      reflexivity.
    - lia.
    - rewrite length_app. lia.
    - exists after. apply SanitizeFacts.skipn_exact. reflexivity.
    - intros j Hj Hocc. apply StripFacts.occurs_at_head in Hocc.
      rewrite nth_error_app1 in Hocc by lia.
      apply nth_error_In in Hocc. contradiction. }
  rewrite Hrender. split; intros Ev; rewrite Ev.
  - rewrite Hreplace by (destruct v1; discriminate).
    rewrite getSubstitution_app_plain by exact H1.
    cbn [app getSubstitution]. change (char_eqb dollar dollar) with true.
    cbv iota. rewrite getSubstitution_plain by exact H2.
    rewrite <- !app_assoc. reflexivity.
  - rewrite Hreplace by (destruct v1; discriminate).
    rewrite getSubstitution_app_plain by exact H1.
    cbn [app getSubstitution]. change (char_eqb dollar dollar) with true.
    change (char_eqb 38 dollar) with false.
    change (char_eqb 38 96) with false.
    change (char_eqb 38 38) with true.
    cbv iota. rewrite getSubstitution_plain by exact H2.
    rewrite <- !app_assoc. reflexivity.
Qed.

(** A review that mentions a price: one of the two dollar signs is
    lost. *)
Lemma render_dollar_patterns_witness :
  render (mkSimpleInputs [] [] [] [] (lit "costs $$5"))
    (lit "Comment: $review.")
  = lit "Comment: costs $5.".
Proof.
  assert (Hb : no_dollar (lit "Comment: "))
    by (vm_compute; intuition discriminate).
  assert (Ha : no_dollar (lit ".")) by (vm_compute; intuition discriminate).
  assert (H1 : no_dollar (lit "costs "))
    by (vm_compute; intuition discriminate).
  assert (H2 : no_dollar (lit "5")) by (vm_compute; intuition discriminate).
  exact (proj1 (render_dollar_patterns
                  (mkSimpleInputs [] [] [] [] (lit "costs $$5"))
                  (lit "Comment: ") (lit ".") (lit "costs ") (lit "5")
                  Hb Ha H1 H2) eq_refl).
Defined.

End RenderFacts.


(* ===================================================================== *)
(** ** doReview: the request for a file and the comments handed on *)
(* ===================================================================== *)

Module PostFacts.

Import Post PostSpec.

Lemma includes_spec (s pat : list N) :
  includes s pat = true <-> exists i, SanitizeSpec.occurs_at pat s i.
Proof.
  unfold includes. destruct (indexOf s pat 0) as [i|] eqn:E.
  - split; [intros _|reflexivity].
    exists i. apply (SanitizeFacts.indexOf_Some s pat 0 i); [lia | exact E].
  - split; [discriminate|]. intros (i & Hi). exfalso.
    apply (SanitizeFacts.indexOf_None s pat 0 ltac:(lia) E i); [lia|exact Hi].
Qed.

Section Posting.

Variable getTokenCount : list N -> N.
Variable requestTokens : Z.
Variable reviewCommentLGTM : bool.
Variable renderReviewFileDiff : list N -> list N -> list N.
Variable inputsPatches : list N.
Variable getCommentChainsWithinRange
  : list N -> Z -> Z -> outcome (list N).
Variable chat : list N -> outcome (list N).
Variable bufferReviewComment : list N -> Z -> Z -> list N -> outcome unit.
Variable errorText : jsError -> list N.

Local Abbreviation run :=
  (doReview getTokenCount requestTokens reviewCommentLGTM
     renderReviewFileDiff inputsPatches getCommentChainsWithinRange chat
     bufferReviewComment errorText).
Local Abbreviation passed_over := (skipped reviewCommentLGTM).
Local Abbreviation cost := (PackSpec.cost getTokenCount).

(** The tokens of the prompt before any unit is packed. *)
Local Abbreviation promptTokens filename :=
  (Z.of_N (getTokenCount (renderReviewFileDiff filename inputsPatches))).

(** The units as they are packed for the file, and the request made of
    them. *)
Local Abbreviation packed filename patches :=
  (Pack.pack getTokenCount requestTokens
     (getCommentChainsWithinRange filename) (promptTokens filename)
     inputsPatches patches).
Local Abbreviation request filename patches :=
  (renderReviewFileDiff filename (Pack.insPatches (packed filename patches))).

Lemma skipped_spec (r : Review.Review) :
  passed_over r = true
  <-> reviewCommentLGTM = false /\ has_skip_keyword (Review.comment r).
Proof.
  unfold skipped, has_skip_keyword.
  rewrite andb_true_iff, negb_true_iff, existsb_exists. split.
  - intros (H & keyword & Hin & Hinc). split; [exact H|].
    apply includes_spec in Hinc as (i & Hi). exists keyword, i. tauto.
  - intros (H & keyword & i & Hin & Hi). split; [exact H|].
    exists keyword. split; [exact Hin|]. apply includes_spec. exists i.
    exact Hi.
Qed.

(** The loop hands on the comments that are not passed over, one after the
    other, and goes on after a call that throws. *)
Lemma post_loop_spec (filename : list N) (reviews : list Review.Review)
    (lg : log) :
  let kept := filter (fun r => negb (passed_over r)) reviews in
  post_loop reviewCommentLGTM bufferReviewComment errorText filename
    reviews lg
  = mkLog (buffered lg ++ map (call filename) kept)
      (reviewsFailed lg
       ++ flat_map (failure bufferReviewComment errorText filename) kept)
      (reviewsSkipped lg).
Proof.
  cbv zeta. revert lg. induction reviews as [|r rs IH]; intros lg.
  - cbn. rewrite !app_nil_r. destruct lg; reflexivity.
  - cbn [post_loop filter]. destruct (passed_over r); cbn [negb].
    + apply IH.
    + cbn [map flat_map].
      change (call filename r)
        with (filename, Review.startLine r, Review.endLine r,
              Review.comment r).
      change (failure bufferReviewComment errorText filename r)
        with (match bufferReviewComment filename (Review.startLine r)
                      (Review.endLine r) (Review.comment r) with
              | Returns _ => []
              | Throws e =>
                  [filename ++ lit " comment failed (" ++ errorText e
                   ++ lit ")"]
              end).
      destruct (bufferReviewComment filename (Review.startLine r)
                  (Review.endLine r) (Review.comment r));
        rewrite IH; cbn [buffered reviewsFailed reviewsSkipped];
        rewrite <- ?app_assoc; reflexivity.
Qed.

(** At least one unit is packed exactly when the first unit fits beside
    the prompt. *)
Lemma packed_some (filename : list N) (patches : list Review.Patch) :
  (0 <? Pack.patchesPacked (packed filename patches)) = true
  <-> exists p rest,
        patches = p :: rest
        /\ (promptTokens filename + cost p <= requestTokens)%Z.
Proof.
  unfold Pack.pack.
  destruct (PackFacts.count_loop_spec getTokenCount requestTokens patches
              (promptTokens filename) 0)
    as (m & Hc & Hm & Hin & Hout).
  rewrite Hc.
  match goal with
  | |- context [Pack.pack_loop _ _ _ ?n ?st ?ps] =>
      destruct (PackFacts.pack_loop_spec getTokenCount requestTokens
                  (getCommentChainsWithinRange filename) n ps st)
        as (Hp & _); [cbn; lia|]
  end.
  rewrite Hp. cbn [Pack.patchesPacked]. rewrite Nat.ltb_lt. split.
  - intros Hpos. destruct patches as [|p rest]; [cbn in Hm; lia|].
    exists p, rest. split; [reflexivity|].
    specialize (Hin 1 ltac:(lia)). cbn in Hin. unfold PackSpec.cost in *.
    lia.
  - intros (p & rest & -> & Hfit).
    destruct m as [|m]; [|lia]. exfalso.
    specialize (Hout ltac:(cbn; lia)). cbn in Hout.
    unfold PackSpec.cost in *. lia.
Qed.

(** X14.  The three ways [doReview] ends without a comment.  When the file
    has no unit, or its first unit does not fit the request beside the
    prompt, the file is recorded as skipped ([diff too large]) and that is
    all.  Otherwise, when the request fails or the response is empty, the
    file is recorded once as failed.  In none of these cases a comment is
    handed on, and a file that is not skipped adds nothing to the skipped
    reviews. *)
Theorem doReview_without_comments (filename : list N)
    (patches : list Review.Patch) (lg : log) :
  let fits :=
    exists p rest,
      patches = p :: rest
      /\ (promptTokens filename + cost p <= requestTokens)%Z in
  (~ fits ->
   run filename patches lg
   = mkLog (buffered lg) (reviewsFailed lg)
       (reviewsSkipped lg ++ [filename ++ lit " (diff too large)"]))
  /\ (fits ->
      reviewsSkipped (run filename patches lg) = reviewsSkipped lg
      /\ (forall e,
            chat (request filename patches) = Throws e ->
            run filename patches lg
            = mkLog (buffered lg)
                (reviewsFailed lg
                 ++ [filename ++ lit " (" ++ errorText e ++ lit ")"])
                (reviewsSkipped lg))
      /\ (chat (request filename patches) = Returns [] ->
          run filename patches lg
          = mkLog (buffered lg)
              (reviewsFailed lg ++ [filename ++ lit " (no response)"])
              (reviewsSkipped lg))).
Proof.
  intros fits. pose proof (packed_some filename patches) as Hpacked.
  fold fits in Hpacked. split.
  - intros Hno. unfold doReview.
    destruct (0 <? Pack.patchesPacked (packed filename patches)) eqn:E;
      [|reflexivity].
    exfalso. apply Hno, Hpacked. reflexivity.
  - intros Hfits. apply Hpacked in Hfits as E. unfold doReview. rewrite E.
    split; [|split].
    + destruct (chat (request filename patches)) as [response|e];
        [|reflexivity].
      destruct (str_eqb response []); [reflexivity|].
      destruct (Review.parseReview response patches) as [reviews|e];
        [|reflexivity].
      rewrite post_loop_spec. reflexivity.
    + intros e ->. reflexivity.
    + intros ->. reflexivity.
Qed.

(** X15.  The comments [doReview] hands on.  When the first unit fits and
    the bot gives a response that is not empty, the response is parsed
    against the units of the file without failing; the comments handed to
    [bufferReviewComment] are the parsed ones that are not passed over, in
    their order, under the file's name, each with a range that is the
    range of a unit or lies in one; a comment is passed over exactly when
    [reviewCommentLGTM] is off and a skip keyword occurs in it; and a call
    that throws adds an entry to the failed reviews without ending the
    loop. *)
Theorem doReview_hands_on (filename : list N) (p : Review.Patch)
    (rest : list Review.Patch) (lg : log) (response : list N) :
  (promptTokens filename + cost p <= requestTokens)%Z ->
  chat (request filename (p :: rest)) = Returns response ->
  response <> [] ->
  exists reviews,
    Review.parseReview response (p :: rest) = Returns reviews
    /\ Forall (ReviewSpec.anchored (p :: rest)) reviews
    /\ (forall r,
          passed_over r = true
          <-> reviewCommentLGTM = false
              /\ has_skip_keyword (Review.comment r))
    /\ let kept := filter (fun r => negb (passed_over r)) reviews in
       run filename (p :: rest) lg
       = mkLog (buffered lg ++ map (call filename) kept)
           (reviewsFailed lg
            ++ flat_map (failure bufferReviewComment errorText filename)
                 kept)
           (reviewsSkipped lg).
Proof.
  intros Hfit Hchat Hne.
  destruct (ScanFacts.parseReview_anchored response (p :: rest))
    as (reviews & Hparse & Hanch); [discriminate|].
  exists reviews. split; [exact Hparse|]. split; [exact Hanch|].
  split; [exact skipped_spec|]. cbv zeta.
  assert (E : (0 <? Pack.patchesPacked (packed filename (p :: rest)))
              = true)
    by (apply packed_some; exists p, rest; split; [reflexivity|exact Hfit]).
  unfold doReview. rewrite E, Hchat.
  destruct response as [|c response]; [contradiction|].
  cbn [str_eqb]. rewrite Hparse. apply post_loop_spec.
Qed.

End Posting.

(** A request is never made for a file without units. *)
Lemma doReview_without_comments_witness :
  doReview PackSpec.char_count 100 false (fun f ps => f ++ ps) []
    (fun _ _ _ => Returns []) (fun _ => Returns three_comments)
    failing_at_3 (fun _ => lit "Error") (lit "a.py") [] log0
  = mkLog [] [] [lit "a.py (diff too large)"].
Proof.
  apply (doReview_without_comments PackSpec.char_count 100 false
           (fun f ps => f ++ ps) [] (fun _ _ _ => Returns [])
           (fun _ => Returns three_comments) failing_at_3
           (fun _ => lit "Error") (lit "a.py") [] log0).
  intros (p & rest & H & _). discriminate H.
Defined.

(** Of three comments, the one that only approves is passed over, the two
    others are handed on, and the failure of the first call is recorded. *)
Lemma doReview_hands_on_witness :
  doReview PackSpec.char_count 100 false (fun f ps => f ++ ps) []
    (fun _ _ _ => Returns []) (fun _ => Returns three_comments)
    failing_at_3 (fun _ => lit "Error") (lit "a.py")
    [(1, 4, lit "aaaa")%Z] log0
  = mkLog [(lit "a.py", 3, 4, lit "Check this" ++ [nl]);
           (lit "a.py", 2, 3, lit "Rename it" ++ [nl])]%Z
      [lit "a.py comment failed (Error)"] [].
Proof.
  destruct (doReview_hands_on PackSpec.char_count 100 false
              (fun f ps => f ++ ps) [] (fun _ _ _ => Returns [])
              (fun _ => Returns three_comments) failing_at_3
              (fun _ => lit "Error") (lit "a.py") (1, 4, lit "aaaa")%Z []
              log0 three_comments)
    as (reviews & Hparse & _ & _ & H).
  - vm_compute. discriminate.
  - reflexivity.
  - discriminate.
  - rewrite H. vm_compute in Hparse. injection Hparse as <-.
    vm_compute. reflexivity.
Defined.

End PostFacts.
